(** * Command parsing and message moderation core of server/chat.ts

    A shallow embedding of [CommandContext] (parse, parseCommand, run,
    canTalk, canBroadcast, runBroadcast) and of [Chat.filter], with the
    collaborators of the chat core (rooms, users, the crash monitor, the
    plugin handlers) made explicit as state, oracles and logged events. *)

From Stdlib Require Import NArith ZArith Ascii String Lia.
From stdpp Require Import gmap list.

Set Warnings "-register-all".
Set Default Proof Using "Type".

Local Open Scope N_scope.

(** ** JavaScript strings

    A JavaScript string is a sequence of UTF-16 code units; [length],
    [charAt], [slice], [indexOf] and regular expressions without the [u]
    flag all count code units. *)
Module JS.

Abbreviation jsstring := (list N).

(** ASCII literal to code units. *)
Definition js (s : string) : jsstring := N_of_ascii <$> list_ascii_of_string s.

Definition jseq (a b : jsstring) : bool := bool_decide (a = b).

(** [s.charAt(i)]: the one-unit string at [i], or the empty string. *)
Definition charAt (s : jsstring) (i : nat) : jsstring := take 1 (drop i s).

Fixpoint startsWith (s p : jsstring) {struct p} : bool :=
  match p, s with
  | [], _ => true
  | c :: p', d :: s' => (c =? d) && startsWith s' p'
  | _ :: _, [] => false
  end.

Definition endsWith (s p : jsstring) : bool := startsWith (reverse s) (reverse p).

(** [hay.includes(needle)] *)
Fixpoint includes (hay needle : jsstring) : bool :=
  startsWith hay needle ||
  match hay with
  | [] => false
  | _ :: hay' => includes hay' needle
  end.

(** [s.indexOf(c)] for a one-unit needle; -1 when absent. *)
Fixpoint indexOf (s : jsstring) (c : N) : Z :=
  match s with
  | [] => (-1)%Z
  | d :: s' =>
      if d =? c then 0%Z
      else let r := indexOf s' c in
           if (r <? 0)%Z then (-1)%Z else (r + 1)%Z
  end.

(** [s.slice(a)], [s.slice(a, b)] with [0 <= a], [0 <= b], and
    [s.slice(0, -k)]. *)
Definition sliceFrom (s : jsstring) (a : nat) : jsstring := drop a s.
Definition slice (s : jsstring) (a b : nat) : jsstring := take (b - a) (drop a s).
Definition sliceEnd (s : jsstring) (k : nat) : jsstring := take (length s - k) s.

(** WhiteSpace and LineTerminator code units: what [trim] strips and
    what [\s] matches. *)
Definition isSpace (c : N) : bool :=
  ((9 <=? c) && (c <=? 13)) || (c =? 32) || (c =? 160) || (c =? 5760) ||
  ((8192 <=? c) && (c <=? 8202)) || (c =? 8232) || (c =? 8233) ||
  (c =? 8239) || (c =? 8287) || (c =? 12288) || (c =? 65279).

Fixpoint trimStart (s : jsstring) : jsstring :=
  match s with
  | c :: s' => if isSpace c then trimStart s' else s
  | [] => []
  end.

Definition trimEnd (s : jsstring) : jsstring := reverse (trimStart (reverse s)).
Definition trim (s : jsstring) : jsstring := trimEnd (trimStart s).

Definition isUpper (c : N) : bool := (65 <=? c) && (c <=? 90).
Definition isLower (c : N) : bool := (97 <=? c) && (c <=? 122).
Definition isDigit (c : N) : bool := (48 <=? c) && (c <=? 57).
Definition isAlnum (c : N) : bool := isUpper c || isLower c || isDigit c.

(** [re.test(s)] for a regular expression that is one character class:
    some code unit of [s] is in the class. *)
Definition testClass (p : N -> bool) (s : jsstring) : bool := existsb p s.

(** [s.replace(/[^...]/g, '')] for a negated class: keep the units in [p]. *)
Definition keepClass (p : N -> bool) (s : jsstring) : jsstring := filter (fun c => p c = true) s.

(** [s.replace(/\n/g, r)] *)
Definition replaceNewlines (s r : jsstring) : jsstring :=
  s ≫= (fun c => if c =? 10 then r else [c]).

(** Decimal rendering of an array index, for property keys. *)
Definition digit (n : nat) : N := 48 + N.of_nat n.

Fixpoint decimalAux (fuel n : nat) (acc : jsstring) : jsstring :=
  match fuel with
  | O => acc
  | S fuel' =>
      let acc' := digit (n mod 10) :: acc in
      if (n / 10 =? 0)%nat then acc' else decimalAux fuel' (n / 10) acc'
  end.

Definition decimal (n : nat) : jsstring := decimalAux (S n) n [].

End JS.
Export JS.


(** ** Data model *)

(** An [Error] object: [name] and [message]. *)
Record Error := { err_name : jsstring; err_message : jsstring }.

(** [new Chat.ErrorMessage(message)] *)
Definition ErrorMessage (message : jsstring) : Error :=
  {| err_name := js "ErrorMessage"; err_message := message |}.

(** [new Error(message)] *)
Definition PlainError (message : jsstring) : Error :=
  {| err_name := js "Error"; err_message := message |}.

(** A [TypeError] raised by the runtime (reading a property of
    [undefined], calling what is not a function). *)
Definition TypeError (message : jsstring) : Error :=
  {| err_name := js "TypeError"; err_message := message |}.

(** The values that a handler returns and that [parse] and [canTalk]
    pass on: nothing, [null], a boolean, a string, or a deferred value. *)
Inductive jsval : Type :=
| JUndefined
| JNull
| JBool (b : bool)
| JString (s : jsstring)
| JPromise (p : nat).

Definition truthy (v : jsval) : bool :=
  match v with
  | JUndefined | JNull => false
  | JBool b => b
  | JString s => negb (jseq s [])
  | JPromise _ => true
  end.

(** What a command handler does with its context, as far as the chat core
    is concerned: it returns, throws, spawns a sub-invocation with
    [this.parse(msg)], asks to broadcast, or replies. The continuation
    receives the result of the call. *)
Inductive Prog : Type :=
| Ret (v : jsval)
| Throw (e : Error)
| Parse (msg : jsstring) (quiet : bool) (k : jsval -> Prog)
| CanBroadcast (ignoreCooldown : bool) (suppressMessage : option jsstring) (k : bool -> Prog)
| RunBroadcast (ignoreCooldown : bool) (suppressMessage : option jsstring) (k : bool -> Prog)
| SendReply (data : jsstring) (k : Prog)
| ErrorReply (message : jsstring) (k : Prog).

(** The arguments of a [ChatHandler] call:
    [handler.call(this, target, room, user, connection, cmd, message)]. *)
Record HandlerArgs := {
  a_target : jsstring;
  a_room : option jsstring;
  a_user : jsstring;
  a_cmd : jsstring;
  a_message : jsstring
}.

(** [AnnotatedChatHandler]: the function and the flags that
    [annotateCommands] attached to it at load time. *)
Record AnnotatedChatHandler := {
  requiresRoom : bool;
  hasRoomPermissions : bool;
  broadcastable : bool;
  isPrivate : bool;
  h_cmd : jsstring;
  h_fullCmd : jsstring;
  h_body : HandlerArgs -> Prog
}.

(** An entry of [AnnotatedChatCommands], and more generally what
    [parseCommand] can find while it walks the tables: a handler, an alias
    string, an array of help strings, a nested table, a number (the
    [length] of an array), or nothing. *)
Inductive value : Type :=
| VUndefined
| VHandler (h : AnnotatedChatHandler)
| VString (s : jsstring)
| VNumber (n : N)
| VArray (lines : list jsstring)
| VTable (t : gmap jsstring value).

(** JavaScript truthiness of an entry. *)
Definition isTruthy (v : value) : bool :=
  match v with
  | VUndefined => false
  | VString s => negb (jseq s [])
  | VNumber n => negb (n =? 0)
  | VHandler _ | VArray _ | VTable _ => true
  end.

(** [typeof v === 'object'] for a truthy [v]: tables and arrays. *)
Definition isObject (v : value) : bool :=
  match v with
  | VArray _ | VTable _ => true
  | _ => false
  end.

(** The index [i < n] whose decimal rendering is [key]. *)
Fixpoint arrayIndex (key : jsstring) (n : nat) : option nat :=
  match n with
  | O => None
  | S i =>
      match arrayIndex key i with
      | Some j => Some j
      | None => if jseq (decimal i) key then Some i else None
      end
  end.

(** [key in obj] and [obj[key]]; [VUndefined] for a key that is not
    found. A table is given by what lookup finds in it: its [gmap] has an
    entry for each key that [key in obj] holds for, whether the property
    is the object's own or inherited. [Chat.commands] itself is made with
    [Object.create(null)] and inherits nothing; a nested table that is an
    object literal also has the entries that it inherits from
    [Object.prototype]. An array is given by its lines: the lookup finds
    its indices and its [length], and not the methods that an array
    inherits, so that for an array it is the lookup of the code for every
    key that is not the name of such a method (as the empty key and
    [default]). *)
Definition getProp (obj : value) (key : jsstring) : value :=
  match obj with
  | VTable t => default VUndefined (t !! key)
  | VArray lines =>
      match arrayIndex key (length lines) with
      | Some i => default VUndefined (VString <$> lines !! i)
      | None => if jseq key (js "length") then VNumber (N.of_nat (length lines)) else VUndefined
      end
  | _ => VUndefined
  end.


(** How deep tables nest below an entry. *)
Fixpoint depth (v : value) : nat :=
  match v with
  | VTable t => S (map_fold (fun _ v' acc => Nat.max (depth v') acc) O t)
  | _ => O
  end.

(** An entry of [Config.groups], stored under the group's symbol. *)
Record Group := { g_id : jsstring; g_name : jsstring }.

(** A verb as plugins register it: not empty, lower-case letters and
    digits. *)
Definition isVerb (v : jsstring) : bool :=
  negb (jseq v []) && forallb (fun ch => isLower ch || isDigit ch) v.

(** What follows the verb in a message, and the target that
    [parseCommand] makes of it: nothing, or a space and the arguments. *)
Inductive Tail : jsstring -> jsstring -> Prop :=
| TailNone : Tail [] []
| TailArgs (x : jsstring) : Tail (32 :: x) (trim x).

(** The result of [parseCommand]. *)
Record Descriptor := {
  d_cmd : jsstring;
  d_cmdToken : jsstring;
  d_target : jsstring;
  d_fullCmd : jsstring;
  d_handler : value
}.


(** ** The command resolver: [CommandContext.parseCommand] *)

Definition VALID_COMMAND_TOKENS : jsstring := js "/!".
Definition BROADCAST_TOKEN : jsstring := js "!".
Definition SPACE : N := 32.
Definition COMMA : N := 44.

(** What one run of the [do ... while] loop of [parseCommand] ends in. *)
Inductive Walk : Type :=
| WalkHelp (fullCmd : jsstring)
| WalkDone (commandHandler curCommands : value) (cmd target fullCmd : jsstring)
| WalkFuel.

(** What [parseCommand] returns: [null], a descriptor, or no answer for
    want of fuel. *)
Inductive Resolution : Type :=
| ResNull
| ResDescriptor (d : Descriptor)
| ResFuel.

Section Resolver.

(** [String.prototype.toLowerCase] of the runtime. *)
Variable toLowerCase : jsstring -> jsstring.
(** [Chat.commands] *)
Variable commands : gmap jsstring value.
(** [Config.groups], in enumeration order. *)
Variable groups : list (jsstring * Group).

(** The hardcoded commands at the head of [parseCommand]. *)
Definition hardcoded (message : jsstring) : jsstring :=
  let notAlnumSpace c := negb (isAlnum c || (c =? SPACE)) in
  if startsWith message (js ">> ") then js "/eval " ++ sliceFrom message 3
  else if startsWith message (js ">>> ") then js "/evalbattle " ++ sliceFrom message 4
  else if startsWith message (js "/me") && testClass notAlnumSpace (charAt message 3)
  then js "/mee " ++ sliceFrom message 3
  else if startsWith message (js "/ME") && testClass notAlnumSpace (charAt message 3)
  then js "/MEE " ++ sliceFrom message 3
  else message.

(** The next verb of [target] inside the loop: [substr] around the first
    space. *)
Definition nextVerb (target : jsstring) : jsstring * jsstring :=
  let spaceIndex := indexOf target SPACE in
  if (0 <? spaceIndex)%Z
  then (toLowerCase (take (Z.to_nat spaceIndex) target), drop (Z.to_nat spaceIndex + 1) target)
  else (toLowerCase target, []).

(** The [do ... while] loop. [fuel] bounds the number of iterations. *)
Fixpoint walk (fuel : nat) (recursing : bool) (curCommands : value)
    (cmd target fullCmd : jsstring) : Walk :=
  match fuel with
  | O => WalkFuel
  | S fuel' =>
      let found := getProp curCommands cmd in
      let helpEntry := match found with VArray _ => negb recursing | _ => false end in
      if helpEntry then WalkHelp fullCmd
      else
        let commandHandler :=
          match found with
          | VString s => getProp curCommands s
          | _ => found
          end in
        if isTruthy commandHandler && isObject commandHandler
        then
          let '(cmd', target') := nextVerb target in
          walk fuel' recursing commandHandler cmd' target' (fullCmd ++ js " " ++ cmd')
        else WalkDone commandHandler curCommands cmd target fullCmd
  end.

(** [curCommands.default], used when nothing resolved. *)
Definition withDefault (commandHandler curCommands : value) : value :=
  let dflt := getProp curCommands (js "default") in
  if negb (isTruthy commandHandler) && isTruthy dflt
  then match dflt with
       | VString s => getProp curCommands s
       | _ => dflt
       end
  else commandHandler.

(** The body of the loop over [Config.groups] for one group: the message
    to resolve instead, if [fullCmd] is a shorthand of this group. *)
Definition groupShorthand (g groupid fullCmd target : jsstring) : option jsstring :=
  if jseq fullCmd groupid
  then Some (js "/promote " ++ target ++ js ", " ++ g)
  else if jseq fullCmd (js "global" ++ groupid)
  then Some (js "/globalpromote " ++ target ++ js ", " ++ g)
  else if jseq fullCmd (js "de" ++ groupid) || jseq fullCmd (js "un" ++ groupid) ||
          jseq fullCmd (js "globalde" ++ groupid) || jseq fullCmd (js "deglobal" ++ groupid)
  then Some (js "/demote " ++ target)
  else if jseq fullCmd (js "room" ++ groupid)
  then Some (js "/roompromote " ++ target ++ js ", " ++ g)
  else if jseq fullCmd (js "forceroom" ++ groupid)
  then Some (js "/forceroompromote " ++ target ++ js ", " ++ g)
  else if jseq fullCmd (js "roomde" ++ groupid) || jseq fullCmd (js "deroom" ++ groupid) ||
          jseq fullCmd (js "roomun" ++ groupid)
  then Some (js "/roomdemote " ++ target)
  else None.

Fixpoint shorthand (gs : list (jsstring * Group)) (fullCmd target : jsstring) : option jsstring :=
  match gs with
  | [] => None
  | (g, group) :: gs' =>
      match groupShorthand g (g_id group) fullCmd target with
      | Some message => Some message
      | None => shorthand gs' fullCmd target
      end
  end.

(** The head of [parseCommand], up to the loop: [null] (here [None]), or
    the command token, the verb and the target. *)
Definition tokenize (message : jsstring) : option (jsstring * jsstring * jsstring) :=
  if jseq (trim message) [] then None
  else
    let message := hardcoded message in
    let cmdToken := charAt message 0 in
    if negb (includes VALID_COMMAND_TOKENS cmdToken) then None
    else if jseq cmdToken (charAt message 1) then None
    else if jseq cmdToken BROADCAST_TOKEN &&
            testClass (fun c => negb (isAlnum c)) (charAt message 1) then None
    else
      let messageSpaceIndex := indexOf message SPACE in
      let '(cmd, target) :=
        if (0 <? messageSpaceIndex)%Z
        then (toLowerCase (slice message 1 (Z.to_nat messageSpaceIndex)),
              trim (sliceFrom message (Z.to_nat messageSpaceIndex + 1)))
        else (toLowerCase (sliceFrom message 1), []) in
      let cmd := if endsWith cmd [COMMA] then sliceEnd cmd 1 else cmd in
      Some (cmdToken, cmd, target).

(** The tail of [parseCommand], from the end of the loop: the redirect
    to [help], the [default] entry, the group shorthands, the descriptor.
    [again message] is [this.parseCommand(message, true)]. *)
Definition resolved (again : jsstring -> Resolution) (cmdToken : jsstring) (recursing : bool)
    (outcome : Walk) : Resolution :=
  match outcome with
  | WalkFuel => ResFuel
  | WalkHelp fullCmd => again (cmdToken ++ js "help " ++ sliceEnd fullCmd 4)
  | WalkDone commandHandler curCommands cmd target fullCmd =>
      let commandHandler := withDefault commandHandler curCommands in
      let redirect :=
        if negb (isTruthy commandHandler) && negb recursing
        then shorthand groups fullCmd target
        else None in
      match redirect with
      | Some message => again message
      | None =>
          ResDescriptor {| d_cmd := cmd; d_cmdToken := cmdToken; d_target := target;
                           d_fullCmd := fullCmd; d_handler := commandHandler |}
      end
  end.

(** [parseCommand(message, recursing)]. [calls] bounds the nesting of
    [parseCommand] inside itself; the loop runs on fuel enough for the
    depth of [Chat.commands]. *)
Fixpoint parseCommandN (calls : nat) (message : jsstring) (recursing : bool) : Resolution :=
  match calls with
  | O => ResFuel
  | S calls' =>
      match tokenize message with
      | None => ResNull
      | Some (cmdToken, cmd, target) =>
          resolved (fun message' => parseCommandN calls' message' true) cmdToken recursing
            (walk (S (depth (VTable commands))) recursing (VTable commands) cmd target cmd)
      end
  end.

(** [parseCommand] calls itself only when [recursing] is false, and then
    with [recursing] true: two levels. *)
Definition parseCommand (message : jsstring) (recursing : bool) : option Descriptor :=
  match parseCommandN 2 message recursing with
  | ResDescriptor d => Some d
  | ResNull | ResFuel => None
  end.

End Resolver.


(** ** Users, rooms and the world the chat core acts on *)

(** [user.settings.blockPMs]: off, [true], or a rank. *)
Inductive BlockPMs : Type :=
| BlockOff
| BlockAll
| BlockBelow (rank : jsstring).

(** The part of a [User] that the chat core reads or writes. [u_can perm
    room] is [user.can(perm, null, room)]. *)
Record User := {
  u_name : jsstring;
  u_named : bool;
  u_locked : bool;
  u_namelocked : bool;
  u_autoconfirmed : bool;
  u_language : option jsstring;
  u_idle : bool;
  u_userMessage : jsstring;
  u_blockPMs : BlockPMs;
  u_tempGroupName : jsstring;
  u_can : jsstring -> option jsstring -> bool;
  u_globalAtLeast : jsstring -> bool;
  u_canPromote : jsstring -> bool;
  u_lockExpiration : jsstring;
  u_getIdentity : option jsstring -> jsstring;
  u_lastMessage : jsstring;
  u_lastMessageTime : Z
}.

(** The part of a [Room] that the chat core reads or writes. The room's
    id is the key it is stored under. [r_banwords] lists
    [settings.banwords] of the room, of its parent, and so on up. *)
Record Room := {
  r_users : gset jsstring;
  r_isMuted : jsstring -> bool;
  r_authAtLeast : jsstring -> jsstring -> bool;
  r_isHelp : bool;
  r_modchat : option jsstring;
  r_language : option jsstring;
  r_filterStretching : bool;
  r_filterCaps : bool;
  r_filterEmojis : bool;
  r_slowchat : option nat;
  r_highTraffic : bool;
  r_banwords : list (list jsstring);
  r_onChatMessage : option (jsstring -> jsstring -> option jsstring);
  r_onLogMessage : bool;
  r_lastBroadcast : jsstring;
  r_lastBroadcastTime : Z
}.

(** The context handed to [Monitor.crashlog] by [parse]. *)
Record CrashDetails := {
  cd_user : jsstring;
  cd_room : option jsstring;
  cd_pmTarget : option jsstring;
  cd_message : jsstring
}.

(** Calls that leave the chat core, in the order they are made. *)
Inductive Event : Type :=
| ConnSendTo (roomid data : jsstring)
| ConnSend (data : jsstring)
| ConnPopup (text : jsstring)
| RoomAdd (roomid data : jsstring)
| RoomSend (roomid data : jsstring)
| RoomUpdate (roomid : jsstring)
| UserSend (userid data : jsstring)
| GameLogMessage (roomid text userid : jsstring)
| SetStatusType (userid status : jsstring)
| NotifyBlocked (targetid userid : jsstring)
| Crashlog (err : Error) (source : jsstring) (details : CrashDetails)
| CallFilter (index : nat) (text originalMessage : jsstring)
| Await (p : nat).

(** Users and rooms are shared objects: contexts refer to them by id and
    every context sees the writes of the others. *)
Record World := {
  users : jsstring -> User;
  rooms : jsstring -> Room;
  log : list Event
}.

(** A call of [Monitor.crashlog]. *)
Definition isCrashlog (e : Event) : bool :=
  match e with
  | Crashlog _ _ _ => true
  | _ => false
  end.

Definition emit (e : Event) (w : World) : World :=
  {| users := users w; rooms := rooms w; log := log w ++ [e] |}.

Definition setUser (id : jsstring) (u : User) (w : World) : World :=
  {| users := fun i => if jseq i id then u else users w i; rooms := rooms w; log := log w |}.

Definition setRoom (id : jsstring) (r : Room) (w : World) : World :=
  {| users := users w; rooms := fun i => if jseq i id then r else rooms w i; log := log w |}.

(** [user.lastMessage = message; user.lastMessageTime = now] *)
Definition touchUser (u : User) (text : jsstring) (now : Z) : User :=
  {| u_name := u_name u; u_named := u_named u; u_locked := u_locked u;
     u_namelocked := u_namelocked u; u_autoconfirmed := u_autoconfirmed u;
     u_language := u_language u; u_idle := u_idle u; u_userMessage := u_userMessage u;
     u_blockPMs := u_blockPMs u; u_tempGroupName := u_tempGroupName u; u_can := u_can u;
     u_globalAtLeast := u_globalAtLeast u; u_canPromote := u_canPromote u;
     u_lockExpiration := u_lockExpiration u; u_getIdentity := u_getIdentity u;
     u_lastMessage := text; u_lastMessageTime := now |}.

(** [user.setStatusType('online')] *)
Definition wakeUser (u : User) : User :=
  {| u_name := u_name u; u_named := u_named u; u_locked := u_locked u;
     u_namelocked := u_namelocked u; u_autoconfirmed := u_autoconfirmed u;
     u_language := u_language u; u_idle := false; u_userMessage := u_userMessage u;
     u_blockPMs := u_blockPMs u; u_tempGroupName := u_tempGroupName u; u_can := u_can u;
     u_globalAtLeast := u_globalAtLeast u; u_canPromote := u_canPromote u;
     u_lockExpiration := u_lockExpiration u; u_getIdentity := u_getIdentity u;
     u_lastMessage := u_lastMessage u; u_lastMessageTime := u_lastMessageTime u |}.

(** [room.lastBroadcast = text; room.lastBroadcastTime = now] *)
Definition stampRoom (r : Room) (text : jsstring) (now : Z) : Room :=
  {| r_users := r_users r; r_isMuted := r_isMuted r; r_authAtLeast := r_authAtLeast r;
     r_isHelp := r_isHelp r; r_modchat := r_modchat r; r_language := r_language r;
     r_filterStretching := r_filterStretching r; r_filterCaps := r_filterCaps r;
     r_filterEmojis := r_filterEmojis r; r_slowchat := r_slowchat r;
     r_highTraffic := r_highTraffic r; r_banwords := r_banwords r;
     r_onChatMessage := r_onChatMessage r; r_onLogMessage := r_onLogMessage r;
     r_lastBroadcast := text; r_lastBroadcastTime := now |}.

(** ** The execution context: [MessageContext] and [CommandContext] *)

Record CommandContext := {
  c_user : jsstring;
  c_language : option jsstring;
  recursionDepth : nat;
  c_message : jsstring;
  pmTarget : option jsstring;
  c_room : option jsstring;
  c_cmd : jsstring;
  cmdToken : jsstring;
  c_target : jsstring;
  fullCmd : jsstring;
  c_handler : value;
  isQuiet : bool;
  broadcasting : bool;
  broadcastToRoom : bool;
  broadcastMessage : jsstring
}.

(** The [options] argument of the constructor of [CommandContext]: the
    fields that the constructor reads. A missing string field reads as
    the empty string, which [options.cmd || ''] also yields. *)
Record Options := {
  o_message : jsstring;
  o_user : jsstring;
  o_room : option jsstring;
  o_pmTarget : option jsstring;
  o_cmd : jsstring;
  o_cmdToken : jsstring;
  o_target : jsstring;
  o_fullCmd : jsstring
}.

(** A context passed where options are expected, as in
    [new CommandContext(this)]. *)
Definition asOptions (c : CommandContext) : Options :=
  {| o_message := c_message c; o_user := c_user c; o_room := c_room c;
     o_pmTarget := pmTarget c; o_cmd := c_cmd c; o_cmdToken := cmdToken c;
     o_target := c_target c; o_fullCmd := fullCmd c |}.

(** The constructor of [MessageContext]: [user], [language], and
    [this.recursionDepth = 0]. *)
Definition MessageContext_new (user : jsstring) (language : option jsstring)
  : jsstring * option jsstring * nat :=
  (user, language, O).

(** [new CommandContext(options)] *)
Definition CommandContext_new (options : Options) (w : World) : CommandContext :=
  let roomLanguage :=
    match o_room options with
    | Some rid => r_language (rooms w rid)
    | None => None
    end in
  let language :=
    match roomLanguage with
    | Some l => if jseq l [] then u_language (users w (o_user options)) else Some l
    | None => u_language (users w (o_user options))
    end in
  let '(user, language, depth0) := MessageContext_new (o_user options) language in
  {| c_user := user; c_language := language; recursionDepth := depth0;
     c_message := o_message options;
     pmTarget := o_pmTarget options; c_room := o_room options;
     c_cmd := o_cmd options; cmdToken := o_cmdToken options;
     c_target := o_target options; fullCmd := o_fullCmd options;
     c_handler := VUndefined; isQuiet := false;
     broadcasting := false; broadcastToRoom := true; broadcastMessage := [] |}.

Definition withMessage (c : CommandContext) (text broadcastText : jsstring) : CommandContext :=
  {| c_user := c_user c; c_language := c_language c; recursionDepth := recursionDepth c;
     c_message := text; pmTarget := pmTarget c; c_room := c_room c; c_cmd := c_cmd c;
     cmdToken := cmdToken c; c_target := c_target c; fullCmd := fullCmd c;
     c_handler := c_handler c; isQuiet := isQuiet c; broadcasting := broadcasting c;
     broadcastToRoom := broadcastToRoom c; broadcastMessage := broadcastText |}.

Definition withBroadcasting (c : CommandContext) (language : option jsstring) : CommandContext :=
  {| c_user := c_user c; c_language := language; recursionDepth := recursionDepth c;
     c_message := c_message c; pmTarget := pmTarget c; c_room := c_room c; c_cmd := c_cmd c;
     cmdToken := cmdToken c; c_target := c_target c; fullCmd := fullCmd c;
     c_handler := c_handler c; isQuiet := isQuiet c; broadcasting := true;
     broadcastToRoom := broadcastToRoom c; broadcastMessage := broadcastMessage c |}.

Definition withRoom (c : CommandContext) (room : option jsstring) : CommandContext :=
  {| c_user := c_user c; c_language := c_language c; recursionDepth := recursionDepth c;
     c_message := c_message c; pmTarget := pmTarget c; c_room := room; c_cmd := c_cmd c;
     cmdToken := cmdToken c; c_target := c_target c; fullCmd := fullCmd c;
     c_handler := c_handler c; isQuiet := isQuiet c; broadcasting := broadcasting c;
     broadcastToRoom := broadcastToRoom c; broadcastMessage := broadcastMessage c |}.

(** The assignments of [parse] from a parsed command. *)
Definition withCommand (c : CommandContext) (d : Descriptor) : CommandContext :=
  {| c_user := c_user c; c_language := c_language c; recursionDepth := recursionDepth c;
     c_message := c_message c; pmTarget := pmTarget c; c_room := c_room c; c_cmd := d_cmd d;
     cmdToken := d_cmdToken d; c_target := d_target d; fullCmd := d_fullCmd d;
     c_handler := d_handler d; isQuiet := isQuiet c; broadcasting := broadcasting c;
     broadcastToRoom := broadcastToRoom c; broadcastMessage := broadcastMessage c |}.

(** The assignments of [parse(msg, quiet)] to a subcontext it has built:
    [isQuiet], [recursionDepth++], [message], and the command state
    cleared. *)
Definition asSubcontext (c : CommandContext) (quiet : bool) (msg : jsstring)
    (newDepth : nat) : CommandContext :=
  {| c_user := c_user c; c_language := c_language c; recursionDepth := newDepth;
     c_message := msg; pmTarget := pmTarget c; c_room := c_room c; c_cmd := [];
     cmdToken := []; c_target := []; fullCmd := [];
     c_handler := c_handler c; isQuiet := if quiet then true else isQuiet c;
     broadcasting := broadcasting c; broadcastToRoom := broadcastToRoom c;
     broadcastMessage := broadcastMessage c |}.

(** ** Replies *)

Definition NL : jsstring := [10].
Definition DQ : jsstring := [34].

(** [s.split('\n')] *)
Fixpoint splitLines (s : jsstring) : list jsstring :=
  match s with
  | [] => [[]]
  | c :: s' =>
      if c =? 10 then [] :: splitLines s'
      else match splitLines s' with
           | line :: ls => (c :: line) :: ls
           | [] => [[c]]
           end
  end.

(** [lines.join(sep)] *)
Fixpoint join (sep : jsstring) (ls : list jsstring) : jsstring :=
  match ls with
  | [] => []
  | [l] => l
  | l :: ls' => l ++ sep ++ join sep ls'
  end.

(** [pmTransform], for a context without a room (with a room it throws;
    [sendReply] and [send] call it only without one). *)
Definition pmTransform (c : CommandContext) (w : World) (originalMessage : jsstring) : jsstring :=
  let targetIdentity :=
    match pmTarget c with
    | Some t => u_getIdentity (users w t) None
    | None => js "~"
    end in
  let prefix := js "|pm|" ++ u_getIdentity (users w (c_user c)) None ++ js "|" ++ targetIdentity ++ js "|" in
  let line (m : jsstring) : jsstring :=
    if startsWith m (js "||") then prefix ++ js "/text " ++ sliceFrom m 2
    else if startsWith m (js "|html|") then prefix ++ js "/raw " ++ sliceFrom m 6
    else if startsWith m (js "|modaction|") then prefix ++ js "/log " ++ sliceFrom m 11
    else if startsWith m (js "|raw|") then prefix ++ js "/raw " ++ sliceFrom m 5
    else if startsWith m (js "|error|") then prefix ++ js "/error " ++ sliceFrom m 7
    else if startsWith m (js "|c~|") then prefix ++ sliceFrom m 4
    else if startsWith m (js "|c|~|/") then prefix ++ sliceFrom m 5
    else prefix ++ js "/text " ++ m in
  join NL (line <$> splitLines originalMessage).

(** [send(data)] *)
Definition send (c : CommandContext) (data : jsstring) (w : World) : World :=
  match c_room c with
  | Some rid => emit (RoomSend rid data) w
  | None =>
      let data := pmTransform c w data in
      let w := emit (UserSend (c_user c) data) w in
      match pmTarget c with
      | Some t => if jseq t (c_user c) then w else emit (UserSend t data) w
      | None => w
      end
  end.

(** [add(data)] *)
Definition add (c : CommandContext) (data : jsstring) (w : World) : World :=
  match c_room c with
  | Some rid => emit (RoomAdd rid data) w
  | None => send c data w
  end.

(** [sendReply(data)] *)
Definition sendReply (c : CommandContext) (data : jsstring) (w : World) : World :=
  if isQuiet c then w
  else if broadcasting c && broadcastToRoom c then add c data w
  else match c_room c with
       | None => emit (ConnSend (pmTransform c w data)) w
       | Some rid => emit (ConnSendTo rid data) w
       end.

(** [errorReply(message)] *)
Definition errorReply (c : CommandContext) (text : jsstring) (w : World) : World :=
  sendReply c (js "|error|" ++ replaceNewlines text (NL ++ js "|error|")) w.

(** [popupReply(message)] *)
Definition popupReply (text : jsstring) (w : World) : World := emit (ConnPopup text) w.

(** [update()] *)
Definition update (c : CommandContext) (w : World) : World :=
  match c_room c with
  | Some rid => emit (RoomUpdate rid) w
  | None => w
  end.

(** [Chat.sendPM(message, user, pmTarget)], as far as what is sent goes;
    the [lastPM] fields it also sets are not read by the chat core. *)
Definition sendPM (text user target : jsstring) (w : World) : World :=
  let buf := js "|pm|" ++ u_getIdentity (users w user) None ++ js "|" ++
             u_getIdentity (users w target) None ++ js "|" ++ text in
  let w := emit (UserSend user buf) w in
  if jseq target user then w else emit (UserSend target buf) w.

(** [sendChatMessage(message)] *)
Definition sendChatMessage (c : CommandContext) (text : jsstring) (w : World) : World :=
  match pmTarget c, c_room c with
  | Some t, _ => sendPM text (c_user c) t w
  | None, Some rid =>
      let w := emit (RoomAdd rid (js "|c|" ++ u_getIdentity (users w (c_user c)) (Some rid) ++
                                   js "|" ++ text)) w in
      if r_onLogMessage (rooms w rid) then emit (GameLogMessage rid text (c_user c)) w else w
  | None, None =>
      emit (ConnPopup (js "Your message could not be sent:" ++ NL ++ NL ++ text ++ NL ++ NL ++
                       js "It needs to be sent to a user or room.")) w
  end.


(** ** The server: globals and collaborators of the chat core *)

(** What a chat filter returns: [false], [null], [undefined] or a string. *)
Inductive FilterOutput : Type :=
| OutFalse
| OutNull
| OutUndefined
| OutString (s : jsstring).

(** [ChatFilter], called as
    [curFilter.call(context, message, user, room, connection, targetUser, originalMessage)];
    the user and the connection are those of the context. *)
Definition ChatFilter : Type :=
  CommandContext -> World -> jsstring -> option jsstring -> option jsstring -> jsstring -> FilterOutput.

(** Globals of the server and parts of the runtime that the chat core
    calls but does not define: [toLowerCase]; the global [toID]; [Chat.tr]
    with the translations it has loaded, as [tr language strings keys];
    [Config]; [Chat.commands] and [Chat.filters]; and the regular
    expressions that need a full engine: [Chat.linkRegex] ([linkMatches]),
    the domain and host patterns of [canTalk] (their first group), the
    stretching patterns [/(.+?)\1{n,}/i] of [checkFormat], [EMOJI_REGEX],
    and the pattern [checkBanwords] compiles from a word list. *)
Record Server := {
  toLowerCase : jsstring -> jsstring;
  toID : jsstring -> jsstring;
  tr : option jsstring -> list jsstring -> list jsstring -> jsstring;
  groups : list (jsstring * Group);
  restrictLinks : bool;
  pmmodchat : option jsstring;
  commands : gmap jsstring value;
  filters : list ChatFilter;
  linkMatches : jsstring -> list jsstring;
  linkDomain : jsstring -> option jsstring;
  linkHost : jsstring -> option jsstring;
  stretched : nat -> jsstring -> bool;
  hasEmoji : jsstring -> bool;
  banwordTest : list jsstring -> jsstring -> bool
}.

Definition MAX_MESSAGE_LENGTH : nat := 300.
Definition BROADCAST_COOLDOWN : Z := 20 * 1000.
Definition MESSAGE_COOLDOWN : Z := 5 * 60 * 1000.
Definition MAX_PARSE_RECURSION : nat := 10.

Definition LINK_WHITELIST : list jsstring :=
  [js "*.pokemonshowdown.com"; js "psim.us"; js "smogtours.psim.us";
   js "*.smogon.com"; js "*.pastebin.com"; js "*.hastebin.com"].

(** ** Character-class helpers of [canTalk] *)

(** The format-control character that the length check weighs. *)
Definition FDFD : N := 0xfdfd.

(** The combining marks of the zalgo pattern of [canTalk]: U+0300-036F,
    U+0483-0489, U+0610-0615, U+064B-065F, U+0670, U+06D6-06DC,
    U+06DF-06ED, U+0E31, U+0E34-0E3A, U+0E47-0E4E. *)
Definition isZalgo (c : N) : bool :=
  ((0x0300 <=? c) && (c <=? 0x036f)) || ((0x0483 <=? c) && (c <=? 0x0489)) ||
  ((0x0610 <=? c) && (c <=? 0x0615)) || ((0x064B <=? c) && (c <=? 0x065F)) ||
  (c =? 0x0670) || ((0x06D6 <=? c) && (c <=? 0x06DC)) ||
  ((0x06DF <=? c) && (c <=? 0x06ED)) || (c =? 0x0E31) ||
  ((0x0E34 <=? c) && (c <=? 0x0E3A)) || ((0x0E47 <=? c) && (c <=? 0x0E4E)).

(** The banned characters of [canTalk]: U+115F, U+1160, U+239B-23B9. *)
Definition isBannedChar (c : N) : bool :=
  (c =? 0x115f) || (c =? 0x1160) || ((0x239b <=? c) && (c <=? 0x23b9)).

(** The run collected so far, put back unless it is long enough to go. *)
Definition flushRun (n : nat) (run : jsstring) : jsstring :=
  if (n <=? length run)%nat then [] else reverse run.

(** [s.replace(/[class]{n,}/g, '')]: every maximal run of at least [n]
    units of the class is removed. [run] holds the current run, reversed. *)
Fixpoint stripRunsFrom (p : N -> bool) (n : nat) (run s : jsstring) : jsstring :=
  match s with
  | [] => flushRun n run
  | c :: s' =>
      if p c then stripRunsFrom p n (c :: run) s'
      else flushRun n run ++ c :: stripRunsFrom p n [] s'
  end.

Definition stripRuns (p : N -> bool) (n : nat) (s : jsstring) : jsstring :=
  stripRunsFrom p n [] s.

(** [/[class]{n,}/.test(s)]: some run of [n] units of the class. [k]
    counts the current run. *)
Fixpoint hasRunFrom (p : N -> bool) (n k : nat) (s : jsstring) : bool :=
  (n <=? k)%nat ||
  match s with
  | [] => false
  | c :: s' => if p c then hasRunFrom p n (S k) s' else hasRunFrom p n O s'
  end.

Definition hasRun (p : N -> bool) (n : nat) (s : jsstring) : bool := hasRunFrom p n O s.

(** [s.replace(/[class]+/g, r)]: every maximal run becomes one [r]. *)
Fixpoint collapseRuns (p : N -> bool) (r : jsstring) (inRun : bool) (s : jsstring) : jsstring :=
  match s with
  | [] => []
  | c :: s' =>
      if p c then (if inRun then [] else r) ++ collapseRuns p r true s'
      else c :: collapseRuns p r false s'
  end.

(** What is left of [s] after its leading run of units of the class. *)
Fixpoint trimStartBy (p : N -> bool) (s : jsstring) : jsstring :=
  match s with
  | [] => []
  | c :: s' => if p c then trimStartBy p s' else s
  end.

(** [s.replace(/[class]+/, '')], without the [g] flag: only the first
    maximal run goes. *)
Fixpoint dropFirstRun (p : N -> bool) (s : jsstring) : jsstring :=
  match s with
  | [] => []
  | c :: s' => if p c then trimStartBy p s' else c :: dropFirstRun p s'
  end.


(** ** Checks that end in [return null]

    A check of the validation pipeline either lets the caller go on, or
    replies to the user and makes [canTalk] return [null]. *)

Definition Gate (A : Type) : Type := World -> option A * World.

Definition pass {A : Type} (a : A) : Gate A := fun w => (Some a, w).

Definition andThen {A B : Type} (m : Gate A) (k : A -> Gate B) : Gate B :=
  fun w =>
    match m w with
    | (Some a, w') => k a w'
    | (None, w') => (None, w')
    end.

(** [say; return null] *)
Definition refuse {A : Type} (say : World -> World) : Gate A := fun w => (None, say w).

(** [if (cond) { say; return null; }] *)
Definition refuseIf (cond : bool) (say : World -> World) : Gate unit :=
  if cond then refuse say else pass tt.

Definition effect (f : World -> World) : Gate unit := fun w => (Some tt, f w).

(** A gate that says nothing when it lets the caller go on. *)
Definition silent {A : Type} (g : Gate A) : Prop :=
  forall w a w', g w = (Some a, w') -> w' = w.

Declare Scope gate_scope.
Delimit Scope gate_scope with gate.
Notation "x <- m ;; k" := (andThen m (fun x => k))
  (at level 100, m at next level, k at level 200, right associativity) : gate_scope.
Notation "m ;; k" := (andThen m (fun _ => k))
  (at level 100, k at level 200, right associativity) : gate_scope.

Section Pipeline.

Variable srv : Server.

(** [this.tr(text)] and [this.tr`...`] *)
Definition trText (c : CommandContext) (text : jsstring) : jsstring := tr srv (c_language c) [text] [].
Definition trKeys (c : CommandContext) (strings keys : list jsstring) : jsstring :=
  tr srv (c_language c) strings keys.

(** [Config.groups[symbol] && Config.groups[symbol].name || symbol] *)
Fixpoint groupName (gs : list (jsstring * Group)) (symbol : jsstring) : jsstring :=
  match gs with
  | [] => symbol
  | (g, group) :: gs' =>
      if jseq g symbol
      then (if jseq (g_name group) [] then symbol else g_name group)
      else groupName gs' symbol
  end.

(** *** [Chat.filter] *)

(** The loop of [Chat.filter] from the filter of index [index] on. *)
Fixpoint filterFrom (fs : list ChatFilter) (index : nat) (c : CommandContext)
    (text : jsstring) (room targetUser : option jsstring) (originalMessage : jsstring)
    (w : World) : jsval * World :=
  match fs with
  | [] => (JString text, w)
  | curFilter :: fs' =>
      let output := curFilter c w text room targetUser originalMessage in
      let w := emit (CallFilter index text originalMessage) w in
      match output with
      | OutFalse => (JNull, w)
      | OutNull => (JNull, w)
      | OutUndefined => filterFrom fs' (S index) c text room targetUser originalMessage w
      | OutString s =>
          if jseq s [] then (JString [], w)
          else filterFrom fs' (S index) c s room targetUser originalMessage w
      end
  end.

(** The in-flight text and the world once every filter of [fs] has let
    the message go on, as the loop of [Chat.filter] leaves them; [None]
    when one of them ends the loop. *)
Fixpoint passes (fs : list ChatFilter) (index : nat) (c : CommandContext)
    (text : jsstring) (room targetUser : option jsstring) (originalMessage : jsstring)
    (w : World) : option (jsstring * World) :=
  match fs with
  | [] => Some (text, w)
  | curFilter :: fs' =>
      let w' := emit (CallFilter index text originalMessage) w in
      match curFilter c w text room targetUser originalMessage with
      | OutUndefined => passes fs' (S index) c text room targetUser originalMessage w'
      | OutString s =>
          if jseq s [] then None
          else passes fs' (S index) c s room targetUser originalMessage w'
      | OutFalse | OutNull => None
      end
  end.

(** [Chat.filter(context, message, user, room, connection, targetUser)] *)
Definition Chat_filter (c : CommandContext) (text : jsstring)
    (room targetUser : option jsstring) (w : World) : jsval * World :=
  filterFrom (filters srv) O c text room targetUser text w.

(** *** The checks of [canTalk] *)

Definition getHelpButton (c : CommandContext) (label : jsstring) : jsstring :=
  js "|html|<a href=" ++ DQ ++ js "view-help-request--appeal" ++ DQ ++ js " class=" ++ DQ ++
  js "button" ++ DQ ++ js ">" ++ label ++ js "</a>".

(** [lockType] *)
Definition lockType (c : CommandContext) (user : User) : jsstring :=
  if u_namelocked user then trText c (js "namelocked")
  else if u_locked user then trText c (js "locked")
  else [].

(** The checks on the room inside [if (!user.can('bypassall'))]. *)
Definition talkInRoom (c : CommandContext) (user : User) (rid : jsstring) (room : Room) : Gate unit :=
  (refuseIf (negb (jseq (lockType c user) []) && negb (r_isHelp room))
     (fun w =>
        sendReply c (getHelpButton c (trText c (js "Get help with this")))
          (errorReply c (trKeys c [js "You are "; js " and can't talk in chat. "; []]
                                  [lockType c user; u_lockExpiration user]) w)) ;;
   refuseIf (r_isMuted room (c_user c))
     (errorReply c (trText c (js "You are muted and cannot talk in this room."))) ;;
   match r_modchat room with
   | Some modchat =>
       refuseIf (negb (jseq modchat []) && negb (r_authAtLeast room (c_user c) modchat))
         (if jseq modchat (js "autoconfirmed")
          then errorReply c (trText c (js "Because moderated chat is set, your account must be at least one week old and you must have won at least one ladder game to speak in this room."))
          else if jseq modchat (js "trusted")
          then errorReply c (trText c (js "Because moderated chat is set, your account must be staff in a public room or have a global rank to speak in this room."))
          else errorReply c (trKeys c [js "Because moderated chat is set, you must be of rank ";
                                       js " or higher to speak in this room."]
                                      [groupName (groups srv) modchat]))
   | None => pass tt
   end ;;
   refuseIf (negb (bool_decide (c_user c ∈ r_users room)))
     (popupReply (js "You can't send a message to this room without being in it.")))%gate.

(** [settings.blockPMs && (settings.blockPMs === true ||
    !Users.globalAuth.atLeast(sender, settings.blockPMs))] *)
Definition blocks (setting : BlockPMs) (sender : User) : bool :=
  match setting with
  | BlockOff => false
  | BlockAll => true
  | BlockBelow rank => negb (jseq rank []) && negb (u_globalAtLeast sender rank)
  end.

(** The checks on the recipient inside [if (!user.can('bypassall'))]. *)
Definition talkToUser (c : CommandContext) (user : User) (tid : jsstring) (targetUser : User) : Gate unit :=
  (refuseIf (negb (jseq (lockType c user) []) && negb (u_can targetUser (js "lock") None))
     (fun w =>
        sendReply c (getHelpButton c (trKeys c [js "Get help with this"] []))
          (errorReply c (trKeys c [js "You are ";
                                   js " and can only private message members of the global moderation team. ";
                                   []]
                                  [lockType c user; u_lockExpiration user]) w)) ;;
   refuseIf (u_locked targetUser && negb (u_can user (js "lock") None))
     (errorReply c (trKeys c [js "The user " ++ DQ; DQ ++ js " is locked and cannot be PMed."]
                             [u_name targetUser])) ;;
   match pmmodchat srv with
   | Some rank =>
       refuseIf (negb (jseq rank []) && negb (u_globalAtLeast user rank) &&
                 negb (u_canPromote targetUser rank))
         (errorReply c (trKeys c [js "On this server, you must be of rank ";
                                  js " or higher to PM users."]
                                 [groupName (groups srv) rank]))
   | None => pass tt
   end ;;
   (if blocks (u_blockPMs targetUser) user && negb (u_can user (js "lock") None)
    then
      refuse (fun w =>
        let w := emit (NotifyBlocked tid (c_user c)) w in
        if negb (u_can targetUser (js "lock") None)
        then errorReply c (trKeys c [js "This user is blocking private messages right now."] []) w
        else
          sendReply c (js "|html|" ++
                       trKeys c [js "If you need help, try opening a <a href=" ++ DQ ++
                                 js "view-help-request" ++ DQ ++ js " class=" ++ DQ ++ js "button" ++
                                 DQ ++ js ">help ticket</a>"] [])
            (errorReply c (trKeys c [js "This ";
                                     js " is too busy to answer private messages right now. Please contact a different staff member."]
                                    [u_tempGroupName targetUser]) w))
    else pass tt) ;;
   refuseIf (blocks (u_blockPMs user) targetUser && negb (u_can targetUser (js "lock") None))
     (errorReply c (trKeys c [js "You are blocking private messages right now."] [])))%gate.

(** The checks of [canTalk] that do not look at the message: a name, and
    unless the user can [bypassall], the room and the recipient. *)
Definition mayTalk (c : CommandContext) (room targetUser : option jsstring) : Gate unit :=
  fun w =>
    let user := users w (c_user c) in
    (refuseIf (negb (u_named user))
       (popupReply (trText c (js "You must choose a name before you can talk."))) ;;
     if u_can user (js "bypassall") None then pass tt
     else
       (match room with
        | Some rid => talkInRoom c user rid (rooms w rid)
        | None => pass tt
        end ;;
        match targetUser with
        | Some tid => talkToUser c user tid (users w tid)
        | None => pass tt
        end))%gate w.

(** The length that [canTalk] compares with [MAX_MESSAGE_LENGTH]:
    [message.length + 10 * message.replace(/[^\ufdfd]*/g, '').length]. *)
Definition weightedLength (text : jsstring) : nat :=
  length text + 10 * length (keepClass (fun c => c =? FDFD) text).

(** One link of [links.every(...)]. *)
Definition linkWhitelisted (link : jsstring) : bool :=
  let link := toLowerCase srv link in
  match linkDomain srv link, linkHost srv link with
  | Some domain, Some host =>
      let host := if startsWith host (js "www.") then sliceFrom host 4 else host in
      if jseq domain [] || jseq host [] then false
      else existsb (jseq host) LINK_WHITELIST || existsb (jseq (js "*." ++ domain)) LINK_WHITELIST
  | _, _ => false
  end.

(** [checkFormat(room, user, message)]; replying and returning
    [undefined] makes [canTalk] return [null]. *)
Definition checkFormat (c : CommandContext) (room : option Room) (user : User) (text : jsstring)
  : Gate unit :=
  match room with
  | None => pass tt
  | Some room =>
      if negb (r_filterStretching room) && negb (r_filterCaps room) && negb (r_filterEmojis room)
      then pass tt
      else if u_can user (js "bypassall") None then pass tt
      else
        let capsOrSpace ch := isUpper ch || isSpace ch in
        let spaceLike ch := (ch =? SPACE) || (ch =? 0) || ((0x200B <=? ch) && (ch <=? 0x200F)) in
        let text := collapseRuns spaceLike [SPACE] false (trim text) in
        (refuseIf (r_filterStretching room && stretched srv 5 (u_name user))
           (errorReply c (js "Your username contains too much stretching, which this room doesn't allow.")) ;;
         refuseIf (r_filterCaps room && hasRun capsOrSpace 6 (u_name user))
           (errorReply c (js "Your username contains too many capital letters, which this room doesn't allow.")) ;;
         refuseIf (r_filterEmojis room && hasEmoji srv (u_name user))
           (errorReply c (js "Your username contains emojis, which this room doesn't allow.")) ;;
         refuseIf (r_filterStretching room && stretched srv 7 text)
           (errorReply c (js "Your message contains too much stretching, which this room doesn't allow.")) ;;
         refuseIf (r_filterCaps room && hasRun capsOrSpace 18 text)
           (errorReply c (js "Your message contains too many capital letters, which this room doesn't allow.")) ;;
         refuseIf (r_filterEmojis room && hasEmoji srv text)
           (errorReply c (js "Your message contains emojis, which this room doesn't allow.")))%gate
  end.

(** [checkSlowchat(room, user)]; [(now - lastMessageTime) / 1000 < slowchat]
    is compared in milliseconds. *)
Definition checkSlowchat (rid : option jsstring) (room : option Room) (user : User) (now : Z) : bool :=
  match room with
  | None => true
  | Some room =>
      match r_slowchat room with
      | None | Some O => true
      | Some seconds =>
          if u_can user (js "show") rid then true
          else negb (now - u_lastMessageTime user <? 1000 * Z.of_nat seconds)%Z
      end
  end.

(** [checkBanwords(room, message)], up the chain of parent rooms. The
    pattern cached on the room is taken to be the one its word list
    compiles to. *)
Fixpoint checkBanwords (chain : list (list jsstring)) (text : jsstring) : bool :=
  match chain with
  | [] => true
  | banwords :: parents =>
      if jseq text [] then true
      else if negb (bool_decide (banwords = [])) && banwordTest srv banwords text then false
      else checkBanwords parents text
  end.

Definition banwordChain (room : option Room) : list (list jsstring) :=
  match room with
  | Some room => r_banwords room
  | None => []
  end.

(** [checkGameFilter()]: the game of the context's room, asked about the
    context's message; [None] when it answers with no string. *)
Definition checkGameFilter (c : CommandContext) (w : World) : option jsstring :=
  match c_room c with
  | None => None
  | Some rid =>
      match r_onChatMessage (rooms w rid) with
      | None => None
      | Some onChatMessage => onChatMessage (c_message c) (c_user c)
      end
  end.

(** The length check of [canTalk]. *)
Definition checkLength (c : CommandContext) (user : User) (text : jsstring) : Gate unit :=
  refuseIf ((MAX_MESSAGE_LENGTH <? weightedLength text)%nat &&
            negb (u_can user (js "ignorelimits") None))
    (errorReply c (trText c (js "Your message is too long: ") ++ text)).

(** The checks of [canTalk] that follow the length check, down to the
    high-traffic check; the message comes out without its zalgo. *)
Definition afterLength (c : CommandContext) (rid targetUser : option jsstring) (now : Z)
    (user : User) (room : option Room) (text : jsstring) : Gate jsstring :=
  fun w =>
    (let text := stripRuns isZalgo 3 text in
     refuseIf (testClass isBannedChar text)
       (errorReply c (trText c (js "Your message contains banned characters."))) ;;
     refuseIf (restrictLinks srv && negb (u_autoconfirmed user) &&
               negb (forallb linkWhitelisted (linkMatches srv text)) &&
               negb (match targetUser with
                     | Some tid => u_can (users w tid) (js "lock") None
                     | None => false
                     end ||
                     match room with
                     | Some room => r_isHelp room
                     | None => false
                     end))
       (errorReply c (js "Your account must be autoconfirmed to send links to other users, except for global staff.")) ;;
     checkFormat c room user text ;;
     refuseIf (negb (checkSlowchat rid room user now))
       (errorReply c (trKeys c [js "This room has slow-chat enabled. You can only talk once every ";
                                js " seconds."]
                               [decimal (default O (room ≫= r_slowchat))])) ;;
     refuseIf (negb (checkBanwords (banwordChain room) (u_name user)) &&
               negb (u_can user (js "bypassall") None))
       (errorReply c (trText c (js "Your username contains a phrase banned by this room."))) ;;
     refuseIf (negb (jseq (u_userMessage user) []) &&
               (negb (checkBanwords (banwordChain room) (u_userMessage user)) &&
                negb (u_can user (js "bypassall") None)))
       (errorReply c (trText c (js "Your status message contains a phrase banned by this room."))) ;;
     refuseIf (negb (checkBanwords (banwordChain room) text) && negb (u_can user (js "mute") rid))
       (errorReply c (trText c (js "Your message contained banned words in this room."))) ;;
     match checkGameFilter c w with
     | Some gameFilter =>
         refuse (if jseq gameFilter [] then (fun w => w) else errorReply c gameFilter)
     | None => pass tt
     end ;;
     match rid with
     | Some id =>
         refuseIf (negb (u_can user (js "bypassall") None) &&
                   (jseq id (js "help") || jseq id (js "lobby")) &&
                   jseq (trim text) (u_lastMessage user) &&
                   (now - u_lastMessageTime user <? MESSAGE_COOLDOWN)%Z)
           (errorReply c (trText c (js "You can't send the same message again so soon."))) ;;
         effect (fun w => setUser (c_user c) (touchUser (users w (c_user c)) text now) w)
     | None => pass tt
     end ;;
     refuseIf (match room with
               | Some room => r_highTraffic room
               | None => false
               end &&
               (length (dropFirstRun (fun ch => negb (isLower ch)) (toID srv text)) <? 2)%nat &&
               negb (u_can user (js "show") rid))
       (errorReply c (trText c (js "Due to this room being a high traffic room, your message must contain at least two letters."))) ;;
     pass text)%gate w.

(** The checks of [canTalk] on the message: not blank, not too long, and
    the checks that follow. *)
Definition mayTalkText (c : CommandContext) (rid targetUser : option jsstring) (now : Z)
    (text : jsstring) : Gate jsstring :=
  fun w =>
    let user := users w (c_user c) in
    let room := rooms w <$> rid in
    (refuseIf (jseq text []) (errorReply c (trText c (js "Your message can't be blank."))) ;;
     checkLength c user text ;;
     afterLength c rid targetUser now user room text)%gate w.

(** The recipient and the room that [canTalk] settles on:
    [if (!targetUser && this.pmTarget) targetUser = this.pmTarget] and
    [if (targetUser) room = null; else if (!room) room = this.room]. *)
Definition talkTarget (c : CommandContext) (targetUser : option jsstring) : option jsstring :=
  match targetUser with
  | None => pmTarget c
  | Some _ => targetUser
  end.

Definition talkRoom (c : CommandContext) (room targetUser : option jsstring) : option jsstring :=
  match talkTarget c targetUser with
  | Some _ => None
  | None => match room with
            | None => c_room c
            | Some _ => room
            end
  end.

(** [canTalk(message, room, targetUser)] at time [now]. [text] is [None]
    for a call that passes no message. *)
Definition canTalk (c : CommandContext) (text : option jsstring)
    (room targetUser : option jsstring) (now : Z) (w : World) : jsval * World :=
  let room := talkRoom c room targetUser in
  let targetUser := talkTarget c targetUser in
  match mayTalk c room targetUser w with
  | (None, w) => (JNull, w)
  | (Some _, w) =>
      match text with
      | None => (JBool true, w)
      | Some text =>
          match mayTalkText c room targetUser now text w with
          | (None, w) => (JNull, w)
          | (Some text, w) =>
              if bool_decide (filters srv = []) then (JString text, w)
              else Chat_filter c text room targetUser w
          end
      end
  end.

(** *** Broadcasting *)

(** [shouldBroadcast()] *)
Definition shouldBroadcast (c : CommandContext) : bool := jseq (cmdToken c) BROADCAST_TOKEN.

(** A context whose command was typed with the broadcast token, before
    anything has been done about broadcasting it. *)
Definition awaitsBroadcast (c : CommandContext) : Prop :=
  broadcasting c = false /\ shouldBroadcast c = true /\ broadcastMessage c = [].

(** [suppressMessage || this.message] *)
Definition orMessage (c : CommandContext) (suppressMessage : option jsstring) : jsstring :=
  match suppressMessage with
  | Some s => if jseq s [] then c_message c else s
  | None => c_message c
  end.

(** [text.toLowerCase().replace(/[^a-z0-9\s!,]/g, '')] *)
Definition normalizeBroadcast (text : jsstring) : jsstring :=
  keepClass (fun ch => isLower ch || isDigit ch || isSpace ch || (ch =? 33) || (ch =? COMMA))
            (toLowerCase srv text).

Definition seeItYourself (c : CommandContext) : jsstring :=
  js "To see it for yourself, use: /" ++ sliceFrom (c_message c) 1.

(** [canBroadcast(ignoreCooldown, suppressMessage)] at time [now] *)
Definition canBroadcast (c : CommandContext) (ignoreCooldown : bool)
    (suppressMessage : option jsstring) (now : Z) (w : World) : bool * CommandContext * World :=
  if broadcasting c || negb (shouldBroadcast c) then (true, c, w)
  else
    let user := users w (c_user c) in
    if match c_room c with
       | Some rid => negb (u_can user (js "show") (Some rid))
       | None => false
       end
    then
      (false, c,
       errorReply c (seeItYourself c)
         (errorReply c (js "You need to be voiced to broadcast this command's information.") w))
    else if match c_room c, pmTarget c with
            | None, None => true
            | _, _ => false
            end
    then
      (false, c,
       errorReply c (seeItYourself c)
         (errorReply c (js "Broadcasting a command with " ++ DQ ++ js "!" ++ DQ ++
                        js " in a PM or chatroom will show it that user or room.") w))
    else
      let broadcastMessage := normalizeBroadcast (orMessage c suppressMessage) in
      if negb ignoreCooldown &&
         match c_room c with
         | Some rid =>
             jseq (r_lastBroadcast (rooms w rid)) broadcastMessage &&
             (now - BROADCAST_COOLDOWN <=? r_lastBroadcastTime (rooms w rid))%Z
         | None => false
         end &&
         negb (u_can user (js "bypassall") None)
      then
        (false, c, errorReply c (js "You can't broadcast this because it was just broadcasted.") w)
      else
        match canTalk c (Some (orMessage c suppressMessage)) None None now w with
        | (JString text, w) =>
            if jseq text [] then (false, c, errorReply c (seeItYourself c) w)
            else (true, withMessage c text broadcastMessage, w)
        | (_, w) => (false, c, errorReply c (seeItYourself c) w)
        end.

(** [runBroadcast(ignoreCooldown, suppressMessage)] at time [now] *)
Definition runBroadcast (c : CommandContext) (ignoreCooldown : bool)
    (suppressMessage : option jsstring) (now : Z) (w : World) : bool * CommandContext * World :=
  if broadcasting c || negb (shouldBroadcast c) then (true, c, w)
  else
    let '(granted, c, w) :=
      if jseq (broadcastMessage c) [] then canBroadcast c ignoreCooldown suppressMessage now w
      else (true, c, w) in
    if negb granted then (false, c, w)
    else
      let c := withBroadcasting c (c_language c) in
      let w :=
        match pmTarget c with
        | Some _ => sendReply c (js "|c~|" ++ orMessage c suppressMessage) w
        | None =>
            sendReply c (js "|c|" ++
                         u_getIdentity (users w (c_user c)) (Some (default [] (c_room c))) ++
                         js "|" ++ orMessage c suppressMessage) w
        end in
      match c_room c with
      | Some rid =>
          let c := withBroadcasting c (match r_language (rooms w rid) with
                                       | Some l => if jseq l [] then None else Some l
                                       | None => None
                                       end) in
          let w := if ignoreCooldown then w
                   else setRoom rid (stampRoom (rooms w rid) (broadcastMessage c) now) w in
          (true, c, w)
      | None => (true, c, w)
      end.

(** *** Running a handler *)

(** How a call ends: it returns, it throws, or the nesting of [parse]
    inside handlers went deeper than the fuel given. *)
Inductive Outcome : Type :=
| Returned (v : jsval) (c : CommandContext) (w : World)
| Threw (e : Error) (c : CommandContext) (w : World)
| Exhausted.

(** The body of a handler, run in context [c]. [parseSub] is
    [this.parse(msg, quiet)]. *)
Fixpoint exec (parseSub : CommandContext -> jsstring -> bool -> World -> Outcome) (now : Z)
    (p : Prog) (c : CommandContext) (w : World) : Outcome :=
  match p with
  | Ret v => Returned v c w
  | Throw e => Threw e c w
  | Parse msg quiet k =>
      match parseSub c msg quiet w with
      | Returned v _ w => exec parseSub now (k v) c w
      | Threw e _ w => Threw e c w
      | Exhausted => Exhausted
      end
  | CanBroadcast ignoreCooldown suppressMessage k =>
      let '(granted, c, w) := canBroadcast c ignoreCooldown suppressMessage now w in
      exec parseSub now (k granted) c w
  | RunBroadcast ignoreCooldown suppressMessage k =>
      let '(granted, c, w) := runBroadcast c ignoreCooldown suppressMessage now w in
      exec parseSub now (k granted) c w
  | SendReply data k => exec parseSub now k c (sendReply c data w)
  | ErrorReply text k => exec parseSub now k c (errorReply c text w)
  end.

Definition cantBroadcast (c : CommandContext) (w : World) : World :=
  errorReply c (js "Use /" ++ fullCmd c ++ js " instead.")
    (errorReply c (js "The command " ++ DQ ++ fullCmd c ++ DQ ++ js " can't be broadcast.") w).

(** [run(handler)] *)
Definition run (parseSub : CommandContext -> jsstring -> bool -> World -> Outcome) (now : Z)
    (c : CommandContext) (handler : value) (w : World) : Outcome :=
  let handler :=
    match handler with
    | VString s => getProp (VTable (commands srv)) s
    | _ => handler
    end in
  match handler with
  | VUndefined => Threw (TypeError (js "Cannot read property 'broadcastable' of undefined")) c w
  | VHandler h =>
      if negb (broadcastable h) && jseq (cmdToken c) (js "!")
      then Returned (JBool false) c (cantBroadcast c w)
      else
        match exec parseSub now
                (h_body h {| a_target := c_target c; a_room := c_room c; a_user := c_user c;
                             a_cmd := c_cmd c; a_message := c_message c |}) c w with
        | Returned JUndefined c w => Returned (JBool false) c w
        | result => result
        end
  | VString _ | VNumber _ | VArray _ | VTable _ =>
      if jseq (cmdToken c) (js "!")
      then Returned (JBool false) c (cantBroadcast c w)
      else Threw (TypeError (js "handler.call is not a function")) c w
  end.

(** *** [parse] *)

(** [commandDoesNotExist()]: the error it throws. *)
Definition commandDoesNotExist (c : CommandContext) : Error :=
  if jseq (cmdToken c) (js "!")
  then ErrorMessage (js "The command " ++ DQ ++ cmdToken c ++ fullCmd c ++ DQ ++ js " does not exist.")
  else ErrorMessage (js "The command " ++ DQ ++ cmdToken c ++ fullCmd c ++ DQ ++
                     js " does not exist. To send a message starting with " ++ DQ ++
                     cmdToken c ++ fullCmd c ++ DQ ++ js ", type " ++ DQ ++
                     cmdToken c ++ cmdToken c ++ fullCmd c ++ DQ ++ js ".").

Definition crashNotice : jsstring :=
  js "|html|<div class=" ++ DQ ++ js "broadcast-red" ++ DQ ++
  js "><b>Pokemon Showdown crashed!</b><br />Don't worry, we're working on fixing it.</div>".

Definition crashDetails (c : CommandContext) (w : World) : CrashDetails :=
  {| cd_user := u_name (users w (c_user c));
     cd_room := c_room c;
     cd_pmTarget := (fun t => u_name (users w t)) <$> pmTarget c;
     cd_message := c_message c |}.

(** [parse(msg, quiet)] with a string [msg]: the subcontext that is built
    and checked before it parses, or the error thrown instead. *)
Definition spawn (this : CommandContext) (msg : jsstring) (quiet : bool) (w : World)
  : Error + CommandContext :=
  let subcontext := CommandContext_new (asOptions this) w in
  let newDepth := S (recursionDepth subcontext) in
  if (MAX_PARSE_RECURSION <? newDepth)%nat
  then inl (PlainError (js "Too much command recursion"))
  else inr (asSubcontext subcontext quiet msg newDepth).

(** The [try] block of [parse]: run the handler, or treat the message as
    chat. [text] is the local variable [message]. *)
Definition dispatch (parseSub : CommandContext -> jsstring -> bool -> World -> Outcome) (now : Z)
    (c : CommandContext) (text : jsstring) (w : World) : Outcome :=
  if isTruthy (c_handler c) then run parseSub now c (c_handler c) w
  else if negb (jseq (cmdToken c) []) &&
          negb (shouldBroadcast c && negb (testClass (fun ch => isLower ch || isDigit ch)
                                                     (charAt (c_cmd c) 0)))
  then Threw (commandDoesNotExist c) c w
  else
    let text :=
      if jseq (cmdToken c) [] &&
         negb (includes VALID_COMMAND_TOKENS (charAt text 0)) &&
         includes VALID_COMMAND_TOKENS (charAt (trim text) 0)
      then
        let text := trim text in
        if negb (jseq (charAt text 0) BROADCAST_TOKEN) then charAt text 0 ++ text else text
      else text in
    let '(result, w) := canTalk c (Some text) None None now w in
    Returned result c w.

(** What follows the [try] block: the [catch] clause, the output of the
    message, [update()] and the return. *)
Definition conclude (text : jsstring) (attempt : Outcome) : Outcome :=
  let output (result : jsval) (c : CommandContext) (w : World) : Outcome :=
    let w :=
      match result with
      | JPromise p => emit (Await p) w
      | JString s => if jseq s [] then w else sendChatMessage c s w
      | JUndefined | JNull | JBool _ => w
      end in
    Returned result c (update c w) in
  match attempt with
  | Exhausted => Exhausted
  | Returned result c w => output result c w
  | Threw err c w =>
      if endsWith (err_name err) (js "ErrorMessage")
      then Returned (JBool false) c (errorReply c (err_message err) w)
      else
        let w := emit (Crashlog err (js "A chat command") (crashDetails c w)) w in
        let w := sendReply c crashNotice w in
        output (JString text) c w
  end.

(** What [parse()] does before its [try] block: the parsed command is
    stored, a user who is not in the room is turned away with a popup
    (left: [parse] returns) or, in the lobby, goes on without a room, and
    an idle user is set online. *)
Definition prelude (c : CommandContext) (w : World)
  : CommandContext * World + CommandContext * World :=
  let text := c_message c in
  let c :=
    match parseCommand (toLowerCase srv) (commands srv) (groups srv) text false with
    | Some parsedCommand => withCommand c parsedCommand
    | None => c
    end in
  let notInRoom :=
    match c_room c with
    | Some rid => negb (bool_decide (c_user c ∈ r_users (rooms w rid)))
    | None => false
    end in
  if notInRoom && negb (jseq (default [] (c_room c)) (js "lobby"))
  then
    inl (c, popupReply (js "You tried to send " ++ DQ ++ text ++ DQ ++ js " to the room " ++ DQ ++
                        default [] (c_room c) ++ DQ ++
                        js " but it failed because you were not in that room.") w)
  else
    let c := if notInRoom then withRoom c None else c in
    let w :=
      if u_idle (users w (c_user c)) &&
         negb (existsb (jseq (c_cmd c)) [js "unaway"; js "unafk"; js "back"])
      then setUser (c_user c) (wakeUser (users w (c_user c)))
             (emit (SetStatusType (c_user c) (js "online")) w)
      else w in
    inr (c, w).

(** [parse()] without arguments, given what [this.parse(msg, quiet)]
    does inside handlers. *)
Definition parseWith (parseSub : CommandContext -> jsstring -> bool -> World -> Outcome) (now : Z)
    (c : CommandContext) (w : World) : Outcome :=
  match prelude c w with
  | inl (c', w') => Returned JUndefined c' w'
  | inr (c', w') => conclude (c_message c) (dispatch parseSub now c' (c_message c) w')
  end.

(** [this.parse(msg, quiet)] with a string [msg], given [parse()]. *)
Definition parseSubWith (parse : CommandContext -> World -> Outcome)
    (this : CommandContext) (msg : jsstring) (quiet : bool) (w : World) : Outcome :=
  match spawn this msg quiet w with
  | inl err => Threw err this w
  | inr subcontext => parse subcontext w
  end.

(** [parse()], with fuel for the nesting of [parse] inside handlers. *)
Fixpoint parseN (fuel : nat) (now : Z) (c : CommandContext) (w : World) : Outcome :=
  match fuel with
  | O => Exhausted
  | S fuel' => parseWith (parseSubWith (parseN fuel' now)) now c w
  end.

(** [Chat.parse(message, room, user, connection)] *)
Definition Chat_parse (fuel : nat) (now : Z) (text : jsstring) (room : option jsstring)
    (user : jsstring) (w : World) : Outcome :=
  let context :=
    CommandContext_new {| o_message := text; o_user := user; o_room := room; o_pmTarget := None;
                          o_cmd := []; o_cmdToken := []; o_target := []; o_fullCmd := [] |} w in
  parseN fuel now context w.

End Pipeline.


(** ** A small server to run the model on *)

Module Sample.

(** [toLowerCase] on ASCII text. *)
Definition lowerAscii (s : jsstring) : jsstring :=
  (fun ch => if isUpper ch then ch + 32 else ch) <$> s.

(** Modelled from the spec: the global [toID] is [Dex.toID] of sim/dex,
    which is not under src/. The spec speaks of case-insensitive
    identifiers and of the letters-only content of a message; an id is
    the text in lower case without what is not a letter or a digit. *)
Definition toID_dex (s : jsstring) : jsstring :=
  keepClass (fun ch => isLower ch || isDigit ch) (lowerAscii s).

(** No translations loaded: [Chat.tr] joins the strings around the keys. *)
Fixpoint interleave (strings keys : list jsstring) : jsstring :=
  match strings, keys with
  | [], _ => []
  | s :: strings', [] => s ++ interleave strings' []
  | s :: strings', k :: keys' => s ++ k ++ interleave strings' keys'
  end.

Definition groups0 : list (jsstring * Group) :=
  [(js "+", {| g_id := js "voice"; g_name := js "Voice" |});
   (js "%", {| g_id := js "driver"; g_name := js "Driver" |})].

Definition server (cmds : gmap jsstring value) (fs : list ChatFilter) : Server :=
  {| toLowerCase := lowerAscii;
     toID := toID_dex;
     tr := fun _ strings keys => interleave strings keys;
     groups := groups0;
     restrictLinks := false;
     pmmodchat := None;
     commands := cmds;
     filters := fs;
     linkMatches := fun _ => [];
     linkDomain := fun _ => None;
     linkHost := fun _ => None;
     stretched := fun _ _ => false;
     hasEmoji := fun _ => false;
     banwordTest := fun _ _ => false |}.

(** A named user who holds the permissions listed in [perms], in every
    room. *)
Definition member (name : jsstring) (perms : list jsstring) : User :=
  {| u_name := name; u_named := true; u_locked := false; u_namelocked := false;
     u_autoconfirmed := true; u_language := None; u_idle := false; u_userMessage := [];
     u_blockPMs := BlockOff; u_tempGroupName := js "Voice";
     u_can := fun perm _ => existsb (jseq perm) perms;
     u_globalAtLeast := fun _ => false; u_canPromote := fun _ => false;
     u_lockExpiration := []; u_getIdentity := fun _ => js " " ++ name;
     u_lastMessage := []; u_lastMessageTime := 0 |}.

(** A room with the user [uid] in it and nothing set. *)
Definition plainRoom (uid : jsstring) (highTraffic : bool) : Room :=
  {| r_users := {[ uid ]}; r_isMuted := fun _ => false; r_authAtLeast := fun _ _ => false;
     r_isHelp := false; r_modchat := None; r_language := None;
     r_filterStretching := false; r_filterCaps := false; r_filterEmojis := false;
     r_slowchat := None; r_highTraffic := highTraffic; r_banwords := [[]];
     r_onChatMessage := None; r_onLogMessage := false;
     r_lastBroadcast := []; r_lastBroadcastTime := 0 |}.

(** The same room with everybody muted. *)
Definition mutedRoom (uid : jsstring) : Room :=
  {| r_users := {[ uid ]}; r_isMuted := fun _ => true; r_authAtLeast := fun _ _ => false;
     r_isHelp := false; r_modchat := None; r_language := None;
     r_filterStretching := false; r_filterCaps := false; r_filterEmojis := false;
     r_slowchat := None; r_highTraffic := false; r_banwords := [[]];
     r_onChatMessage := None; r_onLogMessage := false;
     r_lastBroadcast := []; r_lastBroadcastTime := 0 |}.

Definition world (u : User) (r : Room) : World :=
  {| users := fun _ => u; rooms := fun _ => r; log := [] |}.

Definition handler (canBroadcast : bool) (body : HandlerArgs -> Prog) : AnnotatedChatHandler :=
  {| requiresRoom := false; hasRoomPermissions := false; broadcastable := canBroadcast;
     isPrivate := false; h_cmd := []; h_fullCmd := []; h_body := body |}.

(** A context as [Chat.parse] builds it for [text] typed by [uid] in
    the room [rid]. *)
Definition typed (text uid rid : jsstring) (w : World) : CommandContext :=
  CommandContext_new {| o_message := text; o_user := uid; o_room := Some rid; o_pmTarget := None;
                        o_cmd := []; o_cmdToken := []; o_target := []; o_fullCmd := [] |} w.

(** A handler that replies [text] and returns nothing. *)
Definition replies (text : jsstring) : AnnotatedChatHandler :=
  handler true (fun _ => SendReply text (Ret JUndefined)).

(** [w] with a handler, [v] an alias of [w], [u] an alias of [v], and
    the help lines of [w]. *)
Definition aliasTable : gmap jsstring value :=
  <[ js "w" := VHandler (replies (js "done")) ]>
  (<[ js "v" := VString (js "w") ]>
  (<[ js "u" := VString (js "v") ]>
  (<[ js "whelp" := VArray [js "/w - replies."] ]>
  (<[ js "help" := VHandler (replies (js "help")) ]> ∅)))).

(** A command that re-enters itself with [this.parse] once for each
    character of its target, and replies at the end. *)
Definition hop : AnnotatedChatHandler :=
  handler true (fun a =>
    if jseq (a_target a) [] then SendReply (js "done") (Ret JUndefined)
    else Parse (js "/hop " ++ sliceFrom (a_target a) 1) false (fun _ => Ret JUndefined)).

(** A command that re-enters itself without end. *)
Definition again : AnnotatedChatHandler :=
  handler true (fun _ => Parse (js "/again") false (fun _ => Ret JUndefined)).

Definition hopTable : gmap jsstring value :=
  <[ js "hop" := VHandler hop ]> (<[ js "again" := VHandler again ]> ∅).

(** A broadcastable command: it asks to broadcast and then replies. *)
Definition data : AnnotatedChatHandler :=
  handler true (fun _ =>
    RunBroadcast false None (fun granted =>
      if granted then SendReply (js "Pikachu") (Ret JUndefined) else Ret JUndefined)).

(** A command that fails with a user-facing error, and one that fails
    with a plain one. *)
Definition refuses : AnnotatedChatHandler :=
  handler true (fun _ => Throw (ErrorMessage (js "No such thing."))).

Definition crashes : AnnotatedChatHandler :=
  handler true (fun _ => Throw (PlainError (js "oops"))).

Definition dataTable : gmap jsstring value :=
  <[ js "data" := VHandler data ]>
  (<[ js "refuses" := VHandler refuses ]>
  (<[ js "crashes" := VHandler crashes ]> ∅)).

(** A help command, the help lines [whelp] of a command, and a
    namespace [tour] with the help lines [createhelp] of its command
    [create]. *)
Definition helpTable : gmap jsstring value :=
  <[ js "help" := VHandler (replies (js "help")) ]>
  (<[ js "whelp" := VArray [js "/w - replies."] ]>
  (<[ js "tour" := VTable (<[ js "create" := VHandler (replies (js "created")) ]>
                          (<[ js "createhelp" := VArray [js "/tour create - starts one."] ]> ∅)) ]> ∅)).

(** A server where [help] itself is an array of help strings. *)
Definition loopTable : gmap jsstring value :=
  <[ js "help" := VArray [js "/help - helps."] ]> ∅.

(** Commands that the group shorthands stand for. *)
Definition promoteTable : gmap jsstring value :=
  <[ js "promote" := VHandler (replies (js "promoted")) ]>
  (<[ js "demote" := VHandler (replies (js "demoted")) ]>
   (<[ js "roompromote" := VHandler (replies (js "promoted in the room")) ]> ∅)).

(** Chat filters: one that returns the empty string, one that returns
    [false], one that replaces the text, and one that adds to it. *)
Definition blank : ChatFilter := fun _ _ _ _ _ _ => OutString [].
Definition veto : ChatFilter := fun _ _ _ _ _ _ => OutFalse.
Definition censor : ChatFilter := fun _ _ _ _ _ _ => OutString (js "***").
Definition shout : ChatFilter := fun _ _ text _ _ _ => OutString (text ++ js "!").

(** The user [bob], voiced, in a room; and [bob] without rank. *)
Definition voiced : User := member (js "bob") [js "show"].
Definition regular : User := member (js "bob") [].

(** A context for the message [/again] of [bob] in the room [tech], and a
    world where [bob] is voiced and in that room, with any log. *)
Definition typedAgain (c : CommandContext) : Prop :=
  c_message c = js "/again" /\ c_user c = js "bob" /\ c_room c = Some (js "tech").

Definition worldWith (l : list Event) : World :=
  {| users := fun _ => voiced; rooms := fun _ => plainRoom (js "bob") false; log := l |}.

End Sample.


(** * The group shorthands of [parseCommand] *)

(** The shorthands of the group with symbol [g] and id [groupid], in the
    order of the tests of the loop over [Config.groups]: the verb, and the
    command and the target of the message that is resolved instead. *)
Definition shorthandCommands (g groupid target : jsstring)
  : list (jsstring * (jsstring * jsstring)) :=
  [(groupid, (js "promote", target ++ js ", " ++ g));
   (js "global" ++ groupid, (js "globalpromote", target ++ js ", " ++ g));
   (js "de" ++ groupid, (js "demote", target));
   (js "un" ++ groupid, (js "demote", target));
   (js "globalde" ++ groupid, (js "demote", target));
   (js "deglobal" ++ groupid, (js "demote", target));
   (js "room" ++ groupid, (js "roompromote", target ++ js ", " ++ g));
   (js "forceroom" ++ groupid, (js "forceroompromote", target ++ js ", " ++ g));
   (js "roomde" ++ groupid, (js "roomdemote", target));
   (js "deroom" ++ groupid, (js "roomdemote", target));
   (js "roomun" ++ groupid, (js "roomdemote", target))].

(** The verbs that are shorthands of the group with id [groupid]. *)
Definition shorthandNames (groupid : jsstring) : list jsstring :=
  (shorthandCommands [] groupid []).*1.

(** * The moderation log: server/modlog.ts *)

(** [s.split(c)] for a one-unit separator. *)
Fixpoint splitOn (c : N) (s : jsstring) : list jsstring :=
  match s with
  | [] => [[]]
  | d :: s' =>
      if d =? c then [] :: splitOn c s'
      else match splitOn c s' with
           | piece :: pieces => (d :: piece) :: pieces
           | [] => [[d]]
           end
  end.

(** ** [SortedLimitedLengthList] *)
Module SortedLimitedLengthList.

(** The fields [maxSize] and [list]. *)
Record t := { maxSize : Z; l_list : list jsstring }.

(** [new SortedLimitedLengthList(maxSize)] *)
Definition new (maxSize : Z) : t := {| maxSize := maxSize; l_list := [] |}.

Definition getListClone (l : t) : list jsstring := l_list l.

(** [arr.splice(i, 0, element)] *)
Definition splice (i : nat) (element : jsstring) (arr : list jsstring) : list jsstring :=
  take i arr ++ element :: drop i arr.

(** [arr.pop()], for what is left in the array. *)
Definition pop (arr : list jsstring) : list jsstring := take (length arr - 1) arr.

Section Insert.

(** [a.localeCompare(b)] of the runtime. *)
Variable localeCompare : jsstring -> jsstring -> Z.

(** The [for] loop of [insert], about to look at index [i - 1]: where the
    element goes, or [None] when the loop ends with [insertedAt] still -1. *)
Fixpoint scan (element : jsstring) (arr : list jsstring) (i : nat) : option nat :=
  match i with
  | O => None
  | S i' =>
      match arr !! i' with
      | Some x => if (localeCompare element x <? 0)%Z then Some (S i') else scan element arr i'
      | None => scan element arr i'
      end
  end.

(** Where [insert] puts the element: [insertedAt], or 0. *)
Definition slot (element : jsstring) (arr : list jsstring) : nat :=
  default O (scan element arr (length arr)).

(** [insert(element)] *)
Definition insert (element : jsstring) (l : t) : t :=
  let arr :=
    match scan element (l_list l) (length (l_list l)) with
    | Some insertedAt =>
        if (insertedAt =? length (l_list l))%nat then l_list l ++ [element]
        else splice insertedAt element (l_list l)
    | None => splice 0 element (l_list l)
    end in
  {| maxSize := maxSize l;
     l_list := if (maxSize l <? Z.of_nat (length arr))%Z then pop arr else arr |}.

(** The list is kept from the greatest element down: no element is less
    than the one after it. *)
Fixpoint descending (arr : list jsstring) : Prop :=
  match arr with
  | x :: (y :: _) as rest => (0 <= localeCompare x y)%Z /\ descending rest
  | _ => True
  end.

End Insert.

(** An order on strings to run the list on: by code units, the shorter
    of two strings first when one begins the other. *)
Fixpoint compareUnits (a b : jsstring) : Z :=
  match a, b with
  | [], [] => 0%Z
  | [], _ :: _ => (-1)%Z
  | _ :: _, [] => 1%Z
  | x :: a', y :: b' =>
      if x <? y then (-1)%Z else if y <? x then 1%Z else compareUnits a' b'
  end.

End SortedLimitedLengthList.

(** ** [Modlog]: the write streams of the rooms *)
Module Modlog.

(** What happens to files, in order: a stream is opened for appending, a
    line is written to a stream, a stream is ended, a file is renamed. *)
Inductive FileEvent : Type :=
| Opened (stream : nat) (path : jsstring)
| Wrote (stream : nat) (text : jsstring)
| Ended (stream : nat)
| Renamed (oldPath newPath : jsstring).

(** A [Modlog] object and the files it has touched. A key of [streams]
    maps to [Some s] for an open stream and to [None] for [null]; a key
    that is absent reads as [undefined]. [opened] counts the streams
    created so far: each new stream is a new object. *)
Record t := {
  logPath : jsstring;
  sharedStreams : gmap jsstring (option nat);
  streams : gmap jsstring (option nat);
  opened : nat;
  files : list FileEvent
}.

(** [new Modlog(path)] *)
Definition new (path : jsstring) : t :=
  {| logPath := path; sharedStreams := ∅; streams := ∅; opened := O; files := [] |}.

(** [map.get(key)], when all that matters is whether it is truthy: the
    open stream, if any. *)
Definition openStream (map : gmap jsstring (option nat)) (key : jsstring) : option nat :=
  default None (map !! key).

Section WithGlobals.

(** The global [toID]. *)
Variable toID : jsstring -> jsstring.

(** [getSharedID(roomid)]; [None] is [false]. *)
Definition getSharedID (roomid : jsstring) : option jsstring :=
  if includes roomid (js "-")
  then Some (toID (default [] (head (splitOn 45 roomid))))
  else None.

(** [!getSharedID(roomid)]: [false], or an empty id. *)
Definition unshared (roomid : jsstring) : bool :=
  match getSharedID roomid with
  | Some id => jseq id []
  | None => true
  end.

(** [`${this.logPath}/modlog_${id}.txt`] *)
Definition pathOf (m : t) (id : jsstring) : jsstring :=
  logPath m ++ js "/modlog_" ++ id ++ js ".txt".

(** [FS(path).createAppendStream()] *)
Definition createAppendStream (path : jsstring) (m : t) : nat * t :=
  (opened m,
   {| logPath := logPath m; sharedStreams := sharedStreams m; streams := streams m;
      opened := S (opened m); files := files m ++ [Opened (opened m) path] |}).

Definition setStream (roomid : jsstring) (stream : option nat) (m : t) : t :=
  {| logPath := logPath m; sharedStreams := sharedStreams m;
     streams := <[ roomid := stream ]> (streams m);
     opened := opened m; files := files m |}.

Definition setSharedStream (id : jsstring) (stream : nat) (m : t) : t :=
  {| logPath := logPath m; sharedStreams := <[ id := Some stream ]> (sharedStreams m);
     streams := streams m; opened := opened m; files := files m |}.

Definition record (e : FileEvent) (m : t) : t :=
  {| logPath := logPath m; sharedStreams := sharedStreams m; streams := streams m;
     opened := opened m; files := files m ++ [e] |}.

(** [initialize(roomid)] *)
Definition initialize (roomid : jsstring) (m : t) : t :=
  match openStream (streams m) roomid with
  | Some _ => m
  | None =>
      if unshared roomid
      then
        let '(stream, m) := createAppendStream (pathOf m roomid) m in
        setStream roomid (Some stream) m
      else
        let sharedStreamId := default [] (getSharedID roomid) in
        match openStream (sharedStreams m) sharedStreamId with
        | Some stream => setStream roomid (Some stream) m
        | None =>
            let '(stream, m) := createAppendStream (pathOf m sharedStreamId) m in
            setStream roomid (Some stream) (setSharedStream sharedStreamId stream m)
        end
  end.

(** [write(roomid, message, overrideID)] at the time that [toJSON]
    renders as [stamp]; the error is the one it throws. *)
Definition write (stamp roomid message : jsstring) (overrideID : option jsstring) (m : t)
  : Error + t :=
  match openStream (streams m) roomid with
  | None =>
      inl (PlainError (js "Attempted to write to an uninitialized modlog stream for the room '" ++
                       roomid ++ js "'"))
  | Some stream =>
      let shown :=
        match overrideID with
        | Some id => if jseq id [] then roomid else id
        | None => roomid
        end in
      inr (record (Wrote stream (js "[" ++ stamp ++ js "] (" ++ shown ++ js ") " ++ message ++ NL)) m)
  end.

(** [destroy(roomid)] *)
Definition destroy (roomid : jsstring) (m : t) : t :=
  let m :=
    match openStream (streams m) roomid with
    | Some stream =>
        if unshared roomid then record (Ended stream) (setStream roomid None m) else m
    | None => m
    end in
  setStream roomid None m.

(** [rename(oldID, newID)] *)
Definition rename (oldID newID : jsstring) (m : t) : t :=
  let streamExists := bool_decide (is_Some (streams m !! oldID)) in
  let m := if streamExists then destroy oldID m else m in
  let m := record (Renamed (pathOf m oldID) (pathOf m newID)) m in
  if streamExists then initialize newID m else m.

(** [getActiveStreamIDs()], as a set. *)
Definition getActiveStreamIDs (m : t) : gset jsstring := dom (streams m).

(** The streams fit together: a stream that a room or a group holds was
    created by this object, as was any stream ended, and has not been
    ended; a room that shares a
    log holds the stream kept for its group; the stream of a room with a
    log of its own is held by nothing else. *)
Definition consistent (m : t) : Prop :=
  (forall roomid stream, streams m !! roomid = Some (Some stream) ->
     (stream < opened m)%nat /\ Ended stream ∉ files m) /\
  (forall roomid stream, streams m !! roomid = Some (Some stream) -> unshared roomid = false ->
     sharedStreams m !! default [] (getSharedID roomid) = Some (Some stream)) /\
  (forall roomid stream, streams m !! roomid = Some (Some stream) -> unshared roomid = true ->
     (forall other, streams m !! other = Some (Some stream) -> other = roomid) /\
     (forall id, sharedStreams m !! id <> Some (Some stream))) /\
  (forall id stream, sharedStreams m !! id = Some (Some stream) ->
     (stream < opened m)%nat /\ Ended stream ∉ files m) /\
  (forall stream, Ended stream ∈ files m -> (stream < opened m)%nat).

(** A call of one of the methods, and a sequence of calls on a new
    object; a [write] that throws leaves the object as it was. *)
Inductive Call : Type :=
| Initialize (roomid : jsstring)
| Write (stamp roomid message : jsstring) (overrideID : option jsstring)
| Destroy (roomid : jsstring)
| Rename (oldID newID : jsstring).

Definition call (m : t) (c : Call) : t :=
  match c with
  | Initialize roomid => initialize roomid m
  | Write stamp roomid message overrideID =>
      match write stamp roomid message overrideID m with
      | inr m' => m'
      | inl _ => m
      end
  | Destroy roomid => destroy roomid m
  | Rename oldID newID => rename oldID newID m
  end.

Definition after (path : jsstring) (calls : list Call) : t := foldl call (new path) calls.

End WithGlobals.

(** No line goes to a stream that was ended before. *)
Definition writesBeforeEnd (events : list FileEvent) : Prop :=
  forall before later stream text,
    events = before ++ Wrote stream text :: later -> Ended stream ∉ before.

End Modlog.

(** * The helpers of [Chat] and of [MessageContext] in server/chat.ts *)

Module ChatUtil.

(** ** [MessageContext.splitOne], [meansYes], [meansNo] *)

(** [splitOne(target)]: the two strings of the array it returns. *)
Definition splitOne (target : jsstring) : jsstring * jsstring :=
  let commaIndex := indexOf target COMMA in
  if (commaIndex <? 0)%Z then (trim target, [])
  else (trim (slice target 0 (Z.to_nat commaIndex)),
        trim (sliceFrom target (Z.to_nat commaIndex + 1))).

Section Words.

(** [String.prototype.toLowerCase] of the runtime. *)
Variable toLowerCase : jsstring -> jsstring.

(** [meansYes(text)] *)
Definition meansYes (text : jsstring) : bool :=
  let word := trim (toLowerCase text) in
  jseq word (js "on") || jseq word (js "enable") || jseq word (js "yes") || jseq word (js "true").

(** [meansNo(text)] *)
Definition meansNo (text : jsstring) : bool :=
  let word := trim (toLowerCase text) in
  jseq word (js "off") || jseq word (js "disable") || jseq word (js "no") || jseq word (js "false").

End Words.

(** ** [Chat.stripHTML] and [Chat.collapseLineBreaksHTML] *)

Definition LT : N := 60.
Definition GT : N := 62.

(** [s.replace(/<[^>]*>/g, f)]: a match starts at a [<] and ends at the
    next [>]; a [<] with no [>] after it starts none, and neither does
    anything behind it. [pending] holds, reversed, the text since a [<]
    whose [>] has not been seen. *)
Fixpoint replaceTags (f : jsstring -> jsstring) (pending : option jsstring) (s : jsstring)
  : jsstring :=
  match s with
  | [] =>
      match pending with
      | Some tag => reverse tag
      | None => []
      end
  | c :: s' =>
      match pending with
      | Some tag =>
          if c =? GT then f (reverse (c :: tag)) ++ replaceTags f None s'
          else replaceTags f (Some (c :: tag)) s'
      | None =>
          if c =? LT then replaceTags f (Some [c]) s'
          else c :: replaceTags f None s'
      end
  end.

(** [Chat.stripHTML(htmlContent)] *)
Definition stripHTML (htmlContent : jsstring) : jsstring :=
  if jseq htmlContent [] then [] else replaceTags (fun _ => []) None htmlContent.

(** Text in which [/<[^>]*>/] finds nothing: text without [<], and then
    nothing or a [<] that no [>] follows. *)
Definition tagless (out : jsstring) : Prop :=
  exists text tail, out = text ++ tail /\ Forall (fun c => c <> LT) text /\
    (tail = [] \/ exists body, tail = LT :: body /\ Forall (fun c => c <> GT) body).

(** [Chat.collapseLineBreaksHTML(htmlContent)] *)
Definition collapseLineBreaksHTML (htmlContent : jsstring) : jsstring :=
  let htmlContent := replaceTags (fun tag => replaceNewlines tag (js " ")) None htmlContent in
  replaceNewlines htmlContent (js "&#10;").

(** ** [Chat.normalize] *)

Definition APOSTROPHE : N := 39.
Definition isLetter (c : N) : bool := isUpper c || isLower c.

(** A lower-case letter, a digit or a space. *)
Definition isPlain (c : N) : bool := isLower c || isDigit c || (c =? SPACE).

Section Normalize.

Variable toLowerCase : jsstring -> jsstring.

(** [Chat.normalize(message)] *)
Definition normalize (message : jsstring) : jsstring :=
  let message := keepClass (fun c => negb (c =? APOSTROPHE)) message in
  let message := trim (collapseRuns (fun c => negb (isAlnum c)) [SPACE] false message) in
  let message :=
    if negb (hasRun isLetter 2 message)
    then keepClass (fun c => negb (c =? SPACE)) message
    else if negb (includes message [SPACE])
    then trim (message ≫= (fun c => if isUpper c then [SPACE; c] else [c]))
    else message in
  [SPACE] ++ toLowerCase message ++ [SPACE].

End Normalize.

(** ** [Chat.plural] and [Chat.count], for a number that is a count *)

(** [Chat.plural(num, pluralSuffix, singular)] *)
Definition plural (num : nat) (pluralSuffix singular : jsstring) : jsstring :=
  if (num =? 1)%nat then singular else pluralSuffix.

(** [Chat.count(num, pluralSuffix, singular)] *)
Definition count (num : nat) (pluralSuffix singular : jsstring) : jsstring :=
  let singular :=
    if jseq singular [] then
      if endsWith pluralSuffix (js "s") then sliceEnd pluralSuffix 1
      else if endsWith pluralSuffix (js "s have") then sliceEnd pluralSuffix 6 ++ js " has"
      else if endsWith pluralSuffix (js "s were") then sliceEnd pluralSuffix 6 ++ js " was"
      else singular
    else singular in
  let space := if startsWith singular (js "<") then [] else js " " in
  decimal num ++ space ++ (if (1 <? num)%nat then pluralSuffix else singular).

(** ** [Chat.toTimestamp] *)

(** What [toTimestamp] reads of a [Date]: [getFullYear()], [getMonth()],
    [getDate()], [getHours()], [getMinutes()], [getSeconds()]. *)
Record Date := {
  getFullYear : nat;
  getMonth : nat;
  getDate : nat;
  getHours : nat;
  getMinutes : nat;
  getSeconds : nat
}.

(** [val < 10 ? '0' + val : '' + val] *)
Definition pad (val : nat) : jsstring :=
  if (val <? 10)%nat then js "0" ++ decimal val else decimal val.

(** [Chat.toTimestamp(date, {human})] *)
Definition toTimestamp (date : Date) (human : bool) : jsstring :=
  let hours :=
    if human then (if (getHours date mod 12 =? 0)%nat then 12%nat else (getHours date mod 12)%nat)
    else getHours date in
  let day := [pad (getFullYear date); pad (getMonth date + 1); pad (getDate date)] in
  let time := [pad hours; pad (getMinutes date); pad (getSeconds date)] in
  join (js "-") day ++ js " " ++ join (js ":") (take (if human then 2 else 3)%nat time) ++
  (if human then (if (12 <=? getHours date)%nat then js "pm" else js "am") else []).

(** ** [CommandContext.canEmbedURI] *)

Definition DOT : N := 46.
Definition SLASH : N := 47.

(** The last index of [c] in [s], if any. *)
Fixpoint lastIn (s : jsstring) (c : N) : option nat :=
  match s with
  | [] => None
  | d :: s' =>
      match lastIn s' c with
      | Some i => Some (S i)
      | None => if d =? c then Some O else None
      end
  end.

(** [s.lastIndexOf(c, fromIndex)] for a one-unit [c]: the search starts
    at [fromIndex], or at 0 when that is negative. *)
Definition lastIndexOf (s : jsstring) (c : N) (fromIndex : Z) : option nat :=
  lastIn (take (S (Z.to_nat fromIndex)) s) c.

(** [/^[a-z]+:\/\//.test(uri)] *)
Definition hasScheme (uri : jsstring) : bool :=
  let rest := trimStartBy isLower uri in
  negb (length rest =? length uri)%nat && startsWith rest (js "://").

Definition approvedDomains : list jsstring :=
  [js "imgur.com"; js "gyazo.com"; js "puu.sh"; js "rotmgtool.com"; js "pokemonshowdown.com";
   js "nocookie.net"; js "blogspot.com"; js "imageshack.us"; js "deviantart.net"; js "d.pr";
   js "pokefans.net"].

(** The domain that [canEmbedURI] looks up, of a URI without its
    [http://]. *)
Definition embedDomain (uri : jsstring) : jsstring :=
  let slashIndex := indexOf uri SLASH in
  let domain := if (0 <=? slashIndex)%Z then slice uri 0 (Z.to_nat slashIndex) else uri in
  match lastIndexOf domain DOT (Z.of_nat (length domain) - 5) with
  | Some secondLastDotIndex => sliceFrom domain (secondLastDotIndex + 1)
  | None => domain
  end.

(** What the heuristic of [embedDomain] needs of a domain to find it
    again, alone and behind subdomains: at least four units, no dot
    before the last four, no slash, and no dot that the search from
    [length - 5] finds in the domain itself. *)
Definition fitsHeuristic (domain : jsstring) : bool :=
  (4 <=? length domain)%nat &&
  forallb (fun c => negb (c =? DOT)) (take (length domain - 4) domain) &&
  forallb (fun c => negb (c =? SLASH)) domain &&
  bool_decide (lastIndexOf domain DOT (Z.of_nat (length domain) - 5) = None).

(** [canEmbedURI(uri, autofix)]; [None] is [null]. *)
Definition canEmbedURI (c : CommandContext) (uri : jsstring) (autofix : bool) (w : World)
  : option jsstring * World :=
  if startsWith uri (js "https://") then (Some uri, w)
  else if startsWith uri (js "//") then (Some uri, w)
  else if startsWith uri (js "data:") then (Some uri, w)
  else if negb (startsWith uri (js "http://")) && hasScheme uri
  then (None, errorReply c (js "Image URLs must begin with 'https://' or 'http://' or 'data:'") w)
  else
    let uri := if startsWith uri (js "http://") then sliceFrom uri 7 else uri in
    let domain := embedDomain uri in
    if existsb (jseq domain) approvedDomains
    then
      if autofix then (Some (js "//" ++ uri), w)
      else (None, errorReply c (js "Please use HTTPS for image " ++ DQ ++ uri ++ DQ) w)
    else if jseq domain (js "bit.ly")
    then (None, errorReply c (js "Please don't use URL shorteners.") w)
    else (Some uri, w).

End ChatUtil.

(** * [PatternTester] in server/chat.ts *)

Module PatternTester.

(** The fields [elements], [fastElements] and [regexp]. A [RegExp] object
    is kept as its source; its flag is always [i]. *)
Record t := {
  elements : list jsstring;
  fastElements : gset jsstring;
  regexp : option jsstring
}.

(** [new PatternTester()] *)
Definition new : t := {| elements := []; fastElements := ∅; regexp := None |}.

(** [fastNormalize(elem)]: [elem.slice(0, -1)] *)
Definition fastNormalize (elem : jsstring) : jsstring := sliceEnd elem 1.

(** The class [[^ ^$?|()[\]]]: any code unit but the space and
    [^ $ ? | ( ) [ ]]. *)
Definition isLiteral (c : N) : bool :=
  negb ((c =? 32) || (c =? 94) || (c =? 36) || (c =? 63) || (c =? 124) ||
        (c =? 40) || (c =? 41) || (c =? 91) || (c =? 93)).

(** [/^[^ ^$?|()[\]]+ $/.test(elem)]: one or more units of the class,
    then one space, then the end. *)
Definition isFast (elem : jsstring) : bool :=
  match reverse elem with
  | c :: word => (c =? SPACE) && negb (jseq word []) && forallb isLiteral word
  | [] => false
  end.

(** [update()] *)
Definition update (p : t) : t :=
  let slowElements := filter (fun elem => fastNormalize elem ∉ fastElements p) (elements p) in
  match slowElements with
  | [] => p
  | _ :: _ =>
      {| elements := elements p; fastElements := fastElements p;
         regexp := Some (js "^(" ++ join (js "|") ((fun elem => js "(?:" ++ elem ++ js ")") <$> slowElements)
                         ++ js ")") |}
  end.

(** One turn of the loop of [register]. *)
Definition push (p : t) (elem : jsstring) : t :=
  {| elements := elements p ++ [elem];
     fastElements := if isFast elem then {[ fastNormalize elem ]} ∪ fastElements p else fastElements p;
     regexp := regexp p |}.

(** [register(...elems)] *)
Definition register (p : t) (elems : list jsstring) : t := update (foldl push p elems).

(** The tester after the calls [register(...batch)], one per batch, on a
    new tester. *)
Definition registered (batches : list (list jsstring)) : t := foldl register new batches.

(** [spaceIndex >= 0 ? text.slice(0, spaceIndex) : text] *)
Definition firstWord (text : jsstring) : jsstring :=
  let spaceIndex := indexOf text SPACE in
  if (0 <=? spaceIndex)%Z then slice text 0 (Z.to_nat spaceIndex) else text.

Section Engine.

(** [new RegExp(source, 'i').test(text)] of the runtime. *)
Variable regexpTest : jsstring -> jsstring -> bool.

(** [testCommand(text)] *)
Definition testCommand (p : t) (text : jsstring) : bool :=
  if bool_decide (firstWord text ∈ fastElements p) then true
  else match regexp p with
       | None => false
       | Some source => regexpTest source text
       end.

End Engine.

End PatternTester.

(** * [PageContext] in server/chat.ts *)

Module PageContext.

(** The fields of a [PageContext]: those of [MessageContext], then [room],
    [pageid], [initialized], [title] and [args]. The user and the room
    are kept by id; the connection is the list of what was sent to it. *)
Record t := {
  user : jsstring;
  language : option jsstring;
  recursionDepth : nat;
  room : option jsstring;
  pageid : jsstring;
  initialized : bool;
  title : jsstring;
  args : list jsstring
}.

Definition DASH : N := 45.

(** [new PageContext({pageid, user, connection, language})] *)
Definition new (pageid user : jsstring) (language : option jsstring) : t :=
  let '(user, language, depth0) := MessageContext_new user language in
  {| user := user; language := language; recursionDepth := depth0;
     room := None; pageid := pageid; initialized := false;
     title := js "Page"; args := splitOn DASH pageid |}.

(** Calls that leave the page context, in the order they are made:
    [connection.send(data)] and [Monitor.crashlog(err, source, {user,
    room, pageid})]. *)
Inductive Event : Type :=
| Sent (data : jsstring)
| Crashed (err : Error) (source : jsstring) (user : jsstring) (room : option jsstring)
    (pageid : jsstring).

Record State := { this : t; out : list Event }.

Definition withThis (s : State) (c : t) : State := {| this := c; out := out s |}.

Definition emit (e : Event) (s : State) : State := {| this := this s; out := out s ++ [e] |}.

(** [send(content)] *)
Definition send (content : jsstring) (s : State) : State :=
  let c := this s in
  let '(content, c) :=
    if negb (startsWith content (js "|deinit")) then
      let roomid := match room c with
                    | Some rid => js "[" ++ rid ++ js "] "
                    | None => []
                    end in
      if negb (initialized c) then
        (js "|init|html" ++ NL ++ js "|title|" ++ roomid ++ title c ++ NL ++ js "|pagehtml|" ++ content,
         {| user := user c; language := language c; recursionDepth := recursionDepth c;
            room := room c; pageid := pageid c; initialized := true;
            title := title c; args := args c |})
      else
        (js "|title|" ++ roomid ++ title c ++ NL ++ js "|pagehtml|" ++ content, c)
    else (content, c) in
  emit (Sent (js ">" ++ pageid c ++ NL ++ content)) (withThis s c).

(** [close()] *)
Definition close (s : State) : State := send (js "|deinit") s.

(** What a page handler does with its context, as far as [PageContext] is
    concerned: it returns (the value its promise resolves to), throws,
    sends, replies with an error, closes the page, asks for a permission,
    looks for its room, or sets the title. The continuation receives the
    result of the call. *)
Inductive PageProg : Type :=
| PReturn (v : jsval)
| PThrow (e : Error)
| PSend (content : jsstring) (k : PageProg)
| PErrorReply (message : jsstring) (k : PageProg)
| PClose (k : PageProg)
| PCan (permission : jsstring) (room : option jsstring) (k : bool -> PageProg)
| PExtractRoom (pageid : option jsstring) (k : option jsstring -> PageProg)
| PRequireRoom (pageid : option jsstring) (k : jsstring -> PageProg)
| PTitle (title : jsstring) (k : PageProg).

(** [PageHandler]: called with [query]; [user] and [connection] are those
    of the context. *)
Definition PageHandler : Type := list jsstring -> PageProg.

(** [PageTable]: a handler, or a table given by what [handler[key]] finds
    in it, its [gmap] having an entry for each key under which a function
    or a table is found, whether the property is the table's own or
    inherited. [Chat.pages] itself is made with [Object.create(null)] and
    inherits nothing. *)
Inductive PageEntry : Type :=
| PageFn (h : PageHandler)
| PageTab (t : gmap jsstring PageEntry).

(** [parts.shift() || 'default'] *)
Definition nextKey (parts : list jsstring) : jsstring :=
  match parts with
  | part :: _ => if jseq part [] then js "default" else part
  | [] => js "default"
  end.

(** The loop of [resolve]: from [handler], take the entry under the next
    part, or under ['default'], until a function or nothing is reached.
    The result is the function, if any, and the parts that are left. *)
Fixpoint walk (handler : PageEntry) : list jsstring -> option PageHandler * list jsstring :=
  match handler with
  | PageFn h => fun parts => (Some h, parts)
  | PageTab t =>
      let below := walk <$> t in
      fun parts =>
        match below !! nextKey parts with
        | Some continue => continue (tail parts)
        | None => (None, tail parts)
        end
  end.

Section Resolve.

(** [Utils.escapeHTML] of lib/utils, which [Utils.html] applies to what
    is interpolated. *)
Variable escapeHTML : jsstring -> jsstring.

(** The users of the server by id, and [Rooms.get(id)] as the id of the
    room found. *)
Variable users : jsstring -> User.
Variable Rooms_get : jsstring -> option jsstring.

(** [Chat.pages] *)
Variable pages : PageEntry.

(** [errorReply(message)] *)
Definition errorReply (message : jsstring) (s : State) : State :=
  send (js "<div class=" ++ DQ ++ js "pad" ++ DQ ++ js "><p class=" ++ DQ ++ js "message-error" ++ DQ ++
        js ">" ++ escapeHTML message ++ js "</p></div>") s.

(** [can(permission, null, room)] *)
Definition can (permission : jsstring) (room : option jsstring) (s : State) : bool * State :=
  if negb (u_can (users (user (this s))) permission room)
  then (false, send (js "<h2>Permission denied.</h2>") s)
  else (true, s).

Definition setRoom (room : option jsstring) (s : State) : State :=
  let c := this s in
  withThis s {| user := user c; language := language c; recursionDepth := recursionDepth c;
                room := room; pageid := pageid c; initialized := initialized c;
                title := title c; args := args c |}.

Definition setTitle (title : jsstring) (s : State) : State :=
  let c := this s in
  withThis s {| user := user c; language := language c; recursionDepth := recursionDepth c;
                room := room c; pageid := pageid c; initialized := initialized c;
                title := title; args := args c |}.

Definition setPageid (pageid : jsstring) (s : State) : State :=
  let c := this s in
  withThis s {| user := user c; language := language c; recursionDepth := recursionDepth c;
                room := room c; pageid := pageid; initialized := initialized c;
                title := title c; args := args c |}.

Definition setArgs (args : list jsstring) (s : State) : State :=
  let c := this s in
  withThis s {| user := user c; language := language c; recursionDepth := recursionDepth c;
                room := room c; pageid := pageid c; initialized := initialized c;
                title := title c; args := args |}.

(** [extractRoom(pageid)] *)
Definition extractRoom (pageid' : option jsstring) (s : State) : option jsstring * State :=
  let pageid' := match pageid' with
                 | Some p => if jseq p [] then pageid (this s) else p
                 | None => pageid (this s)
                 end in
  let parts := splitOn DASH pageid' in
  let room := parts !! 2%nat ≫= Rooms_get in
  (room, setRoom room s).

(** [requireRoom(pageid)] *)
Definition requireRoom (pageid' : option jsstring) (s : State) : (Error + jsstring) * State :=
  let '(room, s) := extractRoom pageid' s in
  match room with
  | None => (inl (ErrorMessage (js "Invalid link: This page requires a room ID.")), s)
  | Some rid => (inr rid, setRoom (Some rid) s)
  end.

(** The run of a handler on its context. *)
Fixpoint exec (prog : PageProg) (s : State) : (Error + jsval) * State :=
  match prog with
  | PReturn v => (inr v, s)
  | PThrow e => (inl e, s)
  | PSend content k => exec k (send content s)
  | PErrorReply message k => exec k (errorReply message s)
  | PClose k => exec k (close s)
  | PCan permission room k => let '(allowed, s) := can permission room s in exec (k allowed) s
  | PExtractRoom pageid' k => let '(room, s) := extractRoom pageid' s in exec (k room) s
  | PRequireRoom pageid' k =>
      match requireRoom pageid' s with
      | (inl e, s) => (inl e, s)
      | (inr rid, s) => exec (k rid) s
      end
  | PTitle title k => exec k (setTitle title s)
  end.

Definition crashNotice : jsstring :=
  js "<div class=" ++ DQ ++ js "pad" ++ DQ ++ js "><div class=" ++ DQ ++ js "broadcast-red" ++ DQ ++ js ">" ++
  js "<strong>Pokemon Showdown crashed!</strong><br />Don't worry, we're working on fixing it." ++
  js "</div></div>".

(** [resolve(pageid)] *)
Definition resolve (pageid' : option jsstring) (s : State) : jsval * State :=
  let s := match pageid' with
           | Some p => if jseq p [] then s else setPageid p s
           | None => s
           end in
  let parts := tail (splitOn DASH (pageid (this s))) in
  match walk pages parts with
  | (None, _) =>
      (JUndefined, errorReply (js "Page " ++ DQ ++ pageid (this s) ++ DQ ++ js " not found") s)
  | (Some handler, parts) =>
      let s := setArgs parts s in
      match exec (handler parts) s with
      | (inl err, s) =>
          if endsWith (err_name err) (js "ErrorMessage")
          then (JUndefined, errorReply (err_message err) s)
          else
            let s := emit (Crashed err (js "A chat page") (u_name (users (user (this s))))
                             (room (this s)) (pageid (this s))) s in
            (JUndefined, send crashNotice s)
      | (inr (JString res), s) => (JUndefined, send res s)
      | (inr res, s) => (res, s)
      end
  end.

(** [Chat.resolvePage(pageid, user, connection)] *)
Definition resolvePage (pageid user : jsstring) : jsval * State :=
  resolve None {| this := new pageid user (u_language (users user)); out := [] |}.

End Resolve.

(** What [data] says to the page [pageid], if it is addressed to it. *)
Definition addressed (pageid data : jsstring) : option jsstring :=
  let header := js ">" ++ pageid ++ NL in
  if startsWith data header then Some (drop (length header) data) else None.

(** The messages of a well opened page: each is addressed to the page;
    apart from [|deinit], the first one opens the page with [|init|html]
    and the later ones only set the title and the content. *)
Fixpoint wellOpened (pageid : jsstring) (opened : bool) (events : list Event) : bool :=
  match events with
  | [] => true
  | Crashed _ _ _ _ _ :: later => wellOpened pageid opened later
  | Sent data :: later =>
      match addressed pageid data with
      | None => false
      | Some content =>
          if startsWith content (js "|deinit") then wellOpened pageid opened later
          else if startsWith content (js "|init|html" ++ NL ++ js "|title|")
          then negb opened && wellOpened pageid true later
          else startsWith content (js "|title|") && opened && wellOpened pageid opened later
      end
  end.

(** The messages sent so far open the page at most once, and [initialized]
    tells whether they did: whatever is well opened from here on is well
    opened from the start. *)
Definition opened (p : jsstring) (s : State) : Prop :=
  pageid (this s) = p /\
  forall later, wellOpened p (initialized (this s)) later = true ->
                wellOpened p false (out s ++ later) = true.

End PageContext.

(** * The chat log viewer: [LogReader] in server/chat-plugins/chatlog.ts *)

Module LogReader.

(** The part of a [Room] that [listCategorized] reads: [roomid],
    [auth.has(userid)], [checkModjoin(user)] by the id of the user, and
    [settings.isPrivate] and [settings.isOfficial]. *)
Record Room := {
  roomid : jsstring;
  auth_has : jsstring -> bool;
  checkModjoin : jsstring -> bool;
  isPrivate : jsval;
  isOfficial : bool
}.

(** The arrays that [listCategorized] returns. *)
Record Categories := {
  official : list jsstring;
  normal : list jsstring;
  hidden : list jsstring;
  secret : list jsstring;
  deleted : list jsstring;
  personal : list jsstring;
  deletedPersonal : list jsstring
}.

Definition noRooms : Categories :=
  {| official := []; normal := []; hidden := []; secret := []; deleted := [];
     personal := []; deletedPersonal := [] |}.

(** Every room id that is listed, in whatever category. *)
Definition listed (cats : Categories) : list jsstring :=
  official cats ++ normal cats ++ hidden cats ++ secret cats ++ deleted cats ++
  personal cats ++ deletedPersonal cats.

(** [/^[a-z0-9-]+$/.test(file)] *)
Definition isRoomDirectory (file : jsstring) : bool :=
  negb (jseq file []) && forallb (fun c => isLower c || isDigit c || (c =? 45)) file.

(** [list()], on the listing of [logs/chat]. *)
Definition list (listing : Datatypes.list jsstring) : Datatypes.list jsstring :=
  filter isRoomDirectory listing.

Section ListCategorized.

(** The user: the object, its id and its [inRooms]. *)
Variable user : User.
Variable userid : jsstring.
Variable inRooms : gset jsstring.

(** [Rooms.get(roomid)] *)
Variable Rooms_get : jsstring -> option Room.

Definition isUpperStaff : bool := u_can user (js "rangeban") None.
Definition isStaff : bool := u_can user (js "lock") None.

(** [forceShow], as a boolean. *)
Definition forceShow (room : option Room) : bool :=
  match room with
  | Some room =>
      (auth_has room userid && u_can user (js "mute") (Some (roomid room))) ||
      (isStaff && bool_decide (roomid room ∈ inRooms))
  | None => false
  end.

(** [v === true] *)
Definition isTrue (v : jsval) : bool :=
  match v with
  | JBool b => b
  | _ => false
  end.

(** [v === 'hidden'] *)
Definition isHidden (v : jsval) : bool :=
  match v with
  | JString s => jseq s (js "hidden")
  | _ => false
  end.

(** The first [if] of the loop: whether the room is passed over. *)
Definition passedOver (room : option Room) : bool :=
  if negb isUpperStaff && negb (forceShow room) then
    if negb isStaff then true
    else match room with
         | None => true
         | Some room =>
             if negb (checkModjoin room userid) then true
             else isTrue (isPrivate room)
         end
  else false.

(** [opts === text] *)
Definition optsIs (opts : option jsstring) (text : jsstring) : bool :=
  match opts with
  | Some o => jseq o text
  | None => false
  end.

(** One turn of the loop, for a room that is not passed over. *)
Definition categorize (opts : option jsstring) (cats : Categories) (rid : jsstring) : Categories :=
  let room := Rooms_get rid in
  if includes rid (js "-") then
    let matchesOpts :=
      match opts with
      | Some o => negb (jseq o []) && startsWith rid (o ++ js "-")
      | None => false
      end in
    if matchesOpts || optsIs opts (js "all") || forceShow room then
      match room with
      | Some _ =>
          {| official := official cats; normal := normal cats; hidden := hidden cats;
             secret := secret cats; deleted := deleted cats;
             personal := personal cats ++ [rid]; deletedPersonal := deletedPersonal cats |}
      | None =>
          {| official := official cats; normal := normal cats; hidden := hidden cats;
             secret := secret cats; deleted := deleted cats;
             personal := personal cats; deletedPersonal := deletedPersonal cats ++ [rid] |}
      end
    else cats
  else
    match room with
    | None =>
        if optsIs opts (js "all") || optsIs opts (js "deleted") then
          {| official := official cats; normal := normal cats; hidden := hidden cats;
             secret := secret cats; deleted := deleted cats ++ [rid];
             personal := personal cats; deletedPersonal := deletedPersonal cats |}
        else cats
    | Some room =>
        if isOfficial room then
          {| official := official cats ++ [rid]; normal := normal cats; hidden := hidden cats;
             secret := secret cats; deleted := deleted cats;
             personal := personal cats; deletedPersonal := deletedPersonal cats |}
        else if negb (truthy (isPrivate room)) then
          {| official := official cats; normal := normal cats ++ [rid]; hidden := hidden cats;
             secret := secret cats; deleted := deleted cats;
             personal := personal cats; deletedPersonal := deletedPersonal cats |}
        else if isHidden (isPrivate room) then
          {| official := official cats; normal := normal cats; hidden := hidden cats ++ [rid];
             secret := secret cats; deleted := deleted cats;
             personal := personal cats; deletedPersonal := deletedPersonal cats |}
        else
          {| official := official cats; normal := normal cats; hidden := hidden cats;
             secret := secret cats ++ [rid]; deleted := deleted cats;
             personal := personal cats; deletedPersonal := deletedPersonal cats |}
    end.

(** The body of the loop, on the categories and [atLeastOne]. *)
Definition visit (opts : option jsstring) (acc : Categories * bool) (rid : jsstring)
  : Categories * bool :=
  if passedOver (Rooms_get rid) then acc
  else (categorize opts acc.1 rid, true).

(** [listCategorized(user, opts)], on the listing of [logs/chat]; [None]
    is [null]. *)
Definition listCategorized (opts : option jsstring) (listing : Datatypes.list jsstring)
  : option Categories :=
  let '(cats, atLeastOne) := foldl (visit opts) (noRooms, false) (list listing) in
  if negb atLeastOne then None else Some cats.

End ListCategorized.

End LogReader.

(** A listing of [logs/chat] and the rooms of a server, to run the log
    viewer on. *)
Module LogSample.

Definition lobby : LogReader.Room :=
  {| LogReader.roomid := js "lobby"; LogReader.auth_has := fun _ => false;
     LogReader.checkModjoin := fun _ => true; LogReader.isPrivate := JBool false;
     LogReader.isOfficial := true |}.

Definition upperstaff : LogReader.Room :=
  {| LogReader.roomid := js "upperstaff"; LogReader.auth_has := fun _ => false;
     LogReader.checkModjoin := fun _ => false; LogReader.isPrivate := JBool true;
     LogReader.isOfficial := false |}.

Definition Rooms_get (rid : jsstring) : option LogReader.Room :=
  if jseq rid (js "lobby") then Some lobby
  else if jseq rid (js "upperstaff") then Some upperstaff
  else None.

Definition listing : list jsstring :=
  [js "README.md"; js "lobby"; js "upperstaff"; js "oldroom"; js "groupchat-bob-tea"].

Definition driver : User := Sample.member (js "bob") [js "lock"].
Definition leader : User := Sample.member (js "amy") [js "lock"; js "rangeban"].

Definition shownToDriver : LogReader.Categories :=
  {| LogReader.official := [js "lobby"]; LogReader.normal := []; LogReader.hidden := [];
     LogReader.secret := []; LogReader.deleted := []; LogReader.personal := [];
     LogReader.deletedPersonal := [] |}.

End LogSample.

(** * Translations: [Chat.tr] in server/chat.ts *)

Module Translations.

(** A value interpolated into a translated string. The callers pass
    strings and counts; other values are not part of the model. *)
Inductive Key : Type :=
| KString (s : jsstring)
| KNumber (n : nat).

(** JavaScript truthiness of a key, and its conversion to a string. *)
Definition keyTruthy (k : Key) : bool :=
  match k with
  | KString s => negb (jseq s [])
  | KNumber n => negb (n =? 0)%nat
  end.

Definition keyText (k : Key) : jsstring :=
  match k with
  | KString s => s
  | KNumber n => decimal n
  end.

(** The argument [strings]: the array of a template literal, or a
    string. *)
Inductive Strings : Type :=
| Template (parts : list jsstring)
| Text (s : jsstring).

(** An entry of a translation table: the translated string and the
    labels of the gaps of the key and of the value. *)
Definition Entry : Type := jsstring * list jsstring * list jsstring.

(** What [tr] returns: a string, or the function that translates to
    [language]. *)
Inductive Result : Type :=
| Translated (s : jsstring)
| Translator (language : jsstring).

Definition GAP : jsstring := js "${}".

(** [s.split('${}')], with [cur] the piece that is being read. *)
Fixpoint splitGap (cur s : jsstring) : list jsstring :=
  match s with
  | [] => [cur]
  | c :: s' =>
      match s' with
      | d :: e :: rest =>
          if (c =? 36) && (d =? 123) && (e =? 125) then cur :: splitGap [] rest
          else splitGap (cur ++ [c]) s'
      | _ => splitGap (cur ++ [c]) s'
      end
  end.

(** [left.indexOf(label)], where [None] in [left] is [null] or a hole and
    the label [None] is [undefined]. *)
Fixpoint indexOfLabel (left : list (option jsstring)) (label : option jsstring) : option nat :=
  match left, label with
  | [], _ | _, None => None
  | val :: left', Some l =>
      if bool_decide (val = Some l) then Some O else S <$> indexOfLabel left' label
  end.

(** [left.findIndex(val => !!val)] *)
Fixpoint findTruthy (left : list (option jsstring)) : option nat :=
  match left with
  | [] => None
  | val :: left' =>
      match val with
      | Some (_ :: _) => Some O
      | _ => S <$> findTruthy left'
      end
  end.

(** [left[index] = null]; beyond its end the array grows by holes. *)
Definition setNull (index : nat) (left : list (option jsstring)) : list (option jsstring) :=
  if (index <? length left)%nat then <[index := None]> left
  else left ++ replicate (index - length left) None ++ [None].

(** The loop over [translated.split('${}').entries()], from the entry
    [i] on. *)
Fixpoint fill (pieces : list jsstring) (i : nat) (left : list (option jsstring))
    (valLabels : list jsstring) (keys : list Key) (reconstructed : jsstring) : jsstring :=
  match pieces with
  | [] => reconstructed
  | str :: pieces' =>
      let reconstructed := reconstructed ++ str in
      if default false (keyTruthy <$> keys !! i) then
        let index :=
          match indexOfLabel left (valLabels !! i) with
          | Some index => index
          | None => default i (findTruthy left)
          end in
        let reconstructed :=
          reconstructed ++ match keys !! index with
                           | Some k => keyText k
                           | None => js "undefined"
                           end in
        fill pieces' (S i) (setNull index left) valLabels keys reconstructed
      else fill pieces' (S i) left valLabels keys reconstructed
  end.

Section Tr.

Variable toID : jsstring -> jsstring.

(** [Chat.translations] and [Chat.translationsLoaded] *)
Variable translations : gmap jsstring (gmap jsstring Entry).
Variable translationsLoaded : bool.

(** [tr(language, strings, ...keys)] *)
Definition tr (language : option jsstring) (strings : Strings) (keys : list Key) : Error + Result :=
  let language :=
    match language with
    | Some l => if jseq l [] then js "english" else l
    | None => js "english"
    end in
  let language := toID language in
  let trString :=
    match strings with
    | Template parts => join GAP parts
    | Text s => s
    end in
  match translations !! language with
  | None =>
      if negb translationsLoaded then inr (Translated trString)
      else inl (PlainError (js "Trying to translate to a nonexistent language: " ++ language))
  | Some table =>
      let stringsLength :=
        match strings with
        | Template parts => length parts
        | Text s => length s
        end in
      if (stringsLength =? 0)%nat then inr (Translator language)
      else
        let '(translated, keyLabels, valLabels) := default ([], [], []) (table !! trString) in
        let translated := if jseq translated [] then trString else translated in
        match keys with
        | [] => inr (Translated translated)
        | _ :: _ =>
            inr (Translated (fill (splitGap [] translated) 0 (Some <$> keyLabels) valLabels keys []))
        end
  end.

End Tr.

End Translations.


(** * Properties *)

#[local] Arguments N.eqb : simpl never.
#[local] Arguments N.leb : simpl never.

(** ** Facts about JavaScript strings *)

Lemma jseq_true (a b : jsstring) : jseq a b = true <-> a = b.
Proof. unfold jseq. apply bool_decide_eq_true. Qed.

Lemma jseq_false (a b : jsstring) : jseq a b = false <-> a <> b.
Proof. unfold jseq. apply bool_decide_eq_false. Qed.

Lemma jseq_refl (a : jsstring) : jseq a a = true.
Proof. by apply jseq_true. Qed.

Lemma trimStart_keeps (s : jsstring) (c : N) :
  isSpace c = false -> c ∈ s -> c ∈ trimStart s.
Proof.
  intros Hc. induction s as [|d s IH]; simpl; [done|].
  intros Hin. destruct (isSpace d) eqn:Hd; [|done].
  apply IH. apply elem_of_cons in Hin as [->|]; [congruence|done].
Qed.

Lemma trim_keeps (s : jsstring) (c : N) :
  isSpace c = false -> c ∈ s -> c ∈ trim s.
Proof.
  intros Hc Hin. unfold trim, trimEnd.
  apply elem_of_reverse, trimStart_keeps; [done|].
  apply elem_of_reverse. by apply trimStart_keeps.
Qed.

Lemma trim_not_blank (s : jsstring) (c : N) :
  isSpace c = false -> c ∈ s -> jseq (trim s) [] = false.
Proof.
  intros Hc Hin. apply jseq_false. intros Heq.
  pose proof (trim_keeps s c Hc Hin) as H. rewrite Heq in H. by apply elem_of_nil in H.
Qed.

Lemma indexOf_absent (p x : jsstring) (c : N) :
  Forall (fun d => d <> c) p -> indexOf (p ++ c :: x) c = Z.of_nat (length p).
Proof.
  induction 1 as [|d p Hd _ IH]; simpl.
  - by rewrite N.eqb_refl.
  - apply N.eqb_neq in Hd. rewrite Hd, IH.
    destruct (Z.ltb_spec (Z.of_nat (length p)) 0); lia.
Qed.

Lemma indexOf_none (p : jsstring) (c : N) :
  Forall (fun d => d <> c) p -> indexOf p c = (-1)%Z.
Proof.
  induction 1 as [|d p Hd _ IH]; simpl; [reflexivity|].
  apply N.eqb_neq in Hd. rewrite Hd, IH. reflexivity.
Qed.

(** ** Verbs *)

Lemma isVerb_chars (v : jsstring) :
  isVerb v = true -> v <> [] /\ Forall (fun ch => isLower ch || isDigit ch = true) v.
Proof.
  unfold isVerb. intros [Hne Hall]%andb_true_iff. split.
  - apply jseq_false. by destruct (jseq v []).
  - apply Forall_forall. intros ch Hin. rewrite forallb_forall in Hall.
    apply Hall. by apply list_elem_of_In.
Qed.

Ltac cmp_cases :=
  repeat match goal with
         | |- context [N.leb ?a ?b] => destruct (N.leb_spec a b)
         | |- context [N.eqb ?a ?b] => destruct (N.eqb_spec a b)
         end;
  simpl in *; try lia; try reflexivity; try discriminate.

Lemma verb_char_range (ch : N) :
  isLower ch || isDigit ch = true <-> (97 <= ch <= 122 \/ 48 <= ch <= 57).
Proof.
  unfold isLower, isDigit. split.
  - intros H. revert H. cmp_cases.
  - intros H. cmp_cases.
Qed.

(** Settle every comparison of the goal by linear arithmetic. *)
Ltac cmp_decide :=
  repeat match goal with
         | |- context [N.eqb ?a ?b] =>
             first [ replace (N.eqb a b) with false by (symmetry; apply N.eqb_neq; lia)
                   | replace (N.eqb a b) with true by (symmetry; apply N.eqb_eq; lia) ]
         | |- context [N.leb ?a ?b] =>
             first [ replace (N.leb a b) with false by (symmetry; apply N.leb_gt; lia)
                   | replace (N.leb a b) with true by (symmetry; apply N.leb_le; lia) ]
         end.

Lemma verb_char_facts (ch : N) :
  isLower ch || isDigit ch = true ->
  ch <> SPACE /\ ch <> COMMA /\ ch <> 47 /\ ch <> 33 /\ ch <> 62 /\ ch <> 77 /\
  isAlnum ch = true /\ isSpace ch = false.
Proof.
  intros H%verb_char_range.
  unfold isAlnum, isLower, isDigit, isUpper, isSpace, SPACE, COMMA.
  destruct H as [H|H]; repeat split; try lia; cmp_decide; reflexivity.
Qed.

(** Turn the string literals of the goal into their code units. *)
Ltac js_literals :=
  repeat match goal with
         | |- context [js ?s] =>
             let v := eval vm_compute in (js s) in change (js s) with v
         end.

Section ResolverFacts.

Variable toLowerCase : jsstring -> jsstring.
Variable commands : gmap jsstring value.
Variable groups : list (jsstring * Group).




Lemma hardcoded_verb (tok : N) (V rest target : jsstring) :
  tok = 47 \/ tok = 33 -> isVerb V = true -> Tail rest target ->
  hardcoded (tok :: V ++ rest) = tok :: V ++ rest.
Proof.
  intros Htok [Hne Hall]%isVerb_chars Hrest. unfold hardcoded, SPACE. js_literals.
  destruct Htok as [-> | ->]; [|reflexivity].
  destruct V as [|v0 V]; [done|].
  apply Forall_cons in Hall as [H0 Hall].
  apply verb_char_facts in H0 as (_ & _ & _ & _ & _ & HM & _).
  replace (startsWith (47 :: (v0 :: V) ++ rest) [47; 77; 69]) with false
    by (simpl; destruct (N.eqb_spec 77 v0); [congruence|reflexivity]).
  simpl. destruct (N.eqb_spec 109 v0) as [<-|]; [|reflexivity].
  destruct V as [|v1 V]; simpl.
  { destruct Hrest; reflexivity. }
  destruct (N.eqb_spec 101 v1) as [<-|]; [|reflexivity].
  apply Forall_cons in Hall as [_ Hall].
  destruct V as [|v2 V]; simpl.
  { destruct Hrest; reflexivity. }
  apply Forall_cons in Hall as [H2 _].
  apply verb_char_facts in H2 as (_ & _ & _ & _ & _ & _ & H2 & _).
  unfold charAt. simpl. by rewrite H2.
Qed.

Lemma endsWith_comma_verb (V : jsstring) :
  Forall (fun ch => isLower ch || isDigit ch = true) V -> endsWith V [COMMA] = false.
Proof.
  intros Hall. unfold endsWith. change (reverse [COMMA]) with [COMMA].
  destruct (reverse V) as [|c R] eqn:HR; [reflexivity|]. simpl.
  assert (Hc : c ∈ V) by (apply elem_of_reverse; rewrite HR; left).
  rewrite Forall_forall in Hall.
  destruct (verb_char_facts c (Hall c Hc)) as (_ & Hcomma & _).
  destruct (N.eqb_spec COMMA c); [congruence|reflexivity].
Qed.

Lemma tokenize_verb (tok : N) (V rest target : jsstring) :
  tok = 47 \/ tok = 33 -> isVerb V = true -> toLowerCase V = V -> Tail rest target ->
  tokenize toLowerCase (tok :: V ++ rest) = Some ([tok], V, target).
Proof.
  intros Htok HV Hlow Hrest. unfold tokenize.
  assert (Hsp : isSpace tok = false) by (destruct Htok as [-> | ->]; reflexivity).
  rewrite (trim_not_blank _ tok Hsp) by left.
  rewrite (hardcoded_verb tok V rest target) by done.
  destruct (isVerb_chars V HV) as [Hne Hall].
  destruct V as [|v0 V'] eqn:EV; [done|].
  assert (H0 : isLower v0 || isDigit v0 = true) by (by apply Forall_cons in Hall as [? _]).
  destruct (verb_char_facts v0 H0) as (_ & _ & H47 & H33 & _ & _ & Haln & _).
  change (charAt (tok :: (v0 :: V') ++ rest) 0) with [tok].
  change (charAt (tok :: (v0 :: V') ++ rest) 1) with [v0].
  replace (includes VALID_COMMAND_TOKENS [tok]) with true
    by (destruct Htok as [-> | ->]; reflexivity).
  replace (jseq [tok] [v0]) with false
    by (symmetry; apply jseq_false; destruct Htok as [-> | ->]; congruence).
  replace (testClass (fun c => negb (isAlnum c)) [v0]) with false
    by (simpl; by rewrite Haln).
  rewrite andb_false_r. cbn [negb]. rewrite <- EV in *. clear EV.
  assert (Hnosp : Forall (fun d => d <> SPACE) (tok :: V)).
  { constructor; [destruct Htok as [-> | ->]; done|].
    eapply Forall_impl; [exact Hall|]. intros ch Hch. by apply verb_char_facts in Hch as (? & _). }
  destruct Hrest as [|x].
  - rewrite app_nil_r. rewrite indexOf_none by done. cbn [Z.ltb Z.compare].
    unfold sliceFrom. cbn [drop]. rewrite drop_0, Hlow.
    by rewrite endsWith_comma_verb.
  - change (tok :: V ++ 32 :: x) with ((tok :: V) ++ SPACE :: x).
    rewrite indexOf_absent by done.
    replace (0 <? Z.of_nat (length (tok :: V)))%Z with true by (symmetry; apply Z.ltb_lt; simpl; lia).
    rewrite Nat2Z.id. unfold slice, sliceFrom. cbn [length drop app]. rewrite drop_0.
    replace (S (length V) - 1)%nat with (length V) by lia.
    rewrite take_app_length. rewrite Hlow.
    replace (S (length V) + 1)%nat with (S (length V + 1)) by lia. cbn [drop].
    rewrite endsWith_comma_verb by done.
    replace (length V + 1)%nat with (length (V ++ [SPACE])) by (rewrite length_app; simpl; lia).
    by rewrite (cons_middle SPACE V x), app_assoc, drop_app_length.
Qed.


Lemma parseCommandN_S (calls : nat) (message : jsstring) (recursing : bool) :
  parseCommandN toLowerCase commands groups (S calls) message recursing =
  match tokenize toLowerCase message with
  | None => ResNull
  | Some (cmdToken, cmd, target) =>
      resolved groups (fun message' => parseCommandN toLowerCase commands groups calls message' true)
        cmdToken recursing
        (walk toLowerCase (S (depth (VTable commands))) recursing (VTable commands) cmd target cmd)
  end.
Proof. reflexivity. Qed.

Lemma getProp_table (t : gmap jsstring value) (k : jsstring) (v : value) :
  t !! k = Some v -> getProp (VTable t) k = v.
Proof. intros H. cbn [getProp]. by rewrite H. Qed.

(** The loop stops at once on a handler, reached directly or through one
    alias. *)
Lemma walk_handler (fuel : nat) (recursing : bool) (t : gmap jsstring value)
    (cmd target full : jsstring) (h : AnnotatedChatHandler) :
  (t !! cmd = Some (VHandler h) \/
   exists W, t !! cmd = Some (VString W) /\ t !! W = Some (VHandler h)) ->
  walk toLowerCase (S fuel) recursing (VTable t) cmd target full =
  WalkDone (VHandler h) (VTable t) cmd target full.
Proof.
  intros [H|(W & H & HW)]; cbn [walk]; rewrite (getProp_table _ _ _ H).
  - reflexivity.
  - by rewrite (getProp_table _ _ _ HW).
Qed.

(** The loop asks for the [help] redirect on an array that the verb
    names directly, unless [recursing] is set. *)
Lemma walk_help (fuel : nat) (t : gmap jsstring value) (cmd target full : jsstring)
    (lines : list jsstring) :
  t !! cmd = Some (VArray lines) ->
  walk toLowerCase (S fuel) false (VTable t) cmd target full = WalkHelp full.
Proof. intros H. cbn [walk]. by rewrite (getProp_table _ _ _ H). Qed.

(** *** The loop ends *)

Lemma depth_lookup (t : gmap jsstring value) (k : jsstring) (v : value) :
  t !! k = Some v -> (depth v < depth (VTable t))%nat.
Proof.
  intros Hk. cbn [depth].
  rewrite (map_fold_delete_L _ _ k v t); [lia| |done].
  intros. lia.
Qed.

Lemma getProp_object_depth (cur : value) (k : jsstring) :
  isObject (getProp cur k) = true -> (depth (getProp cur k) < depth cur)%nat.
Proof.
  destruct cur as [| | | |lines|t]; cbn [getProp]; try discriminate.
  - destruct (arrayIndex k (length lines)) as [i|].
    + destruct (lines !! i); discriminate.
    + destruct (jseq k (js "length")); discriminate.
  - destruct (t !! k) as [v|] eqn:Hk; [|discriminate].
    intros _. by apply depth_lookup in Hk.
Qed.

(** The entry that one run of the loop settles on: the alias is followed
    once. *)
Lemma alias_object_depth (cur : value) (k : jsstring) :
  let found := getProp cur k in
  let commandHandler := match found with VString s => getProp cur s | _ => found end in
  isObject commandHandler = true -> (depth commandHandler < depth cur)%nat.
Proof.
  cbv zeta. destruct (getProp cur k) eqn:Hk; try discriminate.
  - apply getProp_object_depth.
  - intros _. rewrite <- Hk. apply getProp_object_depth. by rewrite Hk.
  - intros _. rewrite <- Hk. apply getProp_object_depth. by rewrite Hk.
Qed.

Lemma walk_enough_fuel (fuel : nat) (recursing : bool) (cur : value)
    (cmd target full : jsstring) :
  (depth cur < fuel)%nat -> walk toLowerCase fuel recursing cur cmd target full <> WalkFuel.
Proof.
  revert cur cmd target full.
  induction fuel as [|fuel IH]; intros cur cmd target full Hd; [lia|].
  cbn [walk]. pose proof (alias_object_depth cur cmd) as Hobj. cbv zeta in Hobj.
  destruct (match getProp cur cmd with VArray _ => negb recursing | _ => false end); [done|].
  set (commandHandler := match getProp cur cmd with VString s => getProp cur s | _ => getProp cur cmd end) in *.
  destruct (isTruthy commandHandler && isObject commandHandler) eqn:Hgo; [|done].
  apply andb_true_iff in Hgo as [_ Hgo]. specialize (Hobj Hgo).
  destruct (nextVerb toLowerCase target) as [cmd' target']. apply IH. lia.
Qed.

(** With [recursing] set the loop never asks for the [help] redirect. *)
Lemma walk_recursing_no_help (fuel : nat) (cur : value) (cmd target full : jsstring) (f : jsstring) :
  walk toLowerCase fuel true cur cmd target full <> WalkHelp f.
Proof.
  revert cur cmd target full.
  induction fuel as [|fuel IH]; intros cur cmd target full; [done|].
  cbn [walk].
  replace (match getProp cur cmd with VArray _ => negb true | _ => false end) with false
    by (by destruct (getProp cur cmd)).
  destruct (isTruthy _ && isObject _); [|done].
  destruct (nextVerb toLowerCase target) as [cmd' target']. apply IH.
Qed.

Lemma parseCommandN_recursing (calls : nat) (message : jsstring) :
  parseCommandN toLowerCase commands groups (S calls) message true =
  parseCommandN toLowerCase commands groups 1 message true /\
  parseCommandN toLowerCase commands groups 1 message true <> ResFuel.
Proof.
  cbn [parseCommandN]. destruct (tokenize toLowerCase message) as [[[cmdToken cmd] target]|]; [|done].
  pose proof (walk_enough_fuel (S (depth (VTable commands))) true (VTable commands) cmd target cmd
                ltac:(lia)) as Hfuel.
  pose proof (walk_recursing_no_help (S (depth (VTable commands))) (VTable commands) cmd target cmd)
    as Hhelp.
  destruct (walk _ _ _ _ _ _ _) as [f|h cur c t f|]; [by destruct (Hhelp f)| |done].
  unfold resolved. rewrite andb_false_r. done.
Qed.

Lemma parseCommandN_total (message : jsstring) (recursing : bool) :
  parseCommandN toLowerCase commands groups 2 message recursing <> ResFuel.
Proof.
  destruct recursing.
  { rewrite (proj1 (parseCommandN_recursing 1 message)). apply (parseCommandN_recursing 0). }
  cbn [parseCommandN]. destruct (tokenize toLowerCase message) as [[[cmdToken cmd] target]|]; [|done].
  pose proof (walk_enough_fuel (S (depth (VTable commands))) false (VTable commands) cmd target cmd
                ltac:(lia)) as Hfuel.
  destruct (walk _ _ _ _ _ _ _) as [f|h cur c t f|]; [| |done]; unfold resolved.
  - apply (parseCommandN_recursing 0).
  - destruct (if negb _ && negb false then _ else _); [apply (parseCommandN_recursing 0)|done].
Qed.

End ResolverFacts.

Section Resolution.

Variable toLowerCase : jsstring -> jsstring.
Variable commands : gmap jsstring value.
Variable groups : list (jsstring * Group).

Lemma tokenize_doubled (tok : N) (rest : jsstring) :
  tok = 47 \/ tok = 33 -> tokenize toLowerCase (tok :: tok :: rest) = None.
Proof.
  intros Htok. unfold tokenize.
  destruct (jseq (trim (tok :: tok :: rest)) []); [reflexivity|].
  assert (Hsame : hardcoded (tok :: tok :: rest) = tok :: tok :: rest).
  { unfold hardcoded. js_literals. destruct Htok as [-> | ->]; reflexivity. }
  rewrite Hsame. change (charAt (tok :: tok :: rest) 0) with [tok].
  change (charAt (tok :: tok :: rest) 1) with [tok].
  rewrite jseq_refl. by destruct (negb (includes VALID_COMMAND_TOKENS [tok])).
Qed.

(** A verb whose entry is a handler, or an alias of a handler, resolves
    to that handler under the verb as typed. *)
Lemma parseCommand_verb (tok : N) (V rest target : jsstring) (h : AnnotatedChatHandler) :
  tok = 47 \/ tok = 33 -> isVerb V = true -> toLowerCase V = V -> Tail rest target ->
  (commands !! V = Some (VHandler h) \/
   exists W, commands !! V = Some (VString W) /\ commands !! W = Some (VHandler h)) ->
  parseCommand toLowerCase commands groups (tok :: V ++ rest) false =
  Some {| d_cmd := V; d_cmdToken := [tok]; d_target := target; d_fullCmd := V;
          d_handler := VHandler h |}.
Proof.
  intros Htok HV Hlow Hrest Hentry. unfold parseCommand.
  rewrite parseCommandN_S, (tokenize_verb toLowerCase tok V rest target) by done.
  by rewrite (walk_handler toLowerCase _ _ _ _ _ _ h).
Qed.


Lemma parseCommand_help (tok : N) (V rest target : jsstring) (lines : list jsstring) :
  tok = 47 \/ tok = 33 -> isVerb V = true -> toLowerCase V = V -> Tail rest target ->
  commands !! V = Some (VArray lines) ->
  parseCommand toLowerCase commands groups (tok :: V ++ rest) false =
  parseCommand toLowerCase commands groups ([tok] ++ js "help " ++ sliceEnd V 4) true.
Proof.
  intros Htok HV Hlow Hrest Hentry. unfold parseCommand.
  rewrite (proj1 (parseCommandN_recursing toLowerCase commands groups 1 _)).
  rewrite parseCommandN_S, (tokenize_verb toLowerCase tok V rest target) by done.
  by rewrite (walk_help toLowerCase _ _ _ _ _ lines).
Qed.

End Resolution.

(** C6, as amended: when the entry of verb [V] is the alias string
    naming verb [W] and the entry of [W] is a handler, [parseCommand]
    gives [/V x] and [/W x] descriptors with the same token, the same
    target and the same handler; [cmd] and [fullCmd] hold the verb as it
    was typed, [V] in the one and [W] in the other. *)
Theorem alias_resolves_to_handler (toLowerCase : jsstring -> jsstring)
    (commands : gmap jsstring value) (groups : list (jsstring * Group))
    (V W x : jsstring) (h : AnnotatedChatHandler) :
  isVerb V = true -> isVerb W = true -> toLowerCase V = V -> toLowerCase W = W ->
  commands !! V = Some (VString W) -> commands !! W = Some (VHandler h) ->
  parseCommand toLowerCase commands groups (js "/" ++ V ++ js " " ++ x) false =
    Some {| d_cmd := V; d_cmdToken := js "/"; d_target := trim x; d_fullCmd := V;
            d_handler := VHandler h |} /\
  parseCommand toLowerCase commands groups (js "/" ++ W ++ js " " ++ x) false =
    Some {| d_cmd := W; d_cmdToken := js "/"; d_target := trim x; d_fullCmd := W;
            d_handler := VHandler h |}.
Proof.
  intros HV HW HlV HlW HeV HeW. split.
  - apply (parseCommand_verb toLowerCase commands groups 47 V (32 :: x) (trim x) h);
      [by left|done|done|constructor|right; eauto].
  - apply (parseCommand_verb toLowerCase commands groups 47 W (32 :: x) (trim x) h);
      [by left|done|done|constructor|by left].
Qed.

Lemma alias_resolves_to_handler_witness :
  (isVerb (js "v") = true /\ isVerb (js "w") = true /\
   Sample.lowerAscii (js "v") = js "v" /\ Sample.lowerAscii (js "w") = js "w" /\
   Sample.aliasTable !! js "v" = Some (VString (js "w")) /\
   Sample.aliasTable !! js "w" = Some (VHandler (Sample.replies (js "done")))) /\
  parseCommand Sample.lowerAscii Sample.aliasTable Sample.groups0 (js "/v pikachu") false =
    Some {| d_cmd := js "v"; d_cmdToken := js "/"; d_target := js "pikachu"; d_fullCmd := js "v";
            d_handler := VHandler (Sample.replies (js "done")) |}.
Proof.
  split; [by vm_compute|].
  apply (alias_resolves_to_handler Sample.lowerAscii Sample.aliasTable Sample.groups0
           (js "v") (js "w") (js "pikachu") (Sample.replies (js "done"))); by vm_compute.
Defined.

(** The claim of C6, as stated, fails: with [v] an alias of the handler
    [w], the descriptors of [/v x] and [/w x] differ in [cmd] and in
    [fullCmd]; and with [u] an alias of the alias [v], the descriptor of
    [/u x] holds the string [w] where that of [/v x] holds the handler. *)
Lemma alias_descriptor_keeps_typed_verb :
  let resolve text := parseCommand Sample.lowerAscii Sample.aliasTable Sample.groups0 text false in
  Sample.aliasTable !! js "v" = Some (VString (js "w")) /\
  d_cmd <$> resolve (js "/v x") = Some (js "v") /\
  d_cmd <$> resolve (js "/w x") = Some (js "w") /\
  d_fullCmd <$> resolve (js "/v x") = Some (js "v") /\
  d_fullCmd <$> resolve (js "/w x") = Some (js "w") /\
  resolve (js "/v x") <> resolve (js "/w x") /\
  Sample.aliasTable !! js "u" = Some (VString (js "v")) /\
  d_handler <$> resolve (js "/u x") = Some (VString (js "w")) /\
  d_handler <$> resolve (js "/v x") = Some (VHandler (Sample.replies (js "done"))).
Proof.
  cbv zeta. repeat split; try (vm_compute; reflexivity).
  intros H. apply (f_equal (fmap d_cmd)) in H. vm_compute in H. discriminate H.
Qed.

(** *** Help arrays inside namespaces *)

Section HelpPaths.

Variable toLowerCase : jsstring -> jsstring.
Variable commands : gmap jsstring value.
Variable groups : list (jsstring * Group).












(** With [recursing] set, a verb whose entry is a handler resolves to
    that handler as it does without. *)
Lemma parseCommand_again (tok : N) (V rest target : jsstring) (h : AnnotatedChatHandler) :
  tok = 47 \/ tok = 33 -> isVerb V = true -> toLowerCase V = V -> Tail rest target ->
  commands !! V = Some (VHandler h) ->
  parseCommand toLowerCase commands groups (tok :: V ++ rest) true =
  Some {| d_cmd := V; d_cmdToken := [tok]; d_target := target; d_fullCmd := V;
          d_handler := VHandler h |}.
Proof.
  intros Htok HV Hlow Hrest Hentry. unfold parseCommand.
  rewrite parseCommandN_S, (tokenize_verb toLowerCase tok V rest target) by done.
  by rewrite (walk_handler toLowerCase _ _ _ _ _ _ h) by (by left).
Qed.



End HelpPaths.



(** The three cases on a small server: the help lines of a command, the
    help lines of a command inside a namespace, and [help] being an
    array itself. *)
Lemma help_redirect_examples :
  parseCommand Sample.lowerAscii Sample.helpTable Sample.groups0 (js "/whelp") false =
    Some {| d_cmd := js "help"; d_cmdToken := js "/"; d_target := js "w";
            d_fullCmd := js "help"; d_handler := VHandler (Sample.replies (js "help")) |} /\
  parseCommand Sample.lowerAscii Sample.helpTable Sample.groups0 (js "!tour createhelp") false =
    Some {| d_cmd := js "help"; d_cmdToken := js "!"; d_target := js "tour create";
            d_fullCmd := js "help"; d_handler := VHandler (Sample.replies (js "help")) |} /\
  parseCommand Sample.lowerAscii Sample.loopTable Sample.groups0 (js "/help") false =
    Some {| d_cmd := []; d_cmdToken := js "/"; d_target := [];
            d_fullCmd := js "help "; d_handler := VUndefined |}.
Proof. repeat split; vm_compute; reflexivity. Qed.

(** ** The filter chain *)

Section FilterFacts.

Variables (c : CommandContext) (room targetUser : option jsstring) (orig : jsstring).

Lemma log_emit (e : Event) (w : World) : log (emit e w) = log w ++ [e].
Proof. reflexivity. Qed.

(** The loop only adds calls of filters to the log, and never hands an
    empty text to a filter unless it was given one. *)
Lemma filterFrom_calls (fs : list ChatFilter) (index : nat) (text : jsstring) (w : World) :
  exists calls,
    log (filterFrom fs index c text room targetUser orig w).2 = log w ++ calls /\
    Forall (fun e => exists i t, e = CallFilter i t orig /\ (text <> [] -> t <> [])) calls.
Proof.
  revert index text w. induction fs as [|f fs IH]; intros index text w; cbn [filterFrom].
  { exists []. by rewrite app_nil_r. }
  assert (Hhead : Forall (fun e => exists i t, e = CallFilter i t orig /\ (text <> [] -> t <> []))
                    [CallFilter index text orig]) by (repeat constructor; eauto).
  destruct (f c w text room targetUser orig) as [| | |s].
  1,2: exists [CallFilter index text orig]; by split.
  - destruct (IH (S index) text (emit (CallFilter index text orig) w)) as (calls & Hlog & Hall).
    exists (CallFilter index text orig :: calls). split.
    + by rewrite Hlog, log_emit, <- app_assoc.
    + apply Forall_cons. split; [by apply Forall_inv in Hhead|done].
  - destruct (jseq s []) eqn:Hs; [exists [CallFilter index text orig]; by split|].
    apply jseq_false in Hs.
    destruct (IH (S index) s (emit (CallFilter index text orig) w)) as (calls & Hlog & Hall).
    exists (CallFilter index text orig :: calls). split.
    + by rewrite Hlog, log_emit, <- app_assoc.
    + apply Forall_cons. split; [by apply Forall_inv in Hhead|].
      eapply Forall_impl; [exact Hall|]. intros e (i & t & -> & Ht). eauto.
Qed.

(** Filters that let the message go on hand it to the rest of the chain. *)
Lemma filterFrom_app (fs1 fs2 : list ChatFilter) (index : nat) (text text' : jsstring)
    (w w' : World) :
  passes fs1 index c text room targetUser orig w = Some (text', w') ->
  filterFrom (fs1 ++ fs2) index c text room targetUser orig w =
  filterFrom fs2 (index + length fs1) c text' room targetUser orig w'.
Proof.
  revert index text w. induction fs1 as [|f fs1 IH]; intros index text w; cbn [passes app filterFrom length].
  { intros [= -> ->]. by rewrite Nat.add_0_r. }
  destruct (f c w text room targetUser orig) as [| | |s]; try discriminate.
  - intros H. rewrite (IH _ _ _ H). f_equal. lia.
  - destruct (jseq s []); [discriminate|]. intros H. rewrite (IH _ _ _ H). f_equal. lia.
Qed.

End FilterFacts.

(** C4, as amended: in a chain of at least two filters, a first filter
    that returns [false] makes [Chat.filter] return [null] after that one
    call, whatever the second filter is; a first filter that returns a
    replacement string that is not empty makes the second filter the
    next one called, with the replacement as its message. *)
Theorem first_filter_decides (srv : Server) (c : CommandContext) (text : jsstring)
    (room targetUser : option jsstring) (w : World) (f1 f2 : ChatFilter) (rest : list ChatFilter) :
  filters srv = f1 :: f2 :: rest ->
  (f1 c w text room targetUser text = OutFalse ->
   Chat_filter srv c text room targetUser w = (JNull, emit (CallFilter 0 text text) w)) /\
  (forall s, f1 c w text room targetUser text = OutString s -> s <> [] ->
   Chat_filter srv c text room targetUser w =
     filterFrom (f2 :: rest) 1 c s room targetUser text (emit (CallFilter 0 text text) w) /\
   exists calls,
     log (Chat_filter srv c text room targetUser w).2 =
     log w ++ CallFilter 0 text text :: CallFilter 1 s text :: calls).
Proof.
  intros Hfs. unfold Chat_filter. rewrite Hfs. split.
  - intros H1. cbn [filterFrom]. by rewrite H1.
  - intros s H1 Hs. apply jseq_false in Hs.
    assert (Hstep : filterFrom (f1 :: f2 :: rest) 0 c text room targetUser text w =
                    filterFrom (f2 :: rest) 1 c s room targetUser text
                      (emit (CallFilter 0 text text) w)).
    { cbn [filterFrom]. by rewrite H1, Hs. }
    split; [exact Hstep|]. rewrite Hstep. cbn [filterFrom].
    set (w1 := emit (CallFilter 1 s text) (emit (CallFilter 0 text text) w)).
    assert (Hw1 : log w1 = log w ++ [CallFilter 0 text text; CallFilter 1 s text])
      by (unfold w1; by rewrite !log_emit, <- app_assoc).
    destruct (f2 c (emit (CallFilter 0 text text) w) s room targetUser text) as [| | |s2].
    1,2: exists []; exact Hw1.
    + destruct (filterFrom_calls c room targetUser text rest 2 s w1) as (calls & Hlog & _).
      exists calls. by rewrite Hlog, Hw1, <- app_assoc.
    + destruct (jseq s2 []); [exists []; exact Hw1|].
      destruct (filterFrom_calls c room targetUser text rest 2 s2 w1) as (calls & Hlog & _).
      exists calls. by rewrite Hlog, Hw1, <- app_assoc.
Qed.

Lemma first_filter_decides_witness :
  let srv := Sample.server ∅ [Sample.censor; Sample.shout] in
  let c := Sample.typed (js "hello") (js "bob") (js "tech") (Sample.world Sample.voiced (Sample.plainRoom (js "bob") false)) in
  let w := Sample.world Sample.voiced (Sample.plainRoom (js "bob") false) in
  filters srv = [Sample.censor; Sample.shout] /\
  Chat_filter srv c (js "hello") (Some (js "tech")) None w =
    filterFrom [Sample.shout] 1 c (js "***") (Some (js "tech")) None (js "hello")
      (emit (CallFilter 0 (js "hello") (js "hello")) w).
Proof.
  split; [reflexivity|].
  apply (first_filter_decides (Sample.server ∅ [Sample.censor; Sample.shout]) _ (js "hello")
           (Some (js "tech")) None _ Sample.censor Sample.shout [] eq_refl); [reflexivity|].
  vm_compute. discriminate.
Defined.

(** The claim of C4, as stated, fails when the replacement is the empty
    string: the second filter is never called. *)
Lemma empty_replacement_skips_second_filter :
  let srv := Sample.server ∅ [Sample.blank; Sample.shout] in
  let w := Sample.world Sample.voiced (Sample.plainRoom (js "bob") false) in
  let c := Sample.typed (js "hello") (js "bob") (js "tech") w in
  Sample.blank c w (js "hello") (Some (js "tech")) None (js "hello") = OutString [] /\
  (Chat_filter srv c (js "hello") (Some (js "tech")) None w).1 = JString [] /\
  log (Chat_filter srv c (js "hello") (Some (js "tech")) None w).2 =
    [CallFilter 0 (js "hello") (js "hello")].
Proof. repeat split. Qed.

(** C10: when a filter of the chain returns the empty string,
    [Chat.filter] stops at that filter and returns the empty string, which
    is falsy; no later filter is called; [parse] sends no chat message for
    it; and a chain started on a text that is not empty never hands an
    empty text to a filter. *)
Theorem empty_filter_output_suppresses (srv : Server) (c : CommandContext) (text : jsstring)
    (room targetUser : option jsstring) (w : World)
    (fs1 : list ChatFilter) (f : ChatFilter) (fs2 : list ChatFilter)
    (text' : jsstring) (w' : World) :
  filters srv = fs1 ++ f :: fs2 ->
  passes fs1 0 c text room targetUser text w = Some (text', w') ->
  f c w' text' room targetUser text = OutString [] ->
  Chat_filter srv c text room targetUser w =
    (JString [], emit (CallFilter (length fs1) text' text) w') /\
  truthy (JString []) = false /\
  (forall t0 c0 w0,
     conclude t0 (Returned (JString []) c0 w0) = Returned (JString []) c0 (update c0 w0)) /\
  (text <> [] ->
   exists calls,
     log (Chat_filter srv c text room targetUser w).2 = log w ++ calls /\
     Forall (fun e => exists i t, e = CallFilter i t text /\ t <> []) calls).
Proof.
  intros Hfs Hpass Hf. unfold Chat_filter. rewrite Hfs. repeat split.
  - rewrite (filterFrom_app c room targetUser text fs1 (f :: fs2) 0 text text' w w' Hpass).
    cbn [filterFrom]. by rewrite Hf.
  - intros Htext.
    destruct (filterFrom_calls c room targetUser text (fs1 ++ f :: fs2) 0 text w)
      as (calls & Hlog & Hall).
    exists calls. split; [exact Hlog|].
    eapply Forall_impl; [exact Hall|]. intros e (i & t & -> & Ht). eauto.
Qed.

Lemma empty_filter_output_suppresses_witness :
  let srv := Sample.server ∅ [Sample.shout; Sample.blank; Sample.censor] in
  let w := Sample.world Sample.voiced (Sample.plainRoom (js "bob") false) in
  let c := Sample.typed (js "hello") (js "bob") (js "tech") w in
  let w' := emit (CallFilter 0 (js "hello") (js "hello")) w in
  (filters srv = [Sample.shout] ++ Sample.blank :: [Sample.censor] /\
   passes [Sample.shout] 0 c (js "hello") (Some (js "tech")) None (js "hello") w =
     Some (js "hello!", w') /\
   Sample.blank c w' (js "hello!") (Some (js "tech")) None (js "hello") = OutString []) /\
  Chat_filter srv c (js "hello") (Some (js "tech")) None w =
    (JString [], emit (CallFilter 1 (js "hello!") (js "hello")) w').
Proof.
  split; [repeat split|].
  apply (empty_filter_output_suppresses
           (Sample.server ∅ [Sample.shout; Sample.blank; Sample.censor]) _ (js "hello")
           (Some (js "tech")) None _ [Sample.shout] Sample.blank [Sample.censor]
           (js "hello!") _ eq_refl eq_refl eq_refl).
Defined.

(** ** Gates *)

Lemma silent_pass {A : Type} (a : A) : silent (pass a).
Proof. by intros w a' w' [= _ ->]. Qed.

Lemma silent_refuse {A : Type} (say : World -> World) : silent (refuse (A := A) say).
Proof. by intros w a w' [=]. Qed.

Lemma silent_refuseIf (cond : bool) (say : World -> World) : silent (refuseIf cond say).
Proof. unfold refuseIf. destruct cond; [apply silent_refuse|apply silent_pass]. Qed.

Lemma silent_andThen {A B : Type} (m : Gate A) (k : A -> Gate B) :
  silent m -> (forall a, silent (k a)) -> silent (andThen m k).
Proof.
  intros Hm Hk w b w' H. unfold andThen in H.
  destruct (m w) as [[a|] w1] eqn:Hmw; [|discriminate].
  apply Hm in Hmw as ->. by apply (Hk a) in H.
Qed.

Ltac silent_gate :=
  repeat first
    [ apply silent_andThen; [|intros ?]
    | apply silent_refuseIf
    | apply silent_refuse
    | apply silent_pass
    | match goal with |- silent (match ?x with _ => _ end) => destruct x end ].

Section TalkFacts.

Variable srv : Server.

Lemma silent_talkInRoom c user rid room : silent (talkInRoom srv c user rid room).
Proof. unfold talkInRoom. silent_gate. Qed.

Lemma silent_talkToUser c user tid target : silent (talkToUser srv c user tid target).
Proof. unfold talkToUser. silent_gate. Qed.

Lemma silent_mayTalk c room targetUser : silent (mayTalk srv c room targetUser).
Proof.
  intros w a w' H. unfold mayTalk in H. revert H. 
  apply silent_andThen; [apply silent_refuseIf|intros _].
  destruct (u_can _ _ _); [apply silent_pass|].
  apply silent_andThen; [|intros _].
  - destruct room; [apply silent_talkInRoom|apply silent_pass].
  - destruct targetUser; [apply silent_talkToUser|apply silent_pass].
Qed.

Lemma weightedLength_cons (ch : N) (s : jsstring) :
  weightedLength (ch :: s) = ((if (ch =? FDFD)%N then 11 else 1) + weightedLength s)%nat.
Proof.
  unfold weightedLength, keepClass. rewrite filter_cons.
  destruct (N.eqb_spec ch FDFD) as [->|Hne].
  - rewrite decide_True by reflexivity. simpl. lia.
  - rewrite decide_False by done. simpl. lia.
Qed.

Lemma weightedLength_flood (n : nat) : weightedLength (replicate n FDFD) = (11 * n)%nat.
Proof.
  induction n as [|n IH]; [reflexivity|].
  cbn [replicate]. rewrite weightedLength_cons, IH, N.eqb_refl. lia.
Qed.

Abbreviation tooLong c text := (trText srv c (js "Your message is too long: ") ++ text).

Lemma checkLength_spec (c : CommandContext) (user : User) (text : jsstring) (w : World) :
  u_can user (js "ignorelimits") None = false ->
  checkLength srv c user text w =
  if (300 <? weightedLength text)%nat then (None, errorReply c (tooLong c text) w) else (Some tt, w).
Proof.
  intros Hcan. unfold checkLength, refuseIf, MAX_MESSAGE_LENGTH. rewrite Hcan, andb_true_r.
  by destruct (300 <? weightedLength text)%nat.
Qed.

Lemma canTalk_too_long (c : CommandContext) (text : jsstring)
    (room targetUser : option jsstring) (now : Z) (w : World) :
  text <> [] -> u_can (users w (c_user c)) (js "ignorelimits") None = false ->
  (300 < weightedLength text)%nat ->
  (canTalk srv c (Some text) room targetUser now w).1 = JNull /\
  ((mayTalk srv c (talkRoom c room targetUser) (talkTarget c targetUser) w).1 = Some tt ->
   canTalk srv c (Some text) room targetUser now w = (JNull, errorReply c (tooLong c text) w)).
Proof.
  intros Htext Hcan Hlong. unfold canTalk.
  destruct (mayTalk srv c _ _ w) as [[[]|] w1] eqn:Hmay; [|split; [done|discriminate]].
  apply silent_mayTalk in Hmay as ->.
  assert (Hgo : mayTalkText srv c (talkRoom c room targetUser) (talkTarget c targetUser) now text w =
                (None, errorReply c (tooLong c text) w)).
  { unfold mayTalkText, andThen. apply jseq_false in Htext. rewrite Htext. cbn [refuseIf pass].
    rewrite checkLength_spec by done. by apply Nat.ltb_lt in Hlong as ->. }
  rewrite Hgo. by split.
Qed.

(** A message within the ceiling goes on to the checks that follow the
    length check, and its fate is theirs. *)
Lemma canTalk_fits (c : CommandContext) (text : jsstring)
    (room targetUser : option jsstring) (now : Z) (w : World) :
  text <> [] -> u_can (users w (c_user c)) (js "ignorelimits") None = false ->
  (weightedLength text <= 300)%nat ->
  (mayTalk srv c (talkRoom c room targetUser) (talkTarget c targetUser) w).1 = Some tt ->
  canTalk srv c (Some text) room targetUser now w =
  match afterLength srv c (talkRoom c room targetUser) (talkTarget c targetUser) now
          (users w (c_user c)) (rooms w <$> talkRoom c room targetUser) text w with
  | (None, w') => (JNull, w')
  | (Some text', w') =>
      if bool_decide (filters srv = []) then (JString text', w')
      else Chat_filter srv c text' (talkRoom c room targetUser) (talkTarget c targetUser) w'
  end.
Proof.
  intros Htext Hcan Hfits Hmay. unfold canTalk.
  destruct (mayTalk srv c _ _ w) as [[[]|] w1] eqn:Hgate; [|discriminate].
  apply silent_mayTalk in Hgate as ->.
  unfold mayTalkText at 1, andThen. apply jseq_false in Htext. rewrite Htext. cbn [refuseIf pass].
  rewrite checkLength_spec by done.
  by replace (300 <? weightedLength text)%nat with false by (symmetry; apply Nat.ltb_ge; lia).
Qed.

End TalkFacts.

(** C2, as amended: for a message that is not empty and a user who cannot
    [ignorelimits], where a U+FDFD weighs 11 and any other code unit 1:
    the length check refuses, with the too-long reply, exactly when the
    weight is over 300, and [canTalk] then returns [null]; and when the
    checks that [canTalk] makes before it looks at the message let the
    user talk, it refuses the message as too long exactly when the weight
    is over 300: over 300 it returns [null] and all it does is reply
    [Your message is too long: ] and the message; up to 300 the length
    check lets the message through, and what [canTalk] returns and does
    is what the checks after the length check and the chat filters make
    of it. Fifty U+FDFD are 50 code units and weigh 550. *)
Theorem length_check_weighs_format_control (srv : Server) (c : CommandContext) (text : jsstring)
    (room targetUser : option jsstring) (now : Z) (w : World) :
  text <> [] -> u_can (users w (c_user c)) (js "ignorelimits") None = false ->
  (weightedLength [] = 0%nat /\
   forall ch s, weightedLength (ch :: s) = ((if (ch =? FDFD)%N then 11 else 1) + weightedLength s)%nat) /\
  (checkLength srv c (users w (c_user c)) text w =
   if (300 <? weightedLength text)%nat
   then (None, errorReply c (trText srv c (js "Your message is too long: ") ++ text) w)
   else (Some tt, w)) /\
  ((300 < weightedLength text)%nat ->
   (canTalk srv c (Some text) room targetUser now w).1 = JNull) /\
  ((mayTalk srv c (talkRoom c room targetUser) (talkTarget c targetUser) w).1 = Some tt ->
   ((300 < weightedLength text)%nat ->
    canTalk srv c (Some text) room targetUser now w =
    (JNull, errorReply c (trText srv c (js "Your message is too long: ") ++ text) w)) /\
   ((weightedLength text <= 300)%nat ->
    canTalk srv c (Some text) room targetUser now w =
    match afterLength srv c (talkRoom c room targetUser) (talkTarget c targetUser) now
            (users w (c_user c)) (rooms w <$> talkRoom c room targetUser) text w with
    | (None, w') => (JNull, w')
    | (Some text', w') =>
        if bool_decide (filters srv = []) then (JString text', w')
        else Chat_filter srv c text' (talkRoom c room targetUser) (talkTarget c targetUser) w'
    end) /\
   canTalk srv c (Some (replicate 50 FDFD)) room targetUser now w =
   (JNull, errorReply c (trText srv c (js "Your message is too long: ") ++ replicate 50 FDFD) w)) /\
  (length (replicate 50 FDFD) = 50%nat /\ weightedLength (replicate 50 FDFD) = 550%nat /\
   (canTalk srv c (Some (replicate 50 FDFD)) room targetUser now w).1 = JNull).
Proof.
  intros Htext Hcan. split; [split; [reflexivity|apply weightedLength_cons]|].
  split; [by apply checkLength_spec|]. split; [|split].
  - intros Hlong. by apply canTalk_too_long.
  - intros Hmay. split; [|split].
    + intros Hlong. by apply canTalk_too_long.
    + intros Hfits. by apply canTalk_fits.
    + apply canTalk_too_long; [done|done| |done]. rewrite weightedLength_flood. lia.
  - split; [apply length_replicate|]. split; [apply (weightedLength_flood 50)|].
    apply canTalk_too_long; [done|done|]. rewrite weightedLength_flood. lia.
Qed.

Lemma length_check_weighs_format_control_witness :
  let srv := Sample.server ∅ [] in
  let w := Sample.world Sample.regular (Sample.plainRoom (js "bob") false) in
  let c := Sample.typed (replicate 30 FDFD) (js "bob") (js "tech") w in
  (replicate 30 FDFD <> [] /\ u_can (users w (c_user c)) (js "ignorelimits") None = false /\
   (mayTalk srv c (talkRoom c None None) (talkTarget c None) w).1 = Some tt /\
   (300 < weightedLength (replicate 30 FDFD))%nat) /\
  canTalk srv c (Some (replicate 30 FDFD)) None None 0%Z w =
  (JNull, errorReply c (trText srv c (js "Your message is too long: ") ++ replicate 30 FDFD) w).
Proof.
  intros srv w c.
  assert (Hmay : (mayTalk srv c (talkRoom c None None) (talkTarget c None) w).1 = Some tt)
    by (vm_compute; reflexivity).
  assert (Hlong : (300 < weightedLength (replicate 30 FDFD))%nat)
    by (rewrite weightedLength_flood; lia).
  assert (Hcan : u_can (users w (c_user c)) (js "ignorelimits") None = false) by reflexivity.
  assert (Htext : replicate 30 FDFD <> []) by done.
  split; [by repeat split|].
  destruct (length_check_weighs_format_control srv c (replicate 30 FDFD) None None 0%Z w Htext Hcan)
    as (_ & _ & _ & Hgo & _).
  exact (proj1 (Hgo Hmay) Hlong).
Defined.

(** The claim of C2, as stated, fails for a user whom an earlier check
    turns away: [bob], who cannot [ignorelimits] and is muted in the
    room, sends fifty U+FDFD, which weigh 550; [canTalk] returns [null]
    and the one reply is that the user is muted, not that the message is
    too long. *)
Lemma overlong_message_of_muted_user_is_not_called_too_long :
  let srv := Sample.server ∅ [] in
  let w := Sample.world Sample.regular (Sample.mutedRoom (js "bob")) in
  let c := Sample.typed (replicate 50 FDFD) (js "bob") (js "tech") w in
  replicate 50 FDFD <> [] /\
  u_can (users w (c_user c)) (js "ignorelimits") None = false /\
  (300 < weightedLength (replicate 50 FDFD))%nat /\
  canTalk srv c (Some (replicate 50 FDFD)) None None 0%Z w =
  (JNull, {| users := users w; rooms := rooms w;
             log := [ConnSendTo (js "tech")
                       (js "|error|You are muted and cannot talk in this room.")] |}) /\
  errorReply c (trText srv c (js "Your message is too long: ") ++ replicate 50 FDFD) w <>
  {| users := users w; rooms := rooms w;
     log := [ConnSendTo (js "tech") (js "|error|You are muted and cannot talk in this room.")] |}.
Proof.
  cbv zeta. split; [done|]. split; [reflexivity|].
  split; [rewrite weightedLength_flood; lia|]. split; [vm_compute; reflexivity|].
  intros H. apply (f_equal log) in H. vm_compute in H. discriminate H.
Qed.

(** ** The broadcast controller *)

Section BroadcastFacts.

Variable srv : Server.

Lemma rooms_setRoom (rid : jsstring) (r : Room) (w : World) : rooms (setRoom rid r w) rid = r.
Proof. cbn [setRoom rooms]. by rewrite jseq_refl. Qed.

(** A granted broadcast leaves the normalized invocation in the context. *)
Lemma canBroadcast_granted (c c' : CommandContext) (ignoreCooldown : bool)
    (suppressMessage : option jsstring) (now : Z) (w w' : World) :
  awaitsBroadcast c ->
  canBroadcast srv c ignoreCooldown suppressMessage now w = (true, c', w') ->
  exists text, c' = withMessage c text (normalizeBroadcast srv (orMessage c suppressMessage)).
Proof.
  intros (Hb & Hs & _). unfold canBroadcast. rewrite Hb, Hs. cbn [orb negb].
  repeat match goal with
         | |- context [if ?b then (false, _, _) else _] => destruct b; [discriminate|]
         end.
  destruct (canTalk srv c _ None None now w) as [[| | |text|] w1]; try discriminate.
  destruct (jseq text []); [discriminate|]. intros [= <- _]. by exists text.
Qed.

(** Within the window, an identical invocation is refused. *)
Lemma canBroadcast_cooldown (c : CommandContext) (suppressMessage : option jsstring)
    (rid : jsstring) (now : Z) (w : World) :
  awaitsBroadcast c -> c_room c = Some rid ->
  u_can (users w (c_user c)) (js "bypassall") None = false ->
  r_lastBroadcast (rooms w rid) = normalizeBroadcast srv (orMessage c suppressMessage) ->
  (now - BROADCAST_COOLDOWN <= r_lastBroadcastTime (rooms w rid))%Z ->
  (canBroadcast srv c false suppressMessage now w).1.1 = false.
Proof.
  intros (Hb & Hs & _) Hroom Hbypass Hlast Htime. unfold canBroadcast.
  rewrite Hb, Hs, Hroom, Hbypass, Hlast, jseq_refl. cbn [orb negb andb].
  apply Z.leb_le in Htime. rewrite Htime.
  by destruct (negb (u_can _ _ _)).
Qed.

(** Past the window, an identical invocation is granted when the user
    may show and [canTalk] lets the invocation through. *)
Lemma canBroadcast_after (c : CommandContext) (suppressMessage : option jsstring)
    (rid text : jsstring) (now : Z) (w w' : World) :
  awaitsBroadcast c -> c_room c = Some rid ->
  u_can (users w (c_user c)) (js "show") (Some rid) = true ->
  (r_lastBroadcastTime (rooms w rid) < now - BROADCAST_COOLDOWN)%Z ->
  canTalk srv c (Some (orMessage c suppressMessage)) None None now w = (JString text, w') ->
  text <> [] ->
  canBroadcast srv c false suppressMessage now w =
  (true, withMessage c text (normalizeBroadcast srv (orMessage c suppressMessage)), w').
Proof.
  intros (Hb & Hs & _) Hroom Hshow Htime Htalk Htext. unfold canBroadcast.
  rewrite Hb, Hs, Hroom, Hshow, Htalk. cbn [orb negb andb].
  apply Z.leb_gt in Htime. rewrite Htime, andb_false_r. cbn [andb].
  apply jseq_false in Htext. by rewrite Htext.
Qed.

Lemma runBroadcast_refused (c : CommandContext) (ignoreCooldown : bool)
    (suppressMessage : option jsstring) (now : Z) (w : World) :
  awaitsBroadcast c ->
  (canBroadcast srv c ignoreCooldown suppressMessage now w).1.1 = false ->
  (runBroadcast srv c ignoreCooldown suppressMessage now w).1.1 = false.
Proof.
  intros (Hb & Hs & Hm) Hno. unfold runBroadcast. rewrite Hb, Hs, Hm, jseq_refl. cbn [orb negb].
  destruct (canBroadcast srv c ignoreCooldown suppressMessage now w) as [[granted c'] w'].
  cbn in Hno. by rewrite Hno.
Qed.

Lemma runBroadcast_granted (c c' : CommandContext) (ignoreCooldown : bool)
    (suppressMessage : option jsstring) (now : Z) (w w' : World) :
  awaitsBroadcast c ->
  canBroadcast srv c ignoreCooldown suppressMessage now w = (true, c', w') ->
  (runBroadcast srv c ignoreCooldown suppressMessage now w).1.1 = true.
Proof.
  intros (Hb & Hs & Hm) Hyes. unfold runBroadcast. rewrite Hb, Hs, Hm, jseq_refl, Hyes.
  cbn [orb negb]. by destruct (c_room _).
Qed.

(** A broadcast that goes through with the cooldown in force leaves its
    normalized invocation and its time on the room. *)
Lemma runBroadcast_stamps (c c' : CommandContext) (suppressMessage : option jsstring)
    (rid : jsstring) (now : Z) (w w' : World) :
  awaitsBroadcast c -> c_room c = Some rid ->
  runBroadcast srv c false suppressMessage now w = (true, c', w') ->
  r_lastBroadcast (rooms w' rid) = normalizeBroadcast srv (orMessage c suppressMessage) /\
  r_lastBroadcastTime (rooms w' rid) = now.
Proof.
  intros Hwait Hroom. pose proof Hwait as (Hb & Hs & Hm).
  unfold runBroadcast. rewrite Hb, Hs, Hm, jseq_refl. cbn [orb negb].
  destruct (canBroadcast srv c false suppressMessage now w) as [[granted c1] w1] eqn:Hcan.
  destruct granted; [|discriminate]. cbn [negb].
  destruct (canBroadcast_granted _ _ _ _ _ _ _ Hwait Hcan) as (text & ->).
  cbn [withBroadcasting withMessage c_room pmTarget broadcastMessage]. rewrite Hroom.
  intros [= _ <-]. by rewrite rooms_setRoom.
Qed.

End BroadcastFacts.

(** C3, as amended: after a broadcast has gone through in a room at time
    [t] with the cooldown in force, the room holds its normalized
    invocation and [t]; an invocation in that room with the same
    normalized text, by a user who cannot [bypassall], is refused at any
    time up to [t] + 20 s; later than that the cooldown no longer refuses
    it, and it goes through when the user may show in the room and
    [canTalk] accepts the invocation. *)
Theorem broadcast_cooldown (srv : Server) (c1 c2 c1' : CommandContext)
    (sm1 sm2 : option jsstring) (rid : jsstring) (t t' : Z) (w0 w1 w2 : World) :
  awaitsBroadcast c1 -> c_room c1 = Some rid ->
  runBroadcast srv c1 false sm1 t w0 = (true, c1', w1) ->
  awaitsBroadcast c2 -> c_room c2 = Some rid ->
  r_lastBroadcast (rooms w2 rid) = r_lastBroadcast (rooms w1 rid) ->
  r_lastBroadcastTime (rooms w2 rid) = r_lastBroadcastTime (rooms w1 rid) ->
  u_can (users w2 (c_user c2)) (js "bypassall") None = false ->
  normalizeBroadcast srv (orMessage c2 sm2) = normalizeBroadcast srv (orMessage c1 sm1) ->
  (r_lastBroadcast (rooms w1 rid) = normalizeBroadcast srv (orMessage c1 sm1) /\
   r_lastBroadcastTime (rooms w1 rid) = t) /\
  ((t' <= t + 20000)%Z -> (runBroadcast srv c2 false sm2 t' w2).1.1 = false) /\
  ((t + 20000 < t')%Z ->
   u_can (users w2 (c_user c2)) (js "show") (Some rid) = true ->
   forall text w3,
     canTalk srv c2 (Some (orMessage c2 sm2)) None None t' w2 = (JString text, w3) ->
     text <> [] ->
     (runBroadcast srv c2 false sm2 t' w2).1.1 = true).
Proof.
  intros Hwait1 Hroom1 Hfirst Hwait2 Hroom2 Hlast Htime Hbypass Hsame.
  destruct (runBroadcast_stamps srv _ _ _ _ _ _ _ Hwait1 Hroom1 Hfirst) as [Hl Ht].
  split; [by split|]. split.
  - intros Hin. apply runBroadcast_refused; [done|].
    apply (canBroadcast_cooldown srv c2 sm2 rid); try done.
    + by rewrite Hlast, Hl.
    + rewrite Htime, Ht. unfold BROADCAST_COOLDOWN. lia.
  - intros Hout Hshow text w3 Htalk Htext.
    eapply runBroadcast_granted; [done|].
    apply (canBroadcast_after srv c2 sm2 rid text); try done.
    rewrite Htime, Ht. unfold BROADCAST_COOLDOWN. lia.
Qed.

Lemma broadcast_cooldown_witness :
  let srv := Sample.server Sample.dataTable [] in
  let w0 := Sample.world Sample.voiced (Sample.plainRoom (js "bob") false) in
  let c := withCommand (Sample.typed (js "!data pikachu") (js "bob") (js "tech") w0)
             {| d_cmd := js "data"; d_cmdToken := js "!"; d_target := js "pikachu";
                d_fullCmd := js "data"; d_handler := VHandler Sample.data |} in
  let first := runBroadcast srv c false None 1000 w0 in
  (awaitsBroadcast c /\ c_room c = Some (js "tech") /\ first.1.1 = true /\
   u_can (users first.2 (c_user c)) (js "bypassall") None = false) /\
  (runBroadcast srv c false None 21000 first.2).1.1 = false.
Proof.
  intros srv w0 c first.
  assert (Hwait : awaitsBroadcast c) by (repeat split).
  assert (Hfirst : runBroadcast srv c false None 1000 w0 = (true, first.1.2, first.2))
    by reflexivity.
  split; [repeat split|].
  apply (broadcast_cooldown srv c c first.1.2 None None (js "tech") 1000 21000 w0 first.2 first.2
           Hwait eq_refl Hfirst Hwait eq_refl eq_refl eq_refl eq_refl eq_refl).
  lia.
Defined.

(** The claim of C3, as stated, fails in the lobby: the same user's
    identical broadcast, 20.001 s after the first went through, is past
    the broadcast cooldown but is refused by [canTalk], which does not let
    the same text through again for five minutes there. *)
Lemma identical_broadcast_refused_after_cooldown :
  let srv := Sample.server Sample.dataTable [] in
  let w0 := Sample.world Sample.voiced (Sample.plainRoom (js "bob") false) in
  let c := withCommand (Sample.typed (js "!data pikachu") (js "bob") (js "lobby") w0)
             {| d_cmd := js "data"; d_cmdToken := js "!"; d_target := js "pikachu";
                d_fullCmd := js "data"; d_handler := VHandler Sample.data |} in
  let first := runBroadcast srv c false None 1000 w0 in
  u_can (users w0 (js "bob")) (js "bypassall") None = false /\
  first.1.1 = true /\
  (runBroadcast srv c false None 21001 first.2).1.1 = false.
Proof. vm_compute. repeat split. Qed.

(** ** Replies *)



Lemma errorReply_plain (c : CommandContext) (text rid : jsstring) (w : World) :
  isQuiet c = false -> broadcasting c = false -> c_room c = Some rid ->
  errorReply c text w =
  emit (ConnSendTo rid (js "|error|" ++ replaceNewlines text (NL ++ js "|error|"))) w.
Proof. intros Hq Hb Hr. unfold errorReply, sendReply. by rewrite Hq, Hb, Hr. Qed.




(** C5, as amended: a message whose first two characters are the same
    command token resolves to no command; [parse] then treats it as chat
    and hands it to [canTalk] as it is, both tokens included, so that
    [!!test] goes out as the chat message [!!test]. *)
Theorem doubled_token_is_chat (srv : Server) (tok : N) (rest : jsstring) :
  tok = 47 \/ tok = 33 ->
  (forall recursing,
     parseCommand (toLowerCase srv) (commands srv) (groups srv) (tok :: tok :: rest) recursing = None) /\
  (forall parseSub now c w,
     cmdToken c = [] -> c_handler c = VUndefined ->
     dispatch srv parseSub now c (tok :: tok :: rest) w =
     let '(result, w') := canTalk srv c (Some (tok :: tok :: rest)) None None now w in
     Returned result c w') /\
  (let w := Sample.world Sample.voiced (Sample.plainRoom (js "bob") false) in
   match Chat_parse (Sample.server ∅ []) 1 0%Z (js "!!test") (Some (js "tech")) (js "bob") w with
   | Returned result _ w' =>
       result = JString (js "!!test") /\
       log w' = [RoomAdd (js "tech") (js "|c| bob|!!test"); RoomUpdate (js "tech")]
   | _ => False
   end).
Proof.
  intros Htok. split; [|split].
  - intros recursing. unfold parseCommand. rewrite parseCommandN_S.
    by rewrite tokenize_doubled.
  - intros parseSub now c w Htoken Hhandler. unfold dispatch.
    rewrite Htoken, Hhandler. cbn [isTruthy jseq negb andb].
    change (jseq [] []) with true. cbn [negb andb].
    replace (includes VALID_COMMAND_TOKENS (charAt (tok :: tok :: rest) 0)) with true
      by (destruct Htok as [-> | ->]; reflexivity).
    reflexivity.
  - vm_compute. by split.
Qed.

Lemma doubled_token_is_chat_witness :
  (33 = 47 \/ 33 = 33) /\
  parseCommand Sample.lowerAscii ∅ Sample.groups0 (js "!!test") false = None.
Proof.
  split; [by right|].
  exact (proj1 (doubled_token_is_chat (Sample.server ∅ []) 33 (js "test") (or_intror eq_refl)) false).
Defined.

(** The claim of C5, as stated, fails on [!!test]: what is added to the
    room is [!!test], not [!test]. *)
Lemma doubled_token_is_not_stripped :
  let w := Sample.world Sample.voiced (Sample.plainRoom (js "bob") false) in
  match Chat_parse (Sample.server ∅ []) 1 0%Z (js "!!test") (Some (js "tech")) (js "bob") w with
  | Returned result _ w' =>
      result = JString (js "!!test") /\
      log w' = [RoomAdd (js "tech") (js "|c| bob|!!test"); RoomUpdate (js "tech")] /\
      RoomAdd (js "tech") (js "|c| bob|!test") ∉ log w'
  | _ => False
  end.
Proof.
  vm_compute. split; [reflexivity|]. split; [reflexivity|].
  intros H. repeat (apply elem_of_cons in H as [H|H]; [discriminate H|]). by apply elem_of_nil in H.
Qed.

(** What the constructor and the assignments after it leave in the
    subcontext of [parse(msg)]. *)
Lemma spawn_subcontext (this : CommandContext) (msg : jsstring) (quiet : bool) (w : World) :
  spawn this msg quiet w = inr (asSubcontext (CommandContext_new (asOptions this) w) quiet msg 1).
Proof. reflexivity. Qed.

(** C1: the code does not do what the claim says. Whatever the depth of
    the parent, the subcontext that [parse(msg)] builds starts again from
    depth 0, so that it has depth 1 and the limit of 10 is never found
    exceeded. *)
Theorem subcontext_depth_is_one (this : CommandContext) (msg : jsstring) (quiet : bool) (w : World) :
  spawn this msg quiet w = inr (asSubcontext (CommandContext_new (asOptions this) w) quiet msg 1) /\
  (forall sub, spawn this msg quiet w = inr sub -> recursionDepth sub = 1%nat) /\
  (forall err, spawn this msg quiet w <> inl err).
Proof.
  pose proof (spawn_subcontext this msg quiet w) as H.
  split; [exact H|]. rewrite H. split; [by intros sub [= <-]|done].
Qed.

(** Eleven sub-invocations nested in one another all run: the innermost
    handler replies, and nothing is reported to the crash monitor. *)
Lemma eleven_nested_parses_run :
  let w := Sample.world Sample.voiced (Sample.plainRoom (js "bob") false) in
  match Chat_parse (Sample.server Sample.hopTable []) 12 0%Z (js "/hop xxxxxxxxxxx")
          (Some (js "tech")) (js "bob") w with
  | Returned _ _ w' =>
      ConnSendTo (js "tech") (js "done") ∈ log w' /\ Forall (fun e => isCrashlog e = false) (log w')
  | _ => False
  end.
Proof. vm_compute. split; [left|repeat constructor]. Qed.

(** The subcontext of a subcontext has depth 1 again, not 2. *)
Lemma grandchild_depth :
  let w := Sample.world Sample.voiced (Sample.plainRoom (js "bob") false) in
  let top := Sample.typed (js "/hop xx") (js "bob") (js "tech") w in
  match spawn top (js "/hop x") false w with
  | inr child =>
      recursionDepth child = 1%nat /\
      match spawn child (js "/hop ") false w with
      | inr grandchild => recursionDepth grandchild = 1%nat
      | inl _ => False
      end
  | inl _ => False
  end.
Proof. vm_compute. by split. Qed.

(** A handler that starts with [this.parse(msg)] gets no further than the
    sub-invocation does. *)
Lemma parseWith_nested (srv : Server)
    (parseSub : CommandContext -> jsstring -> bool -> World -> Outcome) (now : Z)
    (c c1 : CommandContext) (w w1 : World) (h : AnnotatedChatHandler)
    (msg : jsstring) (quiet : bool) (k : jsval -> Prog) :
  prelude srv c w = inr (c1, w1) ->
  c_handler c1 = VHandler h -> broadcastable h = true ->
  h_body h {| a_target := c_target c1; a_room := c_room c1; a_user := c_user c1;
              a_cmd := c_cmd c1; a_message := c_message c1 |} = Parse msg quiet k ->
  parseSub c1 msg quiet w1 = Exhausted ->
  parseWith srv parseSub now c w = Exhausted.
Proof.
  intros Hpre Hh Hb Hbody Hsub. unfold parseWith. rewrite Hpre.
  unfold dispatch, run. rewrite Hh, Hb. cbn [isTruthy negb andb].
  rewrite Hbody. cbn [exec]. by rewrite Hsub.
Qed.

Lemma again_prelude (c : CommandContext) (l : list Event) :
  Sample.typedAgain c ->
  prelude (Sample.server Sample.hopTable []) c (Sample.worldWith l) =
  inr (withCommand c {| d_cmd := js "again"; d_cmdToken := js "/"; d_target := [];
                        d_fullCmd := js "again"; d_handler := VHandler Sample.again |},
       Sample.worldWith l).
Proof.
  intros (Hm & Hu & Hr). unfold prelude. rewrite Hm.
  replace (parseCommand _ _ _ (js "/again") false)
    with (Some {| d_cmd := js "again"; d_cmdToken := js "/"; d_target := [];
                  d_fullCmd := js "again"; d_handler := VHandler Sample.again |})
    by (vm_compute; reflexivity).
  cbn [withCommand c_room c_user c_cmd d_cmd]. rewrite Hr, Hu.
  replace (bool_decide (js "bob" ∈ r_users (rooms (Sample.worldWith l) (js "tech")))) with true
    by (vm_compute; reflexivity).
  reflexivity.
Qed.

Lemma again_step (P : CommandContext -> World -> Outcome) (c : CommandContext) (l : list Event) :
  (forall c', Sample.typedAgain c' -> P c' (Sample.worldWith l) = Exhausted) ->
  Sample.typedAgain c ->
  parseWith (Sample.server Sample.hopTable []) (parseSubWith P) 0%Z c (Sample.worldWith l) =
  Exhausted.
Proof.
  intros HP Hc.
  eapply parseWith_nested; [by apply again_prelude|reflexivity|reflexivity|reflexivity|].
  unfold parseSubWith. rewrite spawn_subcontext.
  apply HP. destruct Hc as (_ & Hu & Hr). by repeat split.
Qed.

(** A command that re-enters itself is never stopped by the recursion
    limit: however deep [parse] is allowed to nest, the nesting is used
    up and no error is thrown. *)
Lemma endless_recursion_is_not_rejected (fuel : nat) (c : CommandContext) (l : list Event) :
  Sample.typedAgain c ->
  parseN (Sample.server Sample.hopTable []) fuel 0%Z c (Sample.worldWith l) = Exhausted.
Proof.
  revert c. induction fuel as [|fuel IH]; intros c Hc; [reflexivity|].
  cbn [parseN]. by apply again_step.
Qed.

(** C9: the code does not do what the claim says. In a high-traffic room
    the message [1a1], from a user who cannot show there, has one letter
    and is let through: only the first run of characters that are not
    letters is taken out before the length is compared with 2. *)
Theorem high_traffic_one_letter_passes :
  let srv := Sample.server ∅ [] in
  let w := Sample.world Sample.regular (Sample.plainRoom (js "bob") true) in
  let c := Sample.typed (js "1a1") (js "bob") (js "tech") w in
  r_highTraffic (rooms w (js "tech")) = true /\
  u_can (users w (js "bob")) (js "show") (Some (js "tech")) = false /\
  keepClass (fun ch => isLower ch || isUpper ch) (js "1a1") = js "a" /\
  dropFirstRun (fun ch => negb (isLower ch)) (toID srv (js "1a1")) = js "a1" /\
  (canTalk srv c (Some (js "1a1")) None None 0%Z w).1 = JString (js "1a1").
Proof. vm_compute. repeat split. Qed.

(** * Further properties: the moderation log *)

(** ** [SortedLimitedLengthList] *)

Section SortedListFacts.

Import SortedLimitedLengthList.

Variable localeCompare : jsstring -> jsstring -> Z.

(** [a < b] leaves [b >= a]: what any comparator gives. *)
Hypothesis antisymmetric : forall a b, (localeCompare a b < 0)%Z -> (0 <= localeCompare b a)%Z.

Lemma scan_found (element : jsstring) (arr : list jsstring) (i k : nat) :
  scan localeCompare element arr i = Some k ->
  (0 < k <= i)%nat /\
  (exists x, arr !! (k - 1)%nat = Some x /\ (localeCompare element x < 0)%Z) /\
  (forall j y, (k <= j < i)%nat -> arr !! j = Some y -> (0 <= localeCompare element y)%Z).
Proof.
  induction i as [|i IH]; simpl; [done|].
  destruct (arr !! i) as [x|] eqn:Hx.
  - destruct (localeCompare element x <? 0)%Z eqn:Hlt.
    + intros [= <-]. split; [lia|]. split.
      * exists x. replace (S i - 1)%nat with i by lia. split; [done|lia].
      * intros j y Hj. lia.
    + intros Hk. destruct (IH Hk) as (Hr & Hx' & Hrest). split; [lia|]. split; [done|].
      intros j y Hj Hy. destruct (decide (j = i)) as [->|Hne]; [|apply (Hrest j y); [lia|done]].
      rewrite Hx in Hy. injection Hy as <-. lia.
  - intros Hk. destruct (IH Hk) as (Hr & Hx' & Hrest). split; [lia|]. split; [done|].
    intros j y Hj Hy. destruct (decide (j = i)) as [->|Hne]; [congruence|apply (Hrest j y); [lia|done]].
Qed.

Lemma scan_none (element : jsstring) (arr : list jsstring) (i : nat) :
  scan localeCompare element arr i = None ->
  forall j y, (j < i)%nat -> arr !! j = Some y -> (0 <= localeCompare element y)%Z.
Proof.
  induction i as [|i IH]; simpl; [intros _ j y Hj _; lia|].
  destruct (arr !! i) as [x|] eqn:Hx.
  - destruct (localeCompare element x <? 0)%Z eqn:Hlt; [done|].
    intros Hk j y Hj Hy. destruct (decide (j = i)) as [->|Hne]; [|apply (IH Hk j y); [lia|done]].
    rewrite Hx in Hy. injection Hy as <-. lia.
  - intros Hk j y Hj Hy. destruct (decide (j = i)) as [->|Hne]; [congruence|apply (IH Hk j y); [lia|done]].
Qed.

Lemma insert_list (element : jsstring) (l : t) :
  let arr := splice (slot localeCompare element (l_list l)) element (l_list l) in
  l_list (insert localeCompare element l) =
  if (maxSize l <? Z.of_nat (length arr))%Z then pop arr else arr.
Proof.
  cbv zeta. unfold insert, slot. cbn [l_list].
  destruct (scan localeCompare element (l_list l) (length (l_list l))) as [k|] eqn:Hk; [|done].
  cbn [from_option id]. destruct (k =? length (l_list l))%nat eqn:Hend; [|done].
  apply Nat.eqb_eq in Hend. subst k. unfold splice.
  by rewrite firstn_all, drop_all.
Qed.

Lemma descending_cons (x : jsstring) (arr : list jsstring) :
  descending localeCompare (x :: arr) <->
  (forall y, head arr = Some y -> (0 <= localeCompare x y)%Z) /\ descending localeCompare arr.
Proof.
  destruct arr as [|y arr]; simpl.
  - split; [intros _; split; [done|done]|done].
  - split.
    + intros [Hxy Hrest]. split; [by intros ? [= <-]|done].
    + intros [Hxy Hrest]. split; [by apply Hxy|done].
Qed.

Lemma descending_app (front back : list jsstring) :
  descending localeCompare (front ++ back) <->
  descending localeCompare front /\ descending localeCompare back /\
  (forall x y, last front = Some x -> head back = Some y -> (0 <= localeCompare x y)%Z).
Proof.
  induction front as [|x front IH].
  - simpl. split; [intros H; split; [done|split; [done|done]]|by intros (_ & H & _)].
  - change ((x :: front) ++ back) with (x :: (front ++ back)).
    rewrite !descending_cons, IH. destruct front as [|x' front].
    + simpl. split.
      * intros (Hh & _ & Hb & _). split; [done|]. split; [done|]. by intros ? y [= <-] Hy; apply Hh.
      * intros (_ & Hb & Hl). split; [by intros y Hy; apply (Hl x y)|]. split; [done|]. split; [done|done].
    + change (last (x :: x' :: front)) with (last (x' :: front)). simpl head. tauto.
Qed.

Lemma descending_take (n : nat) (arr : list jsstring) :
  descending localeCompare arr -> descending localeCompare (take n arr).
Proof.
  intros H. rewrite <- (take_drop n arr) in H. by apply descending_app in H as (H & _).
Qed.

Lemma descending_drop (n : nat) (arr : list jsstring) :
  descending localeCompare arr -> descending localeCompare (drop n arr).
Proof.
  intros H. rewrite <- (take_drop n arr) in H. by apply descending_app in H as (_ & H & _).
Qed.

Lemma splice_descending (element : jsstring) (arr : list jsstring) :
  descending localeCompare arr ->
  descending localeCompare (splice (slot localeCompare element arr) element arr).
Proof using antisymmetric.
  intros Hd. unfold splice, slot.
  destruct (scan localeCompare element arr (length arr)) as [k|] eqn:Hk; cbn [from_option id].
  - apply scan_found in Hk as (Hr & (x & Hx & Hlt) & Hrest).
    apply descending_app. split; [by apply descending_take|]. split.
    + apply descending_cons. split; [|by apply descending_drop].
      intros y Hy. rewrite head_lookup, lookup_drop in Hy. apply (Hrest (k + 0)%nat y); [|done].
      apply lookup_lt_Some in Hy. lia.
    + intros x' y Hl [= <-]. rewrite last_lookup, length_take in Hl.
      replace (Init.Nat.pred (k `min` length arr)) with (k - 1)%nat in Hl by lia.
      rewrite lookup_take_lt in Hl by lia. rewrite Hx in Hl. injection Hl as <-.
      by apply antisymmetric.
  - rewrite take_0, drop_0. simpl app. apply descending_cons. split; [|done].
    intros y Hy. rewrite head_lookup in Hy. apply (scan_none _ _ _ Hk O y); [|done].
    apply lookup_lt_Some in Hy. lia.
Qed.

Lemma splice_length (k : nat) (element : jsstring) (arr : list jsstring) :
  length (splice k element arr) = S (length arr).
Proof.
  unfold splice. rewrite length_app. cbn [length]. rewrite length_take, length_drop. lia.
Qed.

Lemma splice_permutation (k : nat) (element : jsstring) (arr : list jsstring) :
  splice k element arr ≡ₚ element :: arr.
Proof. unfold splice. rewrite <- Permutation_middle. by rewrite take_drop. Qed.

Lemma pop_last (arr : list jsstring) :
  arr <> [] -> exists d, arr = pop arr ++ [d].
Proof.
  intros Hne. destruct (exists_last Hne) as (front & d & ->). exists d. unfold pop.
  rewrite length_app. cbn [length]. replace (length front + 1 - 1)%nat with (length front) by lia.
  by rewrite take_app_length.
Qed.

(** [a >= b] and [b >= c] give [a >= c]. *)
Hypothesis transitive : forall a b c,
  (0 <= localeCompare a b)%Z -> (0 <= localeCompare b c)%Z -> (0 <= localeCompare a c)%Z.

Lemma descending_last (front : list jsstring) (d : jsstring) :
  descending localeCompare (front ++ [d]) ->
  forall x, x ∈ front -> (0 <= localeCompare x d)%Z.
Proof using transitive.
  induction front as [|x front IH]; intros Hd y Hy; [by apply elem_of_nil in Hy|].
  change ((x :: front) ++ [d]) with (x :: (front ++ [d])) in Hd.
  apply descending_cons in Hd as [Hhead Hrest].
  assert (Hxd : (0 <= localeCompare x d)%Z).
  { destruct front as [|x' front]; [by apply Hhead|].
    apply (transitive x x' d); [by apply Hhead|]. apply (IH Hrest). by left. }
  apply elem_of_cons in Hy as [->|Hy]; [done|]. by apply IH.
Qed.

End SortedListFacts.

(** X1: [insert] keeps the list in descending order: with a comparator
    for which [a < b] gives [b >= a], a list in which no element is less
    than the next one is still so after [insert(element)]. *)
Theorem insert_keeps_descending (localeCompare : jsstring -> jsstring -> Z)
    (element : jsstring) (l : SortedLimitedLengthList.t) :
  (forall a b, (localeCompare a b < 0)%Z -> (0 <= localeCompare b a)%Z) ->
  SortedLimitedLengthList.descending localeCompare (SortedLimitedLengthList.l_list l) ->
  SortedLimitedLengthList.descending localeCompare
    (SortedLimitedLengthList.l_list (SortedLimitedLengthList.insert localeCompare element l)).
Proof.
  intros Hanti Hd. rewrite insert_list.
  pose proof (splice_descending localeCompare Hanti element _ Hd) as Hs.
  destruct (_ <? _)%Z; [|done]. by apply descending_take.
Qed.

Lemma compareUnits_antisymmetric (a b : jsstring) :
  (SortedLimitedLengthList.compareUnits a b < 0)%Z ->
  (0 <= SortedLimitedLengthList.compareUnits b a)%Z.
Proof.
  revert b. induction a as [|x a IH]; intros [|y b]; simpl; try lia.
  destruct (x <? y) eqn:Hxy, (y <? x) eqn:Hyx; try lia.
  - apply N.ltb_lt in Hxy, Hyx. lia.
  - apply IH.
Qed.

Lemma compareUnits_transitive (a b c : jsstring) :
  (0 <= SortedLimitedLengthList.compareUnits a b)%Z ->
  (0 <= SortedLimitedLengthList.compareUnits b c)%Z ->
  (0 <= SortedLimitedLengthList.compareUnits a c)%Z.
Proof.
  revert b c. induction a as [|x a IH]; intros [|y b] [|z c]; simpl; try lia.
  destruct (x <? y) eqn:Hxy, (y <? x) eqn:Hyx, (y <? z) eqn:Hyz, (z <? y) eqn:Hzy,
           (x <? z) eqn:Hxz, (z <? x) eqn:Hzx; try lia;
    repeat match goal with
           | H : (_ <? _) = true |- _ => apply N.ltb_lt in H
           | H : (_ <? _) = false |- _ => apply N.ltb_ge in H
           end; try lia.
  apply IH.
Qed.

Lemma insert_keeps_descending_witness :
  SortedLimitedLengthList.descending SortedLimitedLengthList.compareUnits
    (SortedLimitedLengthList.l_list
       (SortedLimitedLengthList.insert SortedLimitedLengthList.compareUnits (js "b")
          {| SortedLimitedLengthList.maxSize := 2;
             SortedLimitedLengthList.l_list := [js "c"; js "a"] |})).
Proof.
  apply insert_keeps_descending; [exact compareUnits_antisymmetric|].
  vm_compute. split; [discriminate|exact I].
Defined.

Lemma insert_bound (localeCompare : jsstring -> jsstring -> Z) (element : jsstring)
    (l : SortedLimitedLengthList.t) :
  (Z.of_nat (length (SortedLimitedLengthList.l_list l)) <=
   Z.max 0 (SortedLimitedLengthList.maxSize l))%Z ->
  (Z.of_nat (length (SortedLimitedLengthList.l_list
                       (SortedLimitedLengthList.insert localeCompare element l))) <=
   Z.max 0 (SortedLimitedLengthList.maxSize l))%Z.
Proof.
  intros Hb. rewrite insert_list.
  destruct (_ <? _)%Z eqn:Hfull.
  - unfold SortedLimitedLengthList.pop. rewrite length_take, splice_length. lia.
  - apply Z.ltb_ge in Hfull. lia.
Qed.

(** X2: a [SortedLimitedLengthList] never grows beyond [maxSize]:
    whatever is inserted into a new list, and whatever the comparator,
    the list holds at most [maxSize] elements (none for a negative
    [maxSize]). *)
Theorem inserts_stay_within_maxSize (localeCompare : jsstring -> jsstring -> Z) (maxSize : Z)
    (elements : list jsstring) :
  let l := foldl (fun l element => SortedLimitedLengthList.insert localeCompare element l)
                 (SortedLimitedLengthList.new maxSize) elements in
  SortedLimitedLengthList.maxSize l = maxSize /\
  (Z.of_nat (length (SortedLimitedLengthList.getListClone l)) <= Z.max 0 maxSize)%Z.
Proof.
  cbv zeta. unfold SortedLimitedLengthList.getListClone.
  assert (Hnew : SortedLimitedLengthList.maxSize (SortedLimitedLengthList.new maxSize) = maxSize /\
    (Z.of_nat (length (SortedLimitedLengthList.l_list (SortedLimitedLengthList.new maxSize)))
                  <= Z.max 0 maxSize)%Z) by (simpl; lia).
  revert Hnew. generalize (SortedLimitedLengthList.new maxSize).
  induction elements as [|element elements IH]; intros l [Hmax Hb]; [done|].
  cbn [foldl]. apply IH. split; [done|].
  rewrite <- Hmax. apply insert_bound. by rewrite Hmax.
Qed.

(** X3: when [insert] has to drop an element, it drops one that no
    element it keeps is less than. With a comparator that is
    antisymmetric and transitive and a list in descending order, the
    list after [insert(element)], together with at most one dropped
    element, holds exactly the old elements and the new one, and every
    element kept is greater than or equal to the one dropped. *)
Theorem insert_drops_the_least (localeCompare : jsstring -> jsstring -> Z)
    (element : jsstring) (l : SortedLimitedLengthList.t) :
  (forall a b, (localeCompare a b < 0)%Z -> (0 <= localeCompare b a)%Z) ->
  (forall a b c, (0 <= localeCompare a b)%Z -> (0 <= localeCompare b c)%Z ->
                 (0 <= localeCompare a c)%Z) ->
  SortedLimitedLengthList.descending localeCompare (SortedLimitedLengthList.l_list l) ->
  let kept := SortedLimitedLengthList.l_list (SortedLimitedLengthList.insert localeCompare element l) in
  exists dropped : list jsstring,
    kept ++ dropped ≡ₚ element :: SortedLimitedLengthList.l_list l /\
    (length dropped <= 1)%nat /\
    (dropped = [] <-> (Z.of_nat (length (SortedLimitedLengthList.l_list l)) <
                       SortedLimitedLengthList.maxSize l)%Z) /\
    forall d x, d ∈ dropped -> x ∈ kept -> (0 <= localeCompare x d)%Z.
Proof.
  intros Hanti Htrans Hd. cbv zeta. rewrite insert_list.
  pose proof (splice_descending localeCompare Hanti element _ Hd) as Hs.
  pose proof (splice_permutation (SortedLimitedLengthList.slot localeCompare element
                                    (SortedLimitedLengthList.l_list l))
                element (SortedLimitedLengthList.l_list l)) as Hp.
  pose proof (splice_length (SortedLimitedLengthList.slot localeCompare element
                               (SortedLimitedLengthList.l_list l))
                element (SortedLimitedLengthList.l_list l)) as Hlen.
  set (arr := SortedLimitedLengthList.splice _ _ _) in *.
  destruct (_ <? _)%Z eqn:Hfull.
  - apply Z.ltb_lt in Hfull.
    destruct (pop_last arr) as (d & Harr); [by intros E; rewrite E in Hlen|].
    exists [d]. rewrite <- Harr. split; [done|]. split; [simpl; lia|]. split.
    + split; [done|]. lia.
    + intros d' x Hd' Hx. apply list_elem_of_singleton in Hd' as ->.
      rewrite Harr in Hs. by apply (descending_last localeCompare Htrans _ _ Hs).
  - apply Z.ltb_ge in Hfull. exists []. rewrite app_nil_r. split; [done|]. split; [simpl; lia|].
    split; [split; [lia|done]|]. intros d x Hd'. by apply elem_of_nil in Hd'.
Qed.

Lemma insert_drops_the_least_witness :
  let l := {| SortedLimitedLengthList.maxSize := 2;
              SortedLimitedLengthList.l_list := [js "c"; js "a"] |} in
  let kept := SortedLimitedLengthList.l_list
                (SortedLimitedLengthList.insert SortedLimitedLengthList.compareUnits (js "b") l) in
  exists dropped : list jsstring,
    kept ++ dropped ≡ₚ js "b" :: SortedLimitedLengthList.l_list l /\
    (length dropped <= 1)%nat /\
    (dropped = [] <-> (Z.of_nat (length (SortedLimitedLengthList.l_list l)) <
                       SortedLimitedLengthList.maxSize l)%Z) /\
    forall d x, d ∈ dropped -> x ∈ kept ->
                (0 <= SortedLimitedLengthList.compareUnits x d)%Z.
Proof.
  apply (insert_drops_the_least SortedLimitedLengthList.compareUnits (js "b")
           {| SortedLimitedLengthList.maxSize := 2;
              SortedLimitedLengthList.l_list := [js "c"; js "a"] |}
           compareUnits_antisymmetric compareUnits_transitive).
  vm_compute. split; [discriminate|exact I].
Defined.


(** ** [Modlog] *)

Section ModlogFacts.

Import Modlog.

Variable toID : jsstring -> jsstring.

Lemma openStream_Some (map : gmap jsstring (option nat)) (key : jsstring) (stream : nat) :
  openStream map key = Some stream <-> map !! key = Some (Some stream).
Proof.
  unfold openStream. destruct (map !! key) as [[s|]|]; simpl; split; congruence.
Qed.

Lemma consistent_new (path : jsstring) : consistent toID (new path).
Proof.
  unfold consistent, new. cbn [streams sharedStreams files].
  split; [|split; [|split; [|split]]]; intros *; rewrite ?lookup_empty; try done.
  intros H. by apply elem_of_nil in H.
Qed.

(** A stream about to be created is held by nothing and was not ended. *)
Lemma fresh_unheld (m : t) :
  consistent toID m ->
  (forall roomid, streams m !! roomid <> Some (Some (opened m))) /\
  (forall id, sharedStreams m !! id <> Some (Some (opened m))) /\
  Ended (opened m) ∉ files m.
Proof.
  intros (HA & _ & _ & HD & HE). split; [|split].
  - intros r Hr. apply HA in Hr as [Hlt _]. lia.
  - intros g Hg. apply HD in Hg as [Hlt _]. lia.
  - intros Hin. apply HE in Hin. lia.
Qed.

Lemma not_ended_snoc (stream : nat) (events : list FileEvent) (e : FileEvent) :
  Ended stream ∉ events -> e <> Ended stream -> Ended stream ∉ events ++ [e].
Proof.
  intros Hold Hne Hin. apply elem_of_app in Hin as [Hin|Hin]; [done|].
  apply list_elem_of_singleton in Hin. congruence.
Qed.

Lemma ended_snoc (stream : nat) (events : list FileEvent) (e : FileEvent) :
  Ended stream ∈ events ++ [e] -> Ended stream ∈ events \/ e = Ended stream.
Proof.
  intros Hin. apply elem_of_app in Hin as [Hin|Hin]; [by left|].
  apply list_elem_of_singleton in Hin. by right.
Qed.

Lemma initialize_consistent (roomid : jsstring) (m : t) :
  consistent toID m -> consistent toID (initialize toID roomid m).
Proof.
  intros Hm. pose proof Hm as (HA & HB & HC & HD & HE).
  destruct (fresh_unheld m Hm) as (Hfr & Hfg & Hfe).
  unfold initialize. destruct (openStream (streams m) roomid) as [s|] eqn:Hopen; [done|].
  destruct (unshared toID roomid) eqn:Hun.
  - (* a log of its own *)
    unfold consistent. cbn [createAppendStream setStream streams sharedStreams opened files].
    split; [|split; [|split; [|split]]].
    + intros r s Hs. apply lookup_insert_Some in Hs as [[<- [= <-]]|[Hne Hs]].
      * split; [lia|]. by apply not_ended_snoc.
      * apply HA in Hs as [Hlt Hend]. split; [lia|]. by apply not_ended_snoc.
    + intros r s Hs Hsh. apply lookup_insert_Some in Hs as [[<- [= <-]]|[Hne Hs]]; [congruence|].
      by apply HB.
    + intros r s Hs Hr. apply lookup_insert_Some in Hs as [[<- [= <-]]|[Hne Hs]].
      * split; [|apply Hfg]. intros other Ho.
        apply lookup_insert_Some in Ho as [[<- _]|[_ Ho]]; [done|]. by apply Hfr in Ho.
      * destruct (HC r s Hs Hr) as [Huniq Hnog]. split; [|done]. intros other Ho.
        apply lookup_insert_Some in Ho as [[<- [= <-]]|[_ Ho]]; [by apply Hfr in Hs|by apply Huniq].
    + intros g s Hg. apply HD in Hg as [Hlt Hend]. split; [lia|]. by apply not_ended_snoc.
    + intros s Hin. apply ended_snoc in Hin as [Hin|Hin]; [|done]. apply HE in Hin. lia.
  - (* a shared log *)
    set (g := default [] (getSharedID toID roomid)).
    destruct (openStream (sharedStreams m) g) as [s0|] eqn:Hshared.
    + apply openStream_Some in Hshared.
      unfold consistent. cbn [setStream streams sharedStreams opened files].
      split; [|split; [|split; [|split]]]; [| | |done|done].
      * intros r s Hs. apply lookup_insert_Some in Hs as [[<- [= <-]]|[Hne Hs]]; [by apply (HD g)|].
        by apply (HA r).
      * intros r s Hs Hsh. apply lookup_insert_Some in Hs as [[<- [= <-]]|[Hne Hs]]; [done|].
        by apply HB.
      * intros r s Hs Hr. apply lookup_insert_Some in Hs as [[<- [= <-]]|[Hne Hs]]; [congruence|].
        destruct (HC r s Hs Hr) as [Huniq Hnog]. split; [|done]. intros other Ho.
        apply lookup_insert_Some in Ho as [[<- [= <-]]|[_ Ho]]; [by apply Hnog in Hshared|by apply Huniq].
    + assert (Hnone : forall s, sharedStreams m !! g <> Some (Some s)).
      { intros s Hs. apply openStream_Some in Hs. congruence. }
      unfold consistent.
      cbn [createAppendStream setStream setSharedStream streams sharedStreams opened files].
      split; [|split; [|split; [|split]]].
      * intros r s Hs. apply lookup_insert_Some in Hs as [[<- [= <-]]|[Hne Hs]].
        -- split; [lia|]. by apply not_ended_snoc.
        -- apply HA in Hs as [Hlt Hend]. split; [lia|]. by apply not_ended_snoc.
      * intros r s Hs Hsh. apply lookup_insert_Some in Hs as [[<- [= <-]]|[Hne Hs]].
        -- fold g. by rewrite lookup_insert_eq.
        -- pose proof (HB r s Hs Hsh) as Hg. apply lookup_insert_Some. right. split; [|done].
           intros E. rewrite <- E in Hg. by apply Hnone in Hg.
      * intros r s Hs Hr. apply lookup_insert_Some in Hs as [[<- [= <-]]|[Hne Hs]]; [congruence|].
        destruct (HC r s Hs Hr) as [Huniq Hnog]. split.
        -- intros other Ho.
           apply lookup_insert_Some in Ho as [[<- [= <-]]|[_ Ho]]; [by apply Hfr in Hs|by apply Huniq].
        -- intros id Hid. apply lookup_insert_Some in Hid as [[<- [= <-]]|[_ Hid]];
             [by apply Hfr in Hs|by apply Hnog in Hid].
      * intros id s Hid. apply lookup_insert_Some in Hid as [[<- [= <-]]|[_ Hid]].
        -- split; [lia|]. by apply not_ended_snoc.
        -- apply HD in Hid as [Hlt Hend]. split; [lia|]. by apply not_ended_snoc.
      * intros s Hin. apply ended_snoc in Hin as [Hin|Hin]; [|done]. apply HE in Hin. lia.
Qed.

Lemma destroy_consistent (roomid : jsstring) (m : t) :
  consistent toID m -> consistent toID (destroy toID roomid m).
Proof.
  intros Hm. pose proof Hm as (HA & HB & HC & HD & HE).
  assert (Hclear : forall m', consistent toID m' -> consistent toID (setStream roomid None m')).
  { intros m' (HA' & HB' & HC' & HD' & HE'). unfold consistent.
    cbn [setStream streams sharedStreams opened files].
    split; [|split; [|split; [|split]]]; [| | |done|done].
    - intros r s Hs. apply lookup_insert_Some in Hs as [[_ [=]]|[_ Hs]]. by apply (HA' r).
    - intros r s Hs. apply lookup_insert_Some in Hs as [[_ [=]]|[_ Hs]]. by apply HB'.
    - intros r s Hs Hr. apply lookup_insert_Some in Hs as [[_ [=]]|[_ Hs]].
      destruct (HC' r s Hs Hr) as [Huniq Hnog]. split; [|done]. intros other Ho.
      apply lookup_insert_Some in Ho as [[_ [=]]|[_ Ho]]. by apply Huniq. }
  unfold destroy. destruct (openStream (streams m) roomid) as [s0|] eqn:Hopen; [|by apply Hclear].
  destruct (unshared toID roomid) eqn:Hun; [|by apply Hclear].
  apply openStream_Some in Hopen. destruct (HC roomid s0 Hopen Hun) as [Huniq Hnog].
  apply Hclear. unfold consistent. cbn [record setStream streams sharedStreams opened files].
  split; [|split; [|split; [|split]]].
  - intros r s Hs. apply lookup_insert_Some in Hs as [[_ [=]]|[Hne Hs]].
    destruct (HA r s Hs) as [Hlt Hend]. split; [done|]. apply not_ended_snoc; [done|].
    intros [= ->]. by apply Hne, eq_sym, Huniq.
  - intros r s Hs. apply lookup_insert_Some in Hs as [[_ [=]]|[_ Hs]]. by apply HB.
  - intros r s Hs Hr. apply lookup_insert_Some in Hs as [[_ [=]]|[_ Hs]].
    destruct (HC r s Hs Hr) as [Huniq' Hnog']. split; [|done]. intros other Ho.
    apply lookup_insert_Some in Ho as [[_ [=]]|[_ Ho]]. by apply Huniq'.
  - intros g s Hg. destruct (HD g s Hg) as [Hlt Hend]. split; [done|]. apply not_ended_snoc; [done|].
    intros [= ->]. by apply Hnog in Hg.
  - intros s Hin. apply ended_snoc in Hin as [Hin|[= ->]]; [by apply HE|]. by apply (HA roomid).
Qed.

Lemma record_consistent (e : FileEvent) (m : t) :
  (forall stream, e <> Ended stream) -> consistent toID m -> consistent toID (record e m).
Proof.
  intros He (HA & HB & HC & HD & HE). unfold consistent. cbn [record streams sharedStreams opened files].
  split; [|split; [|split; [|split]]]; [|done|done| |].
  - intros r s Hs. destruct (HA r s Hs) as [Hlt Hend]. split; [done|]. by apply not_ended_snoc.
  - intros g s Hg. destruct (HD g s Hg) as [Hlt Hend]. split; [done|]. by apply not_ended_snoc.
  - intros s Hin. apply ended_snoc in Hin as [Hin|Hin]; [by apply HE|]. by apply He in Hin.
Qed.

Lemma write_consistent (stamp roomid message : jsstring) (overrideID : option jsstring) (m m' : t) :
  consistent toID m -> write stamp roomid message overrideID m = inr m' -> consistent toID m'.
Proof.
  intros Hm. unfold write. destruct (openStream (streams m) roomid) as [s|]; [|done].
  intros [= <-]. by apply record_consistent.
Qed.

Lemma rename_consistent (oldID newID : jsstring) (m : t) :
  consistent toID m -> consistent toID (rename toID oldID newID m).
Proof.
  intros Hm. unfold rename. destruct (bool_decide _).
  - apply initialize_consistent, record_consistent; [done|]. by apply destroy_consistent.
  - by apply record_consistent.
Qed.

Lemma call_consistent (c : Call) (m : t) : consistent toID m -> consistent toID (call toID m c).
Proof.
  intros Hm. destruct c as [r|stamp r msg o|r|a b]; cbn [call].
  - by apply initialize_consistent.
  - destruct (write stamp r msg o m) as [e|m'] eqn:Hw; [done|]. by apply (write_consistent _ _ _ _ _ _ Hm Hw).
  - by apply destroy_consistent.
  - by apply rename_consistent.
Qed.

Lemma after_consistent (path : jsstring) (calls : list Call) : consistent toID (after toID path calls).
Proof.
  unfold after. pose proof (consistent_new path) as Hnew. revert Hnew. generalize (new path).
  induction calls as [|c calls IH]; intros m Hm; [done|]. cbn [foldl]. by apply IH, call_consistent.
Qed.

Lemma writesBeforeEnd_snoc (events : list FileEvent) (e : FileEvent) :
  writesBeforeEnd events ->
  (forall stream text, e = Wrote stream text -> Ended stream ∉ events) ->
  writesBeforeEnd (events ++ [e]).
Proof.
  intros Hold He before later stream text Heq.
  induction later as [|e' later' _] using rev_ind.
  - apply app_inj_tail in Heq as [<- ->]. by apply (He stream text).
  - change (before ++ Wrote stream text :: later' ++ [e'])
      with (before ++ (Wrote stream text :: later') ++ [e']) in Heq.
    rewrite app_assoc in Heq. apply app_inj_tail in Heq as [-> _]. by apply (Hold _ later' _ text).
Qed.

(** The files touched by a call: what was there, then what the call adds. *)
Lemma initialize_files (roomid : jsstring) (m : t) :
  exists added, files (initialize toID roomid m) = files m ++ added /\
                forall e, e ∈ added -> exists stream path, e = Opened stream path.
Proof.
  unfold initialize. destruct (openStream (streams m) roomid).
  { exists []. rewrite app_nil_r. split; [done|]. intros e He. by apply elem_of_nil in He. }
  destruct (unshared toID roomid).
  { eexists [_]. split; [reflexivity|]. intros e He. apply list_elem_of_singleton in He. eauto. }
  destruct (openStream (sharedStreams m) _).
  { exists []. rewrite app_nil_r. split; [done|]. intros e He. by apply elem_of_nil in He. }
  eexists [_]. split; [reflexivity|]. intros e He. apply list_elem_of_singleton in He. eauto.
Qed.

Lemma writesBeforeEnd_app (events added : list FileEvent) :
  writesBeforeEnd events ->
  (forall e, e ∈ added -> forall stream text, e <> Wrote stream text) ->
  writesBeforeEnd (events ++ added).
Proof.
  intros Hold. induction added as [|e added IH] using rev_ind; intros Hadd; [by rewrite app_nil_r|].
  rewrite app_assoc. apply writesBeforeEnd_snoc.
  - apply IH. intros e' He'. apply Hadd, elem_of_app. by left.
  - intros stream text ->. exfalso. eapply Hadd; [|reflexivity]. apply elem_of_app. right. by left.
Qed.

Lemma call_writesBeforeEnd (c : Call) (m : t) :
  consistent toID m -> writesBeforeEnd (files m) -> writesBeforeEnd (files (call toID m c)).
Proof.
  intros Hm Hsafe.
  assert (Hinit : forall r m0, writesBeforeEnd (files m0) ->
                               writesBeforeEnd (files (initialize toID r m0))).
  { intros r m0 H0. destruct (initialize_files r m0) as (added & -> & Hadd).
    apply writesBeforeEnd_app; [done|]. intros e He stream text ->.
    by destruct (Hadd _ He) as (? & ? & ?). }
  assert (Hdestroy : forall r m0, writesBeforeEnd (files m0) ->
                                  writesBeforeEnd (files (destroy toID r m0))).
  { intros r m0 H0. unfold destroy. cbn [setStream files].
    destruct (openStream (streams m0) r); [|done]. destruct (unshared toID r); [|done].
    cbn [record setStream files]. by apply writesBeforeEnd_snoc. }
  destruct c as [r|stamp r msg o|r|a b]; cbn [call].
  - by apply Hinit.
  - unfold write. destruct (openStream (streams m) r) as [s|] eqn:Hopen; [|done].
    cbn [record files]. apply writesBeforeEnd_snoc; [done|]. intros s' text [= <- _].
    apply openStream_Some in Hopen. destruct Hm as (HA & _). by apply HA in Hopen as [_ Hend].
  - by apply Hdestroy.
  - unfold rename. destruct (bool_decide _).
    + apply Hinit. cbn [record files]. apply writesBeforeEnd_snoc; [by apply Hdestroy|done].
    + cbn [record files]. by apply writesBeforeEnd_snoc.
Qed.

End ModlogFacts.

(** X4: no line of the moderation log is written to a stream that has
    been ended. Over any sequence of [initialize], [write], [destroy] and
    [rename] calls on a new [Modlog], whenever a line is written to a
    stream, that stream was not ended before. *)
Theorem modlog_never_writes_after_end (toID : jsstring -> jsstring) (path : jsstring)
    (calls : list Modlog.Call) :
  Modlog.writesBeforeEnd (Modlog.files (Modlog.after toID path calls)).
Proof.
  unfold Modlog.after.
  assert (Hnew : Modlog.consistent toID (Modlog.new path) /\
                 Modlog.writesBeforeEnd (Modlog.files (Modlog.new path))).
  { split; [apply consistent_new|]. intros before later stream text Heq.
    by destruct before. }
  revert Hnew. generalize (Modlog.new path).
  induction calls as [|c calls IH]; intros m [Hm Hsafe]; [done|].
  cbn [foldl]. apply IH. split; [by apply call_consistent|by apply call_writesBeforeEnd].
Qed.

(** X5: the rooms of a group write to one stream. Over any sequence of
    calls on a new [Modlog], two rooms whose ids give the same, non-empty
    shared id and that both hold an open stream hold the same stream. *)
Theorem modlog_group_shares_stream (toID : jsstring -> jsstring) (path : jsstring)
    (calls : list Modlog.Call) (room1 room2 group : jsstring) (stream1 stream2 : nat) :
  Modlog.getSharedID toID room1 = Some group ->
  Modlog.getSharedID toID room2 = Some group ->
  group <> [] ->
  Modlog.openStream (Modlog.streams (Modlog.after toID path calls)) room1 = Some stream1 ->
  Modlog.openStream (Modlog.streams (Modlog.after toID path calls)) room2 = Some stream2 ->
  stream1 = stream2.
Proof.
  intros Hg1 Hg2 Hne H1 H2. apply openStream_Some in H1, H2.
  destruct (after_consistent toID path calls) as (_ & HB & _).
  assert (Hun : forall r, Modlog.getSharedID toID r = Some group -> Modlog.unshared toID r = false).
  { intros r Hr. unfold Modlog.unshared. rewrite Hr. by apply jseq_false. }
  pose proof (HB _ _ H1 (Hun _ Hg1)) as E1. pose proof (HB _ _ H2 (Hun _ Hg2)) as E2.
  rewrite Hg1 in E1. rewrite Hg2 in E2. congruence.
Qed.

Lemma modlog_group_shares_stream_witness :
  let calls := [Modlog.Initialize (js "battle-gen8ou-1"); Modlog.Initialize (js "battle-gen8ou-2")] in
  Modlog.getSharedID Sample.toID_dex (js "battle-gen8ou-1") = Some (js "battle") /\
  Modlog.openStream (Modlog.streams (Modlog.after Sample.toID_dex (js "logs/modlog") calls))
    (js "battle-gen8ou-2") = Some O /\
  O = O.
Proof.
  cbv zeta. split; [vm_compute; reflexivity|]. split; [vm_compute; reflexivity|].
  apply (modlog_group_shares_stream Sample.toID_dex (js "logs/modlog")
           [Modlog.Initialize (js "battle-gen8ou-1"); Modlog.Initialize (js "battle-gen8ou-2")]
           (js "battle-gen8ou-1") (js "battle-gen8ou-2") (js "battle") O O);
    try (vm_compute; reflexivity). discriminate.
Defined.

(** X6: [write] needs an open stream. After [initialize(roomid)] it
    appends the one line [[stamp] (roomid) message] to the stream of the
    room; after [destroy(roomid)], and for a room that was never
    initialized, it throws and writes nothing. *)
Theorem modlog_write_needs_open_stream (toID : jsstring -> jsstring)
    (stamp roomid message : jsstring) (m : Modlog.t) :
  (exists stream,
     Modlog.openStream (Modlog.streams (Modlog.initialize toID roomid m)) roomid = Some stream /\
     Modlog.write stamp roomid message None (Modlog.initialize toID roomid m) =
     inr (Modlog.record
            (Modlog.Wrote stream (js "[" ++ stamp ++ js "] (" ++ roomid ++ js ") " ++ message ++ NL))
            (Modlog.initialize toID roomid m))) /\
  (exists err, Modlog.write stamp roomid message None (Modlog.destroy toID roomid m) = inl err) /\
  (exists err, Modlog.write stamp roomid message None (Modlog.new (Modlog.logPath m)) = inl err).
Proof.
  split; [|split].
  - assert (Hopen : exists stream,
              Modlog.openStream (Modlog.streams (Modlog.initialize toID roomid m)) roomid = Some stream).
    { unfold Modlog.initialize.
      destruct (Modlog.openStream (Modlog.streams m) roomid) as [s|] eqn:Hs; [by exists s|].
      destruct (Modlog.unshared toID roomid).
      { eexists. cbn. unfold Modlog.openStream. by rewrite lookup_insert_eq. }
      destruct (Modlog.openStream (Modlog.sharedStreams m) _);
        eexists; cbn; unfold Modlog.openStream; by rewrite lookup_insert_eq. }
    destruct Hopen as [stream Hopen]. exists stream. split; [done|].
    unfold Modlog.write. by rewrite Hopen.
  - eexists. unfold Modlog.write, Modlog.destroy, Modlog.openStream.
    cbn [Modlog.setStream Modlog.streams]. by rewrite lookup_insert_eq.
  - eexists. unfold Modlog.write, Modlog.new, Modlog.openStream. cbn [Modlog.streams].
    by rewrite lookup_empty.
Qed.


(** * Further properties: the helpers of server/chat.ts *)

(** ** [splitOne] *)

Lemma take_app_exact (a b : jsstring) (n : nat) : n = length a -> take n (a ++ b) = a.
Proof. intros ->. by rewrite take_app_length. Qed.

Lemma drop_app_exact (a b : jsstring) (n : nat) : n = length a -> drop n (a ++ b) = b.
Proof. intros ->. by rewrite drop_app_length. Qed.

(** X7: [splitOne] cuts at the first comma and trims both parts: for
    [a] without a comma, [splitOne(a + ',' + b)] is [[a.trim(), b.trim()]],
    whatever commas [b] holds, and [splitOne(a)] is [[a.trim(), '']]. *)
Theorem splitOne_cuts_at_first_comma (a b : jsstring) :
  Forall (fun c => c <> COMMA) a ->
  ChatUtil.splitOne (a ++ COMMA :: b) = (trim a, trim b) /\
  ChatUtil.splitOne a = (trim a, []).
Proof.
  intros Ha. unfold ChatUtil.splitOne. split.
  - rewrite indexOf_absent by done.
    destruct (Z.ltb_spec (Z.of_nat (length a)) 0) as [Hneg|_]; [lia|].
    rewrite Nat2Z.id. unfold slice, sliceFrom. rewrite drop_0, Nat.sub_0_r.
    rewrite take_app_exact by done.
    change (a ++ COMMA :: b) with (a ++ [COMMA] ++ b). rewrite app_assoc.
    rewrite drop_app_exact; [done|]. rewrite length_app. simpl. lia.
  - by rewrite indexOf_none.
Qed.

Lemma splitOne_cuts_at_first_comma_witness :
  ChatUtil.splitOne (js "bob " ++ COMMA :: js " hi, there") = (js "bob", js "hi, there") /\
  ChatUtil.splitOne (js "bob ") = (js "bob", []).
Proof.
  apply (splitOne_cuts_at_first_comma (js "bob ") (js " hi, there")).
  vm_compute. repeat constructor; discriminate.
Defined.

(** ** [stripHTML] and [collapseLineBreaksHTML] *)

Section TagFacts.

Import ChatUtil.

Variable f : jsstring -> jsstring.

(** Text without [<] is copied. *)
Lemma replaceTags_text (text rest : jsstring) :
  Forall (fun c => c <> LT) text ->
  replaceTags f None (text ++ rest) = text ++ replaceTags f None rest.
Proof.
  induction 1 as [|c text Hc _ IH]; [done|]. simpl.
  apply N.eqb_neq in Hc. by rewrite Hc, IH.
Qed.

(** Inside a tag, up to its [>]. *)
Lemma replaceTags_inside (tag body rest : jsstring) :
  Forall (fun c => c <> GT) body ->
  replaceTags f (Some tag) (body ++ GT :: rest) =
  f (reverse tag ++ body ++ [GT]) ++ replaceTags f None rest.
Proof.
  intros Hbody. revert tag. induction Hbody as [|c body Hc _ IH]; intros tag.
  - simpl. by rewrite reverse_cons.
  - simpl. apply N.eqb_neq in Hc. rewrite Hc, IH, reverse_cons.
    by rewrite <- app_assoc.
Qed.

(** A [<] that is never closed: the text stays as it is. *)
Lemma replaceTags_unclosed (tag body : jsstring) :
  Forall (fun c => c <> GT) body ->
  replaceTags f (Some tag) body = reverse tag ++ body.
Proof.
  intros Hbody. revert tag. induction Hbody as [|c body Hc _ IH]; intros tag.
  - simpl. by rewrite app_nil_r.
  - simpl. apply N.eqb_neq in Hc. rewrite Hc, IH, reverse_cons. by rewrite <- app_assoc.
Qed.

End TagFacts.

Lemma replaceTags_tagless (s : jsstring) :
  ChatUtil.tagless (ChatUtil.replaceTags (fun _ => []) None s) /\
  forall body, Forall (fun c => c <> ChatUtil.GT) body ->
    ChatUtil.tagless (ChatUtil.replaceTags (fun _ => []) (Some (reverse (ChatUtil.LT :: body))) s).
Proof.
  induction s as [|c s [IHnone IHsome]].
  - split.
    + exists [], []. by repeat split; [|left].
    + intros body Hbody. simpl. rewrite reverse_involutive.
      exists [], (ChatUtil.LT :: body). repeat split; [done|]. right. by exists body.
  - split.
    + simpl. destruct (c =? ChatUtil.LT) eqn:Hc.
      * apply N.eqb_eq in Hc as ->. apply (IHsome []). constructor.
      * destruct IHnone as (text & tail & -> & Htext & Htail).
        exists (c :: text), tail. repeat split; [|done].
        constructor; [by apply N.eqb_neq|done].
    + intros body Hbody. simpl. destruct (c =? ChatUtil.GT) eqn:Hc; [done|].
      rewrite <- reverse_snoc.
      change (ChatUtil.LT :: body ++ [c]) with (ChatUtil.LT :: (body ++ [c])).
      apply IHsome. apply Forall_app. split; [done|]. constructor; [by apply N.eqb_neq|constructor].
Qed.

Lemma tagless_fixed (out : jsstring) :
  ChatUtil.tagless out -> ChatUtil.replaceTags (fun _ => []) None out = out.
Proof.
  intros (text & tail & -> & Htext & Htail). rewrite replaceTags_text by done. f_equal.
  destruct Htail as [->|(body & -> & Hbody)]; [done|].
  simpl. by rewrite replaceTags_unclosed.
Qed.

(** X8: [stripHTML] removes every tag and nothing else: its result holds
    no [<] that a [>] follows, stripping it again changes nothing, text
    without [<] comes back as it is, and [text <tag> rest] gives [text]
    and what [rest] gives. *)
Theorem stripHTML_removes_every_tag (htmlContent : jsstring) :
  ChatUtil.tagless (ChatUtil.stripHTML htmlContent) /\
  ChatUtil.stripHTML (ChatUtil.stripHTML htmlContent) = ChatUtil.stripHTML htmlContent /\
  (forall text body rest,
     Forall (fun c => c <> ChatUtil.LT) text -> Forall (fun c => c <> ChatUtil.GT) body ->
     ChatUtil.stripHTML (text ++ ChatUtil.LT :: body ++ ChatUtil.GT :: rest) =
     text ++ ChatUtil.stripHTML rest).
Proof.
  assert (Hstrip : forall s, ChatUtil.stripHTML s = ChatUtil.replaceTags (fun _ => []) None s).
  { intros s. unfold ChatUtil.stripHTML. destruct (jseq s []) eqn:Hs; [|done].
    by apply jseq_true in Hs as ->. }
  split; [|split].
  - rewrite Hstrip. apply replaceTags_tagless.
  - rewrite !Hstrip. apply tagless_fixed, replaceTags_tagless.
  - intros text body rest Htext Hbody. rewrite !Hstrip, replaceTags_text by done. f_equal.
    cbn [ChatUtil.replaceTags]. replace (ChatUtil.LT =? ChatUtil.LT) with true by reflexivity.
    by rewrite replaceTags_inside.
Qed.

Lemma replaceNewlines_no_break (s r : jsstring) :
  Forall (fun c => c <> 10) r -> Forall (fun c => c <> 10) (replaceNewlines s r).
Proof.
  intros Hr. unfold replaceNewlines. induction s as [|c s IH]; [constructor|].
  cbn [mbind list_bind]. apply Forall_app. split; [|done].
  destruct (c =? 10) eqn:Hc; [done|]. constructor; [by apply N.eqb_neq|constructor].
Qed.

Lemma replaceNewlines_app (a b r : jsstring) :
  replaceNewlines (a ++ b) r = replaceNewlines a r ++ replaceNewlines b r.
Proof. unfold replaceNewlines. by rewrite bind_app. Qed.

(** X9: [collapseLineBreaksHTML] leaves no line break: inside a tag a
    line break becomes a space, outside tags it becomes [&#10;]. For
    [text] without [<] and [body] without [>], [text <body> rest] gives
    [text] with [&#10;] for its line breaks, the tag with spaces for its
    line breaks, and what [rest] gives. *)
Theorem collapseLineBreaksHTML_leaves_no_break (text body rest : jsstring) :
  Forall (fun c => c <> ChatUtil.LT) text ->
  Forall (fun c => c <> ChatUtil.GT) body ->
  ChatUtil.collapseLineBreaksHTML (text ++ ChatUtil.LT :: body ++ ChatUtil.GT :: rest) =
    replaceNewlines text (js "&#10;") ++
    ChatUtil.LT :: replaceNewlines body (js " ") ++ ChatUtil.GT :: ChatUtil.collapseLineBreaksHTML rest /\
  Forall (fun c => c <> 10)
    (ChatUtil.collapseLineBreaksHTML (text ++ ChatUtil.LT :: body ++ ChatUtil.GT :: rest)).
Proof.
  intros Htext Hbody. split.
  - unfold ChatUtil.collapseLineBreaksHTML. rewrite replaceTags_text by done.
    cbn [ChatUtil.replaceTags]. replace (ChatUtil.LT =? ChatUtil.LT) with true by reflexivity.
    rewrite replaceTags_inside by done. rewrite !replaceNewlines_app. f_equal.
    assert (Hfix : forall u, Forall (fun c => c <> 10) u -> forall r, replaceNewlines u r = u).
    { intros u Hu r. unfold replaceNewlines. induction Hu as [|c u Hc _ IH]; [done|].
      cbn [mbind list_bind]. apply N.eqb_neq in Hc. rewrite Hc. by rewrite IH. }
    rewrite (Hfix (replaceNewlines body (js " ")))
      by (apply replaceNewlines_no_break; vm_compute; repeat constructor; discriminate).
    replace (replaceNewlines (replaceNewlines (reverse [ChatUtil.LT]) (js " ")) (js "&#10;"))
      with [ChatUtil.LT] by (vm_compute; reflexivity).
    replace (replaceNewlines (replaceNewlines [ChatUtil.GT] (js " ")) (js "&#10;"))
      with [ChatUtil.GT] by (vm_compute; reflexivity).
    by rewrite <- !app_assoc.
  - apply replaceNewlines_no_break. vm_compute. repeat constructor; discriminate.
Qed.

Lemma collapseLineBreaksHTML_leaves_no_break_witness :
  ChatUtil.collapseLineBreaksHTML (js "a" ++ NL ++ js "b" ++ ChatUtil.LT :: (js "i" ++ NL ++ js "x") ++
                                   ChatUtil.GT :: js "c") =
  js "a&#10;b<i x>c".
Proof.
  pose proof (collapseLineBreaksHTML_leaves_no_break (js "a" ++ NL ++ js "b") (js "i" ++ NL ++ js "x")
                (js "c")) as H.
  apply H; vm_compute; repeat constructor; discriminate.
Defined.


(** ** [Chat.normalize] *)

Lemma Forall_trimStart (P : N -> Prop) (s : jsstring) : Forall P s -> Forall P (trimStart s).
Proof.
  induction 1 as [|c s Hc Hs IH]; simpl; [constructor|].
  destruct (isSpace c); [done|by constructor].
Qed.

Lemma Forall_trim (P : N -> Prop) (s : jsstring) : Forall P s -> Forall P (trim s).
Proof.
  intros H. unfold trim, trimEnd.
  by apply Forall_reverse, Forall_trimStart, Forall_reverse, Forall_trimStart.
Qed.

Lemma Forall_keepClass (P : N -> Prop) (p : N -> bool) (s : jsstring) :
  Forall P s -> Forall P (keepClass p s).
Proof.
  intros H. unfold keepClass. apply Forall_forall. intros c Hc.
  apply list_elem_of_filter in Hc as [_ Hc]. by eapply Forall_forall in H.
Qed.

Lemma collapseRuns_class (p : N -> bool) (r : jsstring) (inRun : bool) (s : jsstring) :
  Forall (fun c => p c = false \/ c ∈ r) (collapseRuns p r inRun s).
Proof.
  revert inRun. induction s as [|c s IH]; intros inRun; simpl; [constructor|].
  destruct (p c) eqn:Hc.
  - apply Forall_app. split; [|done]. destruct inRun; [constructor|].
    apply Forall_forall. intros d Hd. by right.
  - constructor; [by left|done].
Qed.


Lemma lower_char_plain (c : N) :
  isAlnum c = true \/ c = SPACE ->
  ChatUtil.isPlain (if isUpper c then c + 32 else c) = true.
Proof.
  unfold ChatUtil.isPlain, isAlnum, isUpper, isLower, isDigit, SPACE.
  intros [Hc| ->]; [|reflexivity]. revert Hc.
  destruct (N.leb_spec 65 c), (N.leb_spec c 90), (N.leb_spec 97 c), (N.leb_spec c 122),
           (N.leb_spec 48 c), (N.leb_spec c 57); cbn [andb orb]; intros Hc;
    try discriminate Hc; try lia; cmp_decide; reflexivity.
Qed.

Lemma lowerAscii_plain (s : jsstring) :
  Forall (fun c => isAlnum c = true \/ c = SPACE) s ->
  Forall (fun c => ChatUtil.isPlain c = true) (Sample.lowerAscii s).
Proof.
  intros H. unfold Sample.lowerAscii. apply Forall_fmap. eapply Forall_impl; [exact H|].
  intros c Hc. by apply lower_char_plain.
Qed.

(** X10: [Chat.normalize] yields only lower-case letters, digits and
    spaces, with a space at each end, whatever the message: given that
    [toLowerCase] is what it is on ASCII letters, digits and spaces. *)
Theorem normalize_yields_plain_words (toLowerCase : jsstring -> jsstring) (message : jsstring) :
  (forall s, Forall (fun c => isAlnum c = true \/ c = SPACE) s ->
             toLowerCase s = Sample.lowerAscii s) ->
  exists body,
    ChatUtil.normalize toLowerCase message = [SPACE] ++ body ++ [SPACE] /\
    Forall (fun c => ChatUtil.isPlain c = true) body.
Proof.
  intros Hlower. unfold ChatUtil.normalize.
  set (cleaned := trim (collapseRuns _ _ _ _)).
  assert (Hclean : Forall (fun c => isAlnum c = true \/ c = SPACE) cleaned).
  { apply Forall_trim. eapply Forall_impl; [apply collapseRuns_class|].
    intros c [Hc|Hc]; [left; by destruct (isAlnum c)|right; by apply list_elem_of_singleton in Hc]. }
  eexists. split; [reflexivity|].
  assert (Hup : forall c, isAlnum c = true \/ c = SPACE ->
                  Forall (fun c => isAlnum c = true \/ c = SPACE)
                         (if isUpper c then [SPACE; c] else [c])).
  { intros c Hc. destruct (isUpper c).
    - apply Forall_cons. split; [by right|]. apply Forall_cons. split; [done|constructor].
    - apply Forall_cons. split; [done|constructor]. }
  destruct (negb (hasRun ChatUtil.isLetter 2 cleaned)).
  - rewrite Hlower by (by apply Forall_keepClass). by apply lowerAscii_plain, Forall_keepClass.
  - destruct (negb (includes cleaned [SPACE])).
    + assert (Hsplit : Forall (fun c => isAlnum c = true \/ c = SPACE)
                         (trim (cleaned ≫= (fun c => if isUpper c then [SPACE; c] else [c])))).
      { apply Forall_trim, Forall_bind. eapply Forall_impl; [exact Hclean|]. exact Hup. }
      rewrite Hlower by done. by apply lowerAscii_plain.
    + rewrite Hlower by done. by apply lowerAscii_plain.
Qed.

Lemma normalize_yields_plain_words_witness :
  exists body,
    ChatUtil.normalize Sample.lowerAscii (js "Don't  PANIC!") = [SPACE] ++ body ++ [SPACE] /\
    Forall (fun c => ChatUtil.isPlain c = true) body.
Proof.
  apply (normalize_yields_plain_words Sample.lowerAscii (js "Don't  PANIC!")). reflexivity.
Defined.


(** ** [Chat.count] *)

Lemma startsWith_prefix (p rest : jsstring) : startsWith (p ++ rest) p = true.
Proof. induction p as [|c p IH]; [done|]. simpl. by rewrite N.eqb_refl. Qed.

Lemma endsWith_suffix (w p : jsstring) : endsWith (w ++ p) p = true.
Proof. unfold endsWith. rewrite reverse_app. apply startsWith_prefix. Qed.

Lemma sliceEnd_suffix (w p : jsstring) (k : nat) : k = length p -> sliceEnd (w ++ p) k = w.
Proof.
  intros ->. unfold sliceEnd. rewrite length_app, Nat.add_sub. by rewrite take_app_length.
Qed.

Lemma endsWith_last (s : jsstring) (c d : N) : c <> d -> endsWith (s ++ [c]) [d] = false.
Proof.
  intros Hne. unfold endsWith. rewrite reverse_app. simpl.
  apply N.eqb_neq in Hne. rewrite N.eqb_sym in Hne. by rewrite Hne.
Qed.

(** X11: the singular that [Chat.count] makes of a plural: it takes the
    final [s] off, and turns [s have] into [has] and [s were] into
    [was]; the number is followed by the plural when it is greater than
    1 and by the singular otherwise (also for 0), after a space unless
    the singular starts with [<]. *)
Theorem count_derives_the_singular (num : nat) (word : jsstring) :
  let render (plural singular : jsstring) :=
    decimal num ++ (if startsWith singular (js "<") then [] else js " ") ++
    (if (1 <? num)%nat then plural else singular) in
  ChatUtil.count num (word ++ js "s") [] = render (word ++ js "s") word /\
  ChatUtil.count num (word ++ js "s have") [] = render (word ++ js "s have") (word ++ js " has") /\
  ChatUtil.count num (word ++ js "s were") [] = render (word ++ js "s were") (word ++ js " was").
Proof.
  cbv zeta. unfold ChatUtil.count. rewrite jseq_refl. split; [|split].
  - by rewrite endsWith_suffix, sliceEnd_suffix.
  - replace (endsWith (word ++ js "s have") (js "s")) with false.
    + by rewrite endsWith_suffix, sliceEnd_suffix.
    + change (js "s have") with (js "s hav" ++ [101]). rewrite app_assoc.
      symmetry. by apply endsWith_last.
  - replace (endsWith (word ++ js "s were") (js "s")) with false.
    + replace (endsWith (word ++ js "s were") (js "s have")) with false.
      * by rewrite endsWith_suffix, sliceEnd_suffix.
      * unfold endsWith. rewrite reverse_app. reflexivity.
    + change (js "s were") with (js "s wer" ++ [101]). rewrite app_assoc.
      symmetry. by apply endsWith_last.
Qed.

(** X12: a plural that [Chat.count] cannot take apart has no singular:
    when [pluralSuffix] ends in none of [s], [s have], [s were] and no
    singular is given, a count of 0 or 1 is rendered as the number and a
    space, with no word at all. *)
Theorem count_without_singular (num : nat) (pluralSuffix : jsstring) :
  endsWith pluralSuffix (js "s") = false ->
  endsWith pluralSuffix (js "s have") = false ->
  endsWith pluralSuffix (js "s were") = false ->
  (num <= 1)%nat ->
  ChatUtil.count num pluralSuffix [] = decimal num ++ js " ".
Proof.
  intros Hs Hhave Hwere Hnum. unfold ChatUtil.count. rewrite jseq_refl, Hs, Hhave, Hwere.
  replace (1 <? num)%nat with false by (symmetry; apply Nat.ltb_ge; lia).
  by rewrite app_nil_r.
Qed.

Lemma count_without_singular_witness :
  ChatUtil.count 1 (js "things are") [] = js "1 ".
Proof.
  apply (count_without_singular 1 (js "things are")); [reflexivity|reflexivity|reflexivity|lia].
Defined.

(** ** [Chat.toTimestamp] *)

Lemma decimalAux_length (k : nat) :
  forall fuel n acc, (10 ^ k <= n < 10 ^ S k)%nat -> (k < fuel)%nat ->
    length (decimalAux fuel n acc) = (S k + length acc)%nat.
Proof.
  induction k as [|k IH]; intros fuel n acc Hn Hfuel.
  - destruct fuel as [|fuel]; [lia|]. cbn [decimalAux].
    replace (n / 10 =? 0)%nat with true; [done|].
    symmetry. apply Nat.eqb_eq, Nat.div_small. simpl in Hn. lia.
  - destruct fuel as [|fuel]; [lia|]. cbn [decimalAux].
    assert (Hdiv : (10 ^ k <= n / 10 < 10 ^ S k)%nat).
    { split.
      - apply Nat.div_le_lower_bound; [lia|]. rewrite <- Nat.pow_succ_r'. lia.
      - apply Nat.Div0.div_lt_upper_bound. rewrite <- Nat.pow_succ_r'. lia. }
    replace (n / 10 =? 0)%nat with false.
    + rewrite IH by (done || lia). simpl. lia.
    + symmetry. apply Nat.eqb_neq. pose proof (Nat.pow_nonzero 10 k). lia.
Qed.

Lemma decimal_length (k n : nat) :
  (10 ^ k <= n < 10 ^ S k)%nat -> length (decimal n) = S k.
Proof.
  intros Hn. unfold decimal.
  assert (k < 10 ^ k)%nat by (apply Nat.pow_gt_lin_r; lia).
  rewrite (decimalAux_length k) by (done || lia). simpl. lia.
Qed.

Lemma pad_length (n : nat) : (n < 100)%nat -> length (ChatUtil.pad n) = 2%nat.
Proof.
  intros Hn. unfold ChatUtil.pad. destruct (Nat.ltb_spec n 10).
  - rewrite length_app. destruct (decide (n = 0)%nat) as [->|Hne]; [done|].
    rewrite (decimal_length 0) by (simpl; lia). done.
  - apply (decimal_length 1). simpl. lia.
Qed.

Lemma pad_year_length (n : nat) :
  (1000 <= Z.of_nat n < 10000)%Z -> length (ChatUtil.pad n) = 4%nat.
Proof.
  intros Hn. unfold ChatUtil.pad. destruct (Nat.ltb_spec n 10); [lia|].
  apply (decimal_length 3).
  split; [apply Nat2Z.inj_le|apply Nat2Z.inj_lt]; rewrite Nat2Z.inj_pow; simpl; lia.
Qed.

Lemma take_day (year month day rest : jsstring) :
  length (year ++ js "-" ++ month ++ js "-" ++ day) = 10%nat ->
  take 10 (year ++ js "-" ++ month ++ js "-" ++ day ++ rest) =
  year ++ js "-" ++ month ++ js "-" ++ day.
Proof.
  intros L.
  replace (year ++ js "-" ++ month ++ js "-" ++ day ++ rest)
    with ((year ++ js "-" ++ month ++ js "-" ++ day) ++ rest) by (by rewrite <- !app_assoc).
  by apply take_app_exact.
Qed.

(** X13: a timestamp has a fixed layout. For a date of a four-digit
    year, [Chat.toTimestamp(date)] is [yyyy-MM-dd hh:mm:ss], 19 units
    long, and its first 10 units are the day, as [LogReader.today] takes
    them; with [human] set it is [yyyy-MM-dd hh:mm] and [am] or [pm],
    18 units long, with the same day. *)
Theorem toTimestamp_has_fixed_layout (date : ChatUtil.Date) :
  (1000 <= Z.of_nat (ChatUtil.getFullYear date) < 10000)%Z ->
  (ChatUtil.getMonth date < 12)%nat -> (ChatUtil.getDate date < 32)%nat ->
  (ChatUtil.getHours date < 24)%nat -> (ChatUtil.getMinutes date < 60)%nat ->
  (ChatUtil.getSeconds date < 60)%nat ->
  let day := ChatUtil.pad (ChatUtil.getFullYear date) ++ js "-" ++
             ChatUtil.pad (ChatUtil.getMonth date + 1) ++ js "-" ++
             ChatUtil.pad (ChatUtil.getDate date) in
  length (ChatUtil.toTimestamp date false) = 19%nat /\
  length day = 10%nat /\
  slice (ChatUtil.toTimestamp date false) 0 10 = day /\
  length (ChatUtil.toTimestamp date true) = 18%nat /\
  slice (ChatUtil.toTimestamp date true) 0 10 = day.
Proof.
  intros Hy Hmo Hd Hh Hmi Hs. cbv zeta.
  pose proof (pad_year_length _ Hy) as Ly.
  assert (Lmo : length (ChatUtil.pad (ChatUtil.getMonth date + 1)) = 2%nat) by (apply pad_length; lia).
  assert (Ld : length (ChatUtil.pad (ChatUtil.getDate date)) = 2%nat) by (apply pad_length; lia).
  assert (Lh : length (ChatUtil.pad (ChatUtil.getHours date)) = 2%nat) by (apply pad_length; lia).
  assert (Lmi : length (ChatUtil.pad (ChatUtil.getMinutes date)) = 2%nat) by (apply pad_length; lia).
  assert (Ls : length (ChatUtil.pad (ChatUtil.getSeconds date)) = 2%nat) by (apply pad_length; lia).
  set (hour12 := if (ChatUtil.getHours date mod 12 =? 0)%nat then 12%nat
                 else (ChatUtil.getHours date mod 12)%nat).
  assert (Lh12 : length (ChatUtil.pad hour12) = 2%nat).
  { apply pad_length. unfold hour12. destruct (_ =? _)%nat; [lia|].
    pose proof (Nat.mod_upper_bound (ChatUtil.getHours date) 12). lia. }
  assert (Lday : length (ChatUtil.pad (ChatUtil.getFullYear date) ++ js "-" ++
                         ChatUtil.pad (ChatUtil.getMonth date + 1) ++ js "-" ++
                         ChatUtil.pad (ChatUtil.getDate date)) = 10%nat).
  { rewrite !length_app, Ly, Lmo, Ld. reflexivity. }
  unfold ChatUtil.toTimestamp. fold hour12. cbn [join take].
  rewrite <- !app_assoc. unfold slice. rewrite !drop_0, Nat.sub_0_r.
  repeat split.
  - rewrite !length_app, Ly, Lmo, Ld, Lh, Lmi, Ls. reflexivity.
  - done.
  - by apply take_day.
  - destruct (12 <=? ChatUtil.getHours date)%nat;
      rewrite !length_app, Ly, Lmo, Ld, Lh12, Lmi; reflexivity.
  - by apply take_day.
Qed.

Lemma toTimestamp_has_fixed_layout_witness :
  let date := {| ChatUtil.getFullYear := 2020; ChatUtil.getMonth := 4; ChatUtil.getDate := 9;
                 ChatUtil.getHours := 15; ChatUtil.getMinutes := 7; ChatUtil.getSeconds := 0 |} in
  ChatUtil.toTimestamp date false = js "2020-05-09 15:07:00" /\
  ChatUtil.toTimestamp date true = js "2020-05-09 03:07pm" /\
  length (ChatUtil.toTimestamp date false) = 19%nat.
Proof.
  cbv zeta. split; [vm_compute; reflexivity|]. split; [vm_compute; reflexivity|].
  apply (toTimestamp_has_fixed_layout
           {| ChatUtil.getFullYear := 2020; ChatUtil.getMonth := 4; ChatUtil.getDate := 9;
              ChatUtil.getHours := 15; ChatUtil.getMinutes := 7; ChatUtil.getSeconds := 0 |});
    simpl; lia.
Defined.


(** ** [canEmbedURI] *)

Lemma lastIn_after (front back : jsstring) (c : N) :
  Forall (fun d => d <> c) back ->
  ChatUtil.lastIn (front ++ c :: back) c = Some (length front).
Proof.
  intros Hback.
  assert (Hnone : ChatUtil.lastIn back c = None).
  { induction Hback as [|d back Hd _ IH]; [done|]. simpl. rewrite IH.
    apply N.eqb_neq in Hd. by rewrite Hd. }
  induction front as [|d front IH]; simpl.
  - by rewrite Hnone, N.eqb_refl.
  - by rewrite IH.
Qed.

Lemma approved_fit : forallb ChatUtil.fitsHeuristic ChatUtil.approvedDomains = true.
Proof. vm_compute. reflexivity. Qed.

Lemma approved_domain_fits (domain : jsstring) :
  domain ∈ ChatUtil.approvedDomains ->
  (4 <= length domain)%nat /\
  Forall (fun c => c <> ChatUtil.DOT) (take (length domain - 4) domain) /\
  Forall (fun c => c <> ChatUtil.SLASH) domain /\
  ChatUtil.lastIndexOf domain ChatUtil.DOT (Z.of_nat (length domain) - 5) = None.
Proof.
  intros Hin. pose proof approved_fit as Hall. rewrite forallb_forall in Hall.
  apply list_elem_of_In, Hall in Hin. unfold ChatUtil.fitsHeuristic in Hin.
  apply andb_true_iff in Hin as [[[Hlen Hdot]%andb_true_iff Hslash]%andb_true_iff Hlast].
  split; [by apply Nat.leb_le|]. split; [|split].
  - apply Forall_forall. intros c Hc. rewrite forallb_forall in Hdot.
    apply list_elem_of_In, Hdot in Hc. by apply negb_true_iff, N.eqb_neq in Hc.
  - apply Forall_forall. intros c Hc. rewrite forallb_forall in Hslash.
    apply list_elem_of_In, Hslash in Hc. by apply negb_true_iff, N.eqb_neq in Hc.
  - by apply bool_decide_eq_true in Hlast.
Qed.

(** The domain that is looked up for a host under an approved domain. *)
Lemma embedDomain_approved (sub domain rest : jsstring) :
  domain ∈ ChatUtil.approvedDomains ->
  Forall (fun c => c <> ChatUtil.SLASH) sub ->
  (sub = [] \/ exists labels, sub = labels ++ [ChatUtil.DOT]) ->
  (rest = [] \/ exists path, rest = ChatUtil.SLASH :: path) ->
  ChatUtil.embedDomain (sub ++ domain ++ rest) = domain.
Proof.
  intros Hin Hsub Hlabels Hrest.
  destruct (approved_domain_fits domain Hin) as (Hlen & Hdot & Hslash & Hlast).
  assert (Hhost : Forall (fun c => c <> ChatUtil.SLASH) (sub ++ domain)) by (by apply Forall_app).
  unfold ChatUtil.embedDomain.
  assert (Hcut : (if (0 <=? indexOf (sub ++ domain ++ rest) ChatUtil.SLASH)%Z
                  then slice (sub ++ domain ++ rest) 0
                         (Z.to_nat (indexOf (sub ++ domain ++ rest) ChatUtil.SLASH))
                  else sub ++ domain ++ rest) = sub ++ domain).
  { rewrite app_assoc. destruct Hrest as [->|(path & ->)].
    - rewrite app_nil_r, indexOf_none by done. reflexivity.
    - rewrite indexOf_absent by done.
      destruct (Z.leb_spec 0 (Z.of_nat (length (sub ++ domain)))) as [_|Hneg]; [|lia].
      rewrite Nat2Z.id. unfold slice. rewrite drop_0, Nat.sub_0_r. by apply take_app_exact. }
  rewrite Hcut. destruct Hlabels as [->|(labels & ->)].
  - simpl app. by rewrite Hlast.
  - unfold ChatUtil.lastIndexOf. rewrite <- app_assoc. simpl app.
    replace (S (Z.to_nat (Z.of_nat (length (labels ++ ChatUtil.DOT :: domain)) - 5)))
      with (length (labels ++ [ChatUtil.DOT]) + (length domain - 4))%nat
      by (rewrite !length_app; simpl; lia).
    replace (labels ++ ChatUtil.DOT :: domain) with ((labels ++ [ChatUtil.DOT]) ++ domain)
      by (by rewrite <- app_assoc).
    rewrite take_app_add'  by done. rewrite <- app_assoc. simpl app.
    rewrite lastIn_after by done. unfold sliceFrom.
    replace (labels ++ ChatUtil.DOT :: domain) with ((labels ++ [ChatUtil.DOT]) ++ domain)
      by (by rewrite <- app_assoc).
    apply drop_app_exact. rewrite length_app. simpl. lia.
Qed.

(** X14: an approved image host is only embedded over HTTPS. For a host
    that is one of [approvedDomains] or a subdomain of one, an [http://]
    URI is refused with the request to use HTTPS, or, with [autofix],
    made protocol-relative: the heuristic that finds the domain works
    for every approved domain. *)
Theorem canEmbedURI_approved_hosts_need_https (c : CommandContext) (w : World)
    (sub domain rest : jsstring) :
  domain ∈ ChatUtil.approvedDomains ->
  Forall (fun ch => ch <> ChatUtil.SLASH) sub ->
  (sub = [] \/ exists labels, sub = labels ++ [ChatUtil.DOT]) ->
  (rest = [] \/ exists path, rest = ChatUtil.SLASH :: path) ->
  let uri := sub ++ domain ++ rest in
  ChatUtil.canEmbedURI c (js "http://" ++ uri) true w = (Some (js "//" ++ uri), w) /\
  ChatUtil.canEmbedURI c (js "http://" ++ uri) false w =
    (None, errorReply c (js "Please use HTTPS for image " ++ DQ ++ uri ++ DQ) w).
Proof.
  intros Hin Hsub Hlabels Hrest. cbv zeta.
  pose proof (embedDomain_approved sub domain rest Hin Hsub Hlabels Hrest) as Hdomain.
  assert (Happroved : existsb (jseq domain) ChatUtil.approvedDomains = true).
  { apply existsb_exists. exists domain. split; [by apply list_elem_of_In|apply jseq_refl]. }
  unfold ChatUtil.canEmbedURI.
  replace (startsWith (js "http://" ++ sub ++ domain ++ rest) (js "https://")) with false
    by reflexivity.
  replace (startsWith (js "http://" ++ sub ++ domain ++ rest) (js "//")) with false by reflexivity.
  replace (startsWith (js "http://" ++ sub ++ domain ++ rest) (js "data:")) with false
    by reflexivity.
  rewrite startsWith_prefix. cbn [negb andb]. unfold sliceFrom.
  rewrite (drop_app_exact (js "http://")) by reflexivity.
  by rewrite Hdomain, Happroved.
Qed.

Lemma canEmbedURI_approved_hosts_need_https_witness :
  let c := Sample.typed (js "/img") (js "bob") (js "tech")
             (Sample.world Sample.voiced (Sample.plainRoom (js "bob") false)) in
  let w := Sample.world Sample.voiced (Sample.plainRoom (js "bob") false) in
  ChatUtil.canEmbedURI c (js "http://i.imgur.com/a.png") true w = (Some (js "//i.imgur.com/a.png"), w) /\
  ChatUtil.canEmbedURI c (js "http://i.imgur.com/a.png") false w =
    (None, errorReply c (js "Please use HTTPS for image " ++ DQ ++ js "i.imgur.com/a.png" ++ DQ) w).
Proof.
  cbv zeta.
  apply (canEmbedURI_approved_hosts_need_https _ _ (js "i.") (js "imgur.com") (js "/a.png")).
  - vm_compute. left.
  - vm_compute. repeat constructor; discriminate.
  - right. by exists (js "i").
  - right. by exists (js "a.png").
Defined.


(** * Further properties: the chat core *)

(** ** [Chat.filter] *)

Lemma filterFrom_no_opinion (fs : list ChatFilter) (index : nat) (c : CommandContext)
    (text : jsstring) (room targetUser : option jsstring) (orig : jsstring) (w : World) :
  Forall (fun f : ChatFilter => forall w', f c w' text room targetUser orig = OutUndefined) fs ->
  filterFrom fs index c text room targetUser orig w =
  (JString text,
   {| users := users w; rooms := rooms w;
      log := log w ++ ((fun i => CallFilter i text orig) <$> seq index (length fs)) |}).
Proof.
  intros Hfs. revert index w. induction Hfs as [|f fs Hf _ IH]; intros index w.
  - simpl. rewrite app_nil_r. by destruct w.
  - cbn [filterFrom]. rewrite Hf, IH. cbn [emit users rooms log length seq fmap list_fmap].
    by rewrite <- app_assoc.
Qed.

(** X15: filters that have no opinion change nothing. When every filter
    of [Chat.filters] returns [undefined] for a message, [Chat.filter]
    returns the message as it came, after it has called every filter once,
    in order, with that message as [message] and as [originalMessage]. *)
Theorem filters_without_opinion_pass_the_message (srv : Server) (c : CommandContext)
    (text : jsstring) (room targetUser : option jsstring) (w : World) :
  Forall (fun f : ChatFilter => forall w', f c w' text room targetUser text = OutUndefined)
         (filters srv) ->
  Chat_filter srv c text room targetUser w =
  (JString text,
   {| users := users w; rooms := rooms w;
      log := log w ++ ((fun i => CallFilter i text text) <$> seq 0 (length (filters srv))) |}).
Proof. intros Hfs. unfold Chat_filter. by apply filterFrom_no_opinion. Qed.

Lemma filters_without_opinion_pass_the_message_witness :
  let silentFilter : ChatFilter := fun _ _ _ _ _ _ => OutUndefined in
  let srv := Sample.server ∅ [silentFilter; silentFilter] in
  let w := Sample.world Sample.voiced (Sample.plainRoom (js "bob") false) in
  let c := Sample.typed (js "hi") (js "bob") (js "tech") w in
  Chat_filter srv c (js "hi") (Some (js "tech")) None w =
  (JString (js "hi"),
   {| users := users w; rooms := rooms w;
      log := [CallFilter 0 (js "hi") (js "hi"); CallFilter 1 (js "hi") (js "hi")] |}).
Proof.
  cbv zeta.
  apply (filters_without_opinion_pass_the_message
           (Sample.server ∅ [fun _ _ _ _ _ _ => OutUndefined; fun _ _ _ _ _ _ => OutUndefined])).
  repeat constructor.
Defined.

(** ** What [canTalk] lets through *)

Lemma gate_passed {A B : Type} (m : Gate A) (k : A -> Gate B) (w w' : World) (b : B) :
  andThen m k w = (Some b, w') ->
  exists a w0, m w = (Some a, w0) /\ k a w0 = (Some b, w').
Proof.
  unfold andThen. destruct (m w) as [[a|] w0]; [|discriminate]. intros H. by exists a, w0.
Qed.

Lemma refuseIf_passed (cond : bool) (say : World -> World) (w w0 : World) (u : unit) :
  refuseIf cond say w = (Some u, w0) -> cond = false /\ w0 = w.
Proof. unfold refuseIf, refuse, pass. destruct cond; [discriminate|]. by intros [= _ <-]. Qed.

Lemma gate_refused {A B : Type} (m : Gate A) (k : A -> Gate B) (w : World) :
  (m w).1 = None -> (andThen m k w).1 = None.
Proof. unfold andThen. destruct (m w) as [[a|] w0]; [discriminate|done]. Qed.

Lemma gate_went_on {A B : Type} (m : Gate A) (k : A -> Gate B) (w w0 : World) (a : A) :
  m w = (Some a, w0) -> andThen m k w = k a w0.
Proof. unfold andThen. by intros ->. Qed.

Section TalkText.

Variable srv : Server.

(** The message checks, once passed, have stripped the zalgo, found no
    banned character, and left the users as they were but for the last
    message of the speaker; and the message was not blank or too long. *)
Lemma mayTalkText_passed (c : CommandContext) (rid targetUser : option jsstring) (now : Z)
    (text r : jsstring) (w w' : World) :
  mayTalkText srv c rid targetUser now text w = (Some r, w') ->
  r = stripRuns isZalgo 3 text /\
  testClass isBannedChar r = false /\
  text <> [] /\
  ((MAX_MESSAGE_LENGTH <? weightedLength text)%nat &&
   negb (u_can (users w (c_user c)) (js "ignorelimits") None) = false) /\
  rooms w' = rooms w /\ log w' = log w /\
  match rid with
  | Some _ => w' = setUser (c_user c) (touchUser (users w (c_user c)) r now) w
  | None => w' = w
  end.
Proof.
  unfold mayTalkText. intros H.
  apply gate_passed in H as ([] & w1 & Hblank & H). apply refuseIf_passed in Hblank as [Hblank ->].
  apply gate_passed in H as ([] & w1 & Hlen & H). unfold checkLength in Hlen.
  apply refuseIf_passed in Hlen as [Hlen ->].
  unfold afterLength in H.
  apply gate_passed in H as ([] & w1 & Hban & H). apply refuseIf_passed in Hban as [Hban ->].
  apply gate_passed in H as ([] & w1 & Hlink & H). apply refuseIf_passed in Hlink as [_ ->].
  apply gate_passed in H as ([] & w1 & Hformat & H).
  assert (w1 = w) as ->.
  { revert Hformat. unfold checkFormat, pass. destruct (rooms w <$> rid) as [room|]; [|by intros [= <-]].
    destruct (negb (r_filterStretching room) && negb (r_filterCaps room) &&
              negb (r_filterEmojis room)); [by intros [= <-]|].
    destruct (u_can (users w (c_user c)) (js "bypassall") None); [by intros [= <-]|].
    intros Hf. repeat (apply gate_passed in Hf as ([] & ? & Hg & Hf);
                       apply refuseIf_passed in Hg as [_ ->]).
    by apply refuseIf_passed in Hf as [_ ->]. }
  apply gate_passed in H as ([] & w1 & Hslow & H). apply refuseIf_passed in Hslow as [_ ->].
  apply gate_passed in H as ([] & w1 & Hname & H). apply refuseIf_passed in Hname as [_ ->].
  apply gate_passed in H as ([] & w1 & Hstatus & H). apply refuseIf_passed in Hstatus as [_ ->].
  apply gate_passed in H as ([] & w1 & Hwords & H). apply refuseIf_passed in Hwords as [_ ->].
  apply gate_passed in H as ([] & w1 & Hgame & H).
  assert (w1 = w) as ->.
  { revert Hgame. destruct (checkGameFilter c w); [discriminate|]. by intros [= <-]. }
  apply gate_passed in H as ([] & w1 & Hsame & H).
  split; [|split; [|split; [|split]]].
  - apply gate_passed in H as ([] & w2 & _ & H). by injection H as <- _.
  - apply gate_passed in H as ([] & w2 & _ & H). injection H as <- _. exact Hban.
  - by apply jseq_false.
  - exact Hlen.
  - apply gate_passed in H as ([] & w2 & Hhigh & H). apply refuseIf_passed in Hhigh as [_ ->].
    injection H as <- <-. destruct rid as [id|].
    + apply gate_passed in Hsame as ([] & w2 & Hdup & Hset). apply refuseIf_passed in Hdup as [_ ->].
      injection Hset as <-. by repeat split.
    + injection Hsame as <-. by repeat split.
Qed.

End TalkText.

(** X16: what [canTalk] lets through, on a server without chat filters.
    A message that [canTalk] returns is the message given without its
    zalgo; it holds no banned character; the message given was not empty
    and, unless the user can [ignorelimits], weighed at most 300; and
    nothing was said to anyone on the way. *)
Theorem canTalk_lets_only_clean_text_through (srv : Server) (c : CommandContext)
    (text r : jsstring) (room targetUser : option jsstring) (now : Z) (w w' : World) :
  filters srv = [] ->
  canTalk srv c (Some text) room targetUser now w = (JString r, w') ->
  r = stripRuns isZalgo 3 text /\
  testClass isBannedChar r = false /\
  text <> [] /\
  (u_can (users w (c_user c)) (js "ignorelimits") None = false ->
   (weightedLength text <= MAX_MESSAGE_LENGTH)%nat) /\
  rooms w' = rooms w /\ log w' = log w.
Proof.
  intros Hnone. unfold canTalk.
  destruct (mayTalk srv c _ _ w) as [[[]|] w1] eqn:Hmay; [|discriminate].
  apply silent_mayTalk in Hmay as ->.
  destruct (mayTalkText srv c _ _ now text w) as [[r0|] w1] eqn:Htext; [|discriminate].
  rewrite Hnone. cbn [bool_decide decide_rel]. rewrite bool_decide_eq_true_2 by done.
  intros [= -> ->].
  apply mayTalkText_passed in Htext as (Hr & Hban & Hne & Hlen & Hrooms & Hlog & _).
  repeat split; try done.
  intros Hlim. rewrite Hlim in Hlen. cbn [negb] in Hlen. rewrite andb_true_r in Hlen.
  by apply Nat.ltb_ge in Hlen.
Qed.

Lemma canTalk_lets_only_clean_text_through_witness :
  let w := Sample.world Sample.regular (Sample.plainRoom (js "bob") false) in
  let c := Sample.typed (js "hi") (js "bob") (js "tech") w in
  js "hi" = stripRuns isZalgo 3 (js "hi") /\
  testClass isBannedChar (js "hi") = false /\
  js "hi" <> [] /\
  (u_can (users w (c_user c)) (js "ignorelimits") None = false ->
   (weightedLength (js "hi") <= MAX_MESSAGE_LENGTH)%nat) /\
  rooms (canTalk (Sample.server ∅ []) c (Some (js "hi")) None None 0%Z w).2 = rooms w /\
  log (canTalk (Sample.server ∅ []) c (Some (js "hi")) None None 0%Z w).2 = log w.
Proof.
  cbv zeta.
  apply (canTalk_lets_only_clean_text_through (Sample.server ∅ [])
           (Sample.typed (js "hi") (js "bob") (js "tech")
              (Sample.world Sample.regular (Sample.plainRoom (js "bob") false)))
           (js "hi") (js "hi") None None 0%Z); [reflexivity|].
  vm_compute. reflexivity.
Defined.

(** ** The same message twice in the lobby *)

Section Repeat.

Variable srv : Server.

Lemma refuseIf_step {B : Type} (cond : bool) (say : World -> World) (k : unit -> Gate B)
    (w : World) :
  (cond = false -> (k tt w).1 = None) -> (andThen (refuseIf cond say) k w).1 = None.
Proof. destruct cond; [done|]. intros H. by apply H. Qed.

Lemma silent_step {B : Type} (m : Gate unit) (k : unit -> Gate B) (w : World) :
  silent m -> (k tt w).1 = None -> (andThen m k w).1 = None.
Proof.
  intros Hm Hk. unfold andThen. destruct (m w) as [[[]|] w0] eqn:Hmw; [|done].
  by apply Hm in Hmw as ->.
Qed.

Lemma silent_checkFormat (c : CommandContext) (room : option Room) (user : User) (text : jsstring) :
  silent (checkFormat srv c room user text).
Proof.
  unfold checkFormat. destruct room as [room|]; [|apply silent_pass].
  destruct (_ && _); [apply silent_pass|]. destruct (u_can _ _ _); [apply silent_pass|].
  silent_gate.
Qed.

(** In the lobby and in the help room, the message that the user sent
    last is refused while the cooldown runs. *)
Lemma mayTalkText_repeated (c : CommandContext) (id : jsstring) (targetUser : option jsstring)
    (now : Z) (text : jsstring) (w : World) :
  id = js "lobby" \/ id = js "help" ->
  u_can (users w (c_user c)) (js "bypassall") None = false ->
  trim (stripRuns isZalgo 3 text) = u_lastMessage (users w (c_user c)) ->
  (now - u_lastMessageTime (users w (c_user c)) < MESSAGE_COOLDOWN)%Z ->
  (mayTalkText srv c (Some id) targetUser now text w).1 = None.
Proof.
  intros Hid Hbypass Hsame Hsoon. unfold mayTalkText.
  apply refuseIf_step. intros _. unfold checkLength. apply refuseIf_step. intros _.
  unfold afterLength.
  apply refuseIf_step. intros _. apply refuseIf_step. intros _.
  apply silent_step; [apply silent_checkFormat|].
  apply refuseIf_step. intros _. apply refuseIf_step. intros _.
  apply refuseIf_step. intros _. apply refuseIf_step. intros _.
  destruct (checkGameFilter c w) as [gameFilter|]; [done|].
  apply silent_step; [apply silent_pass|].
  apply gate_refused. apply gate_refused.
  rewrite Hbypass, Hsame, jseq_refl.
  replace (jseq id (js "help") || jseq id (js "lobby")) with true
    by (destruct Hid as [-> | ->]; reflexivity).
  by replace (now - u_lastMessageTime (users w (c_user c)) <? MESSAGE_COOLDOWN)%Z with true
    by (symmetry; by apply Z.ltb_lt).
Qed.

End Repeat.

(** X17: in the rooms [lobby] and [help] a user cannot repeat a message
    within five minutes. After [canTalk] has accepted a message in such
    a room from a user who cannot [bypassall], [canTalk] returns [null]
    for the same message from that user at any time less than
    [MESSAGE_COOLDOWN] later: provided that the message, once its zalgo
    is removed, has no white space at either end, since the message is
    stored as it is and compared after [trim()]. *)
Theorem repeated_message_is_refused_in_lobby (srv : Server) (c : CommandContext)
    (id text r : jsstring) (now later : Z) (w w' : World) :
  c_room c = Some id -> pmTarget c = None ->
  id = js "lobby" \/ id = js "help" ->
  u_can (users w (c_user c)) (js "bypassall") None = false ->
  trim (stripRuns isZalgo 3 text) = stripRuns isZalgo 3 text ->
  canTalk srv c (Some text) None None now w = (JString r, w') ->
  (later - now < MESSAGE_COOLDOWN)%Z ->
  (canTalk srv c (Some text) None None later w').1 = JNull.
Proof.
  intros Hroom Hpm Hid Hbypass Htrim Hfirst Hsoon.
  assert (Hplace : talkRoom c None None = Some id /\ talkTarget c None = None).
  { unfold talkRoom, talkTarget. by rewrite Hpm, Hroom. }
  destruct Hplace as [Hr Ht].
  (* the first call leaves the message on the user *)
  assert (Huser : users w' (c_user c) =
                  touchUser (users w (c_user c)) (stripRuns isZalgo 3 text) now).
  { revert Hfirst. unfold canTalk. rewrite Hr, Ht.
    destruct (mayTalk srv c _ _ w) as [[[]|] w1] eqn:Hmay; [|discriminate].
    apply silent_mayTalk in Hmay as ->.
    destruct (mayTalkText srv c _ _ now text w) as [[r0|] w1] eqn:Htext; [|discriminate].
    apply mayTalkText_passed in Htext as (-> & _ & _ & _ & _ & _ & ->).
    assert (Hset : users (setUser (c_user c)
                            (touchUser (users w (c_user c)) (stripRuns isZalgo 3 text) now) w)
                     (c_user c) =
                   touchUser (users w (c_user c)) (stripRuns isZalgo 3 text) now).
    { cbn [setUser users]. by rewrite jseq_refl. }
    destruct (bool_decide (filters srv = [])); [by intros [= _ <-]|].
    unfold Chat_filter. intros Hf.
    assert (Hkeep : forall fs i t orig w0,
              users (filterFrom fs i c t (Some id) None orig w0).2 = users w0).
    { induction fs as [|f fs IH]; intros i t orig w0; [done|]. cbn [filterFrom].
      destruct (f c w0 t (Some id) None orig) as [| | |s]; try done.
      - by rewrite IH.
      - destruct (jseq s []); [done|]. by rewrite IH. }
    pose proof (Hkeep (filters srv) O (stripRuns isZalgo 3 text) (stripRuns isZalgo 3 text)
                  (setUser (c_user c)
                     (touchUser (users w (c_user c)) (stripRuns isZalgo 3 text) now) w)) as Hk.
    rewrite Hf in Hk. cbn [snd] in Hk. by rewrite Hk. }
  (* the second call *)
  unfold canTalk. rewrite Hr, Ht.
  destruct (mayTalk srv c _ _ w') as [[[]|] w1] eqn:Hmay; [|done].
  apply silent_mayTalk in Hmay as ->.
  pose proof (mayTalkText_repeated srv c id None later text w' Hid) as Hrep.
  rewrite Huser in Hrep. cbn [touchUser u_can u_lastMessage u_lastMessageTime] in Hrep.
  specialize (Hrep Hbypass Htrim Hsoon).
  by destruct (mayTalkText srv c (Some id) None later text w') as [[r1|] w2].
Qed.

Lemma repeated_message_is_refused_in_lobby_witness :
  let w := Sample.world Sample.regular (Sample.plainRoom (js "bob") false) in
  let c := Sample.typed (js "hi") (js "bob") (js "lobby") w in
  let srv := Sample.server ∅ [] in
  (canTalk srv c (Some (js "hi")) None None 1000%Z w).1 = JString (js "hi") /\
  (canTalk srv c (Some (js "hi")) None None 200000%Z
     (canTalk srv c (Some (js "hi")) None None 1000%Z w).2).1 = JNull.
Proof.
  cbv zeta. split; [vm_compute; reflexivity|].
  apply (repeated_message_is_refused_in_lobby (Sample.server ∅ [])
           (Sample.typed (js "hi") (js "bob") (js "lobby")
              (Sample.world Sample.regular (Sample.plainRoom (js "bob") false)))
           (js "lobby") (js "hi") (js "hi") 1000%Z 200000%Z
           (Sample.world Sample.regular (Sample.plainRoom (js "bob") false))).
  - reflexivity.
  - reflexivity.
  - by left.
  - reflexivity.
  - vm_compute. reflexivity.
  - vm_compute. reflexivity.
  - vm_compute. reflexivity.
Defined.


(** ** Subcontexts *)

(** X18: a subcontext starts afresh. The context that [parse(msg, quiet)]
    runs [msg] in has the user, the room and the PM target of its parent
    and [msg] as its message, and nothing else of it: it is quiet exactly
    when [quiet] is set, whether or not its parent is quiet; it is not
    broadcasting, whether or not its parent is; and no command is
    set in it. *)
Theorem subcontext_starts_afresh (this : CommandContext) (msg : jsstring) (quiet : bool)
    (w : World) :
  match spawn this msg quiet w with
  | inr sub =>
      c_user sub = c_user this /\ c_room sub = c_room this /\ pmTarget sub = pmTarget this /\
      c_message sub = msg /\ isQuiet sub = quiet /\
      broadcasting sub = false /\ broadcastToRoom sub = true /\ broadcastMessage sub = [] /\
      c_cmd sub = [] /\ cmdToken sub = [] /\ c_target sub = [] /\ fullCmd sub = [] /\
      c_handler sub = VUndefined
  | inl _ => False
  end.
Proof. rewrite spawn_subcontext. cbn. by destruct quiet. Qed.

(** ** Broadcasting twice *)

(** X19: [runBroadcast] broadcasts once. In the context and the world
    that a successful [runBroadcast] leaves, [runBroadcast] and
    [canBroadcast] return [true] again, whatever their arguments and
    the time, and send and change nothing. *)
Theorem runBroadcast_broadcasts_once (srv : Server) (c c' : CommandContext)
    (ignoreCooldown again : bool) (suppressMessage other : option jsstring) (now later : Z)
    (w w' : World) :
  runBroadcast srv c ignoreCooldown suppressMessage now w = (true, c', w') ->
  runBroadcast srv c' again other later w' = (true, c', w') /\
  canBroadcast srv c' again other later w' = (true, c', w').
Proof.
  intros Hrun.
  assert (Hdone : broadcasting c' || negb (shouldBroadcast c') = true).
  { revert Hrun. unfold runBroadcast.
    destruct (broadcasting c || negb (shouldBroadcast c)) eqn:Hskip; [by intros [= <- _]|].
    destruct (if jseq (broadcastMessage c) [] then _ else _) as [[granted c1] w1].
    destruct granted; cbn [negb]; [|discriminate].
    destruct (c_room (withBroadcasting c1 (c_language c1))); by intros [= <- _]. }
  unfold runBroadcast, canBroadcast. by rewrite Hdone.
Qed.

Lemma runBroadcast_broadcasts_once_witness :
  let w := Sample.world Sample.voiced (Sample.plainRoom (js "bob") false) in
  let c := withCommand (Sample.typed (js "!data pikachu") (js "bob") (js "tech") w)
             {| d_cmd := js "data"; d_cmdToken := js "!"; d_target := js "pikachu";
                d_fullCmd := js "data"; d_handler := VHandler Sample.data |} in
  let first := runBroadcast (Sample.server Sample.dataTable []) c false None 0%Z w in
  first.1.1 = true /\
  log first.2 = [RoomAdd (js "tech") (js "|c| bob|!data pikachu")] /\
  runBroadcast (Sample.server Sample.dataTable []) first.1.2 false None 1%Z first.2 =
  (true, first.1.2, first.2).
Proof.
  cbv zeta. split; [vm_compute; reflexivity|]. split; [vm_compute; reflexivity|].
  destruct (runBroadcast _ _ false None 0%Z _) as [[granted c'] w'] eqn:Hfirst.
  assert (granted = true) as ->.
  { apply (f_equal (fun r => r.1.1)) in Hfirst. vm_compute in Hfirst. congruence. }
  exact (proj1 (runBroadcast_broadcasts_once _ _ _ _ false _ None _ 1%Z _ _ Hfirst)).
Defined.

(** ** Verbs that name no command *)

Section UnknownVerbs.

Variable toLowerCase : jsstring -> jsstring.
Variable commands : gmap jsstring value.
Variable groups : list (jsstring * Group).

Lemma walk_unknown (fuel : nat) (recursing : bool) (cmd target full : jsstring) :
  commands !! cmd = None ->
  walk toLowerCase (S fuel) recursing (VTable commands) cmd target full =
  WalkDone VUndefined (VTable commands) cmd target full.
Proof. intros H. cbn [walk getProp]. by rewrite H. Qed.

Lemma withDefault_none (commandHandler : value) :
  commands !! js "default" = None ->
  withDefault commandHandler (VTable commands) = commandHandler.
Proof. intros H. unfold withDefault. cbn [getProp]. rewrite H. cbn. by rewrite andb_false_r. Qed.

(** A verb that names nothing, where no [default] command and no group
    shorthand steps in, is parsed into a descriptor without a handler. *)
Lemma parseCommand_unknown (tok : N) (V rest target : jsstring) :
  tok = 47 \/ tok = 33 -> isVerb V = true -> toLowerCase V = V -> Tail rest target ->
  commands !! V = None -> commands !! js "default" = None ->
  shorthand groups V target = None ->
  parseCommand toLowerCase commands groups (tok :: V ++ rest) false =
  Some {| d_cmd := V; d_cmdToken := [tok]; d_target := target; d_fullCmd := V;
          d_handler := VUndefined |}.
Proof.
  intros Htok HV Hlow Hrest Hnone Hdefault Hshort. unfold parseCommand.
  rewrite parseCommandN_S, (tokenize_verb toLowerCase tok V rest target) by done.
  rewrite walk_unknown by done. cbn [resolved]. rewrite withDefault_none by done.
  cbn [isTruthy negb andb]. by rewrite Hshort.
Qed.

(** The group shorthands: such a verb, when a shorthand matches it, is
    parsed as the command line of the shorthand. *)
Lemma parseCommand_shorthand (tok : N) (V rest target line : jsstring) :
  tok = 47 \/ tok = 33 -> isVerb V = true -> toLowerCase V = V -> Tail rest target ->
  commands !! V = None -> commands !! js "default" = None ->
  shorthand groups V target = Some line ->
  parseCommand toLowerCase commands groups (tok :: V ++ rest) false =
  parseCommand toLowerCase commands groups line true.
Proof.
  intros Htok HV Hlow Hrest Hnone Hdefault Hshort. unfold parseCommand.
  rewrite parseCommandN_S, (tokenize_verb toLowerCase tok V rest target) by done.
  rewrite walk_unknown by done. cbn [resolved]. rewrite withDefault_none by done.
  cbn [isTruthy negb andb]. rewrite Hshort.
  by rewrite (proj1 (parseCommandN_recursing toLowerCase commands groups 1 line)).
Qed.

Lemma tokenize_rewritten (message rewritten : jsstring) (c d : N) :
  isSpace c = false -> c ∈ message -> isSpace d = false -> d ∈ rewritten ->
  hardcoded message = rewritten -> hardcoded rewritten = rewritten ->
  tokenize toLowerCase message = tokenize toLowerCase rewritten.
Proof.
  intros Hc Hin Hd Hin' Hm Hr. unfold tokenize.
  rewrite (trim_not_blank message c Hc Hin), (trim_not_blank rewritten d Hd Hin').
  by rewrite Hm, Hr.
Qed.

End UnknownVerbs.

(** X20: [>> code] is [/eval code] and [>>> code] is [/evalbattle code]:
    [parseCommand] gives the same answer for both spellings, whatever
    the commands, the groups and the code. *)
Theorem eval_shorthands_are_commands (toLowerCase : jsstring -> jsstring)
    (commands : gmap jsstring value) (groups : list (jsstring * Group))
    (code : jsstring) (recursing : bool) :
  parseCommand toLowerCase commands groups (js ">> " ++ code) recursing =
  parseCommand toLowerCase commands groups (js "/eval " ++ code) recursing /\
  parseCommand toLowerCase commands groups (js ">>> " ++ code) recursing =
  parseCommand toLowerCase commands groups (js "/evalbattle " ++ code) recursing.
Proof.
  unfold parseCommand. rewrite !parseCommandN_S. split.
  - rewrite (tokenize_rewritten toLowerCase (js ">> " ++ code) (js "/eval " ++ code) 62 47);
      try reflexivity; by left.
  - rewrite (tokenize_rewritten toLowerCase (js ">>> " ++ code) (js "/evalbattle " ++ code) 62 47);
      try reflexivity; by left.
Qed.

(** No name of a group, no shorthand. *)
Lemma groupShorthand_other (g groupid fullCmd target : jsstring) :
  fullCmd ∉ shorthandNames groupid -> groupShorthand g groupid fullCmd target = None.
Proof.
  intros Hnot. unfold groupShorthand.
  assert (forall name, name ∈ shorthandNames groupid -> jseq fullCmd name = false) as Hno.
  { intros name Hin. apply jseq_false. by intros ->. }
  rewrite !Hno; [reflexivity|..]; unfold shorthandNames, shorthandCommands; cbn [fmap list_fmap fst];
    set_solver.
Qed.

Lemma jseq_prefixes (p q s : jsstring) : jseq (p ++ s) (q ++ s) = jseq p q.
Proof.
  destruct (jseq p q) eqn:H.
  - apply jseq_true in H as ->. apply jseq_refl.
  - apply jseq_false. apply jseq_false in H. intros Heq. by apply app_inv_tail in Heq.
Qed.

(** The tests of the loop, for a verb that ends in the id of the group. *)
Lemma groupShorthand_prefix (g groupid p target : jsstring) :
  groupShorthand g groupid (p ++ groupid) target =
  if jseq p [] then Some (js "/promote " ++ target ++ js ", " ++ g)
  else if jseq p (js "global") then Some (js "/globalpromote " ++ target ++ js ", " ++ g)
  else if jseq p (js "de") || jseq p (js "un") || jseq p (js "globalde") || jseq p (js "deglobal")
  then Some (js "/demote " ++ target)
  else if jseq p (js "room") then Some (js "/roompromote " ++ target ++ js ", " ++ g)
  else if jseq p (js "forceroom") then Some (js "/forceroompromote " ++ target ++ js ", " ++ g)
  else if jseq p (js "roomde") || jseq p (js "deroom") || jseq p (js "roomun")
  then Some (js "/roomdemote " ++ target)
  else None.
Proof.
  unfold groupShorthand. rewrite !jseq_prefixes.
  by rewrite <- (jseq_prefixes p [] groupid).
Qed.

(** Each shorthand of a group stands for its line of the table. *)
Lemma groupShorthand_table (g groupid target V W t : jsstring) :
  (V, (W, t)) ∈ shorthandCommands g groupid target ->
  isVerb W = true /\ groupShorthand g groupid V target = Some (47 :: W ++ 32 :: t).
Proof.
  unfold shorthandCommands. intros H.
  repeat (apply elem_of_cons in H as [Heq|H];
          [apply pair_equal_spec in Heq as [-> Heq]; apply pair_equal_spec in Heq as [-> ->];
           split; [reflexivity|]|]);
    [..|by apply elem_of_nil in H].
  1: exact (groupShorthand_prefix g groupid [] target).
  all: rewrite groupShorthand_prefix; reflexivity.
Qed.

Lemma shorthand_table (earlier later : list (jsstring * Group)) (g : jsstring) (group : Group)
    (target V W t : jsstring) :
  Forall (fun p => V ∉ shorthandNames (g_id p.2)) earlier ->
  (V, (W, t)) ∈ shorthandCommands g (g_id group) target ->
  shorthand (earlier ++ (g, group) :: later) V target = Some (47 :: W ++ 32 :: t).
Proof.
  intros Hearlier Hin. induction Hearlier as [|[g' group'] earlier Hother _ IH].
  - cbn [app shorthand]. by rewrite (proj2 (groupShorthand_table _ _ _ _ _ _ Hin)).
  - cbn [app shorthand]. by rewrite groupShorthand_other.
Qed.

(** X21: the group shorthands. For a group of [Config.groups] with symbol
    [g] and id [groupid], the verbs [groupid], [global<groupid>],
    [de<groupid>], [un<groupid>], [globalde<groupid>], [deglobal<groupid>],
    [room<groupid>], [forceroom<groupid>], [roomde<groupid>],
    [deroom<groupid>] and [roomun<groupid>] stand for the commands
    [promote], [globalpromote], [demote] (four times), [roompromote],
    [forceroompromote] and [roomdemote] (three times); the target of a
    promotion is what was typed after the verb, trimmed, then a comma, a
    space and [g]; that of a demotion is what was typed after the verb,
    trimmed. When such a verb names no command, [Chat.commands] has no
    [default], the verb is no shorthand of a group listed before, and the
    command it stands for has a handler, [parseCommand] returns that
    command: [cmd] and [fullCmd] are its name, the token is [/] whichever
    token was typed, the handler is its handler and the target is the
    target above, trimmed. So [/voice bob] is parsed as [/promote bob, +]
    where [+] is the group with id [voice]. *)
Theorem group_shorthand_is_parsed_as_promotion (toLowerCase : jsstring -> jsstring)
    (commands : gmap jsstring value) (earlier later : list (jsstring * Group))
    (g : jsstring) (group : Group) (tok : N) (V rest target W t : jsstring)
    (h : AnnotatedChatHandler) :
  tok = 47 \/ tok = 33 ->
  isVerb V = true -> toLowerCase V = V -> Tail rest target ->
  (V, (W, t)) ∈ shorthandCommands g (g_id group) target ->
  Forall (fun p => V ∉ shorthandNames (g_id p.2)) earlier ->
  toLowerCase W = W ->
  commands !! V = None -> commands !! js "default" = None ->
  commands !! W = Some (VHandler h) ->
  parseCommand toLowerCase commands (earlier ++ (g, group) :: later) (tok :: V ++ rest) false =
  Some {| d_cmd := W; d_cmdToken := js "/"; d_target := trim t; d_fullCmd := W;
          d_handler := VHandler h |}.
Proof.
  intros Htok Hverb Hlow Hrest Hin Hearlier HW Hnone Hdefault Hhandler.
  rewrite (parseCommand_shorthand toLowerCase commands _ tok V rest target (47 :: W ++ 32 :: t));
    [|done|done|done|done|done|done|by apply shorthand_table].
  apply parseCommand_again;
    [by left|exact (proj1 (groupShorthand_table _ _ _ _ _ _ Hin))|done|constructor|done].
Qed.

Lemma group_shorthand_is_parsed_as_promotion_witness :
  parseCommand Sample.lowerAscii Sample.promoteTable
    ([(js "+", {| g_id := js "voice"; g_name := js "Voice" |})] ++
     (js "%", {| g_id := js "driver"; g_name := js "Driver" |}) :: [])
    (33 :: js "driver" ++ 32 :: js "  bob ") false =
  Some {| d_cmd := js "promote"; d_cmdToken := js "/";
          d_target := trim (trim (js "  bob ") ++ js ", " ++ js "%");
          d_fullCmd := js "promote"; d_handler := VHandler (Sample.replies (js "promoted")) |}.
Proof.
  apply (group_shorthand_is_parsed_as_promotion Sample.lowerAscii Sample.promoteTable
           [(js "+", {| g_id := js "voice"; g_name := js "Voice" |})] []
           (js "%") {| g_id := js "driver"; g_name := js "Driver" |} 33
           (js "driver") (32 :: js "  bob ") (trim (js "  bob ")) (js "promote")
           (trim (js "  bob ") ++ js ", " ++ js "%")
           (Sample.replies (js "promoted"))).
  - by right.
  - reflexivity.
  - reflexivity.
  - constructor.
  - apply list_elem_of_In. left. reflexivity.
  - constructor; [|constructor]. intros Hin. apply list_elem_of_In in Hin.
    vm_compute in Hin. intuition discriminate.
  - reflexivity.
  - reflexivity.
  - reflexivity.
  - reflexivity.
Defined.

(** [/voice bob], [!unvoice bob] and [/roomdriver  bob ] on a small
    server. *)
Lemma group_shorthand_examples :
  parseCommand Sample.lowerAscii Sample.promoteTable Sample.groups0 (js "/voice bob") false =
    Some {| d_cmd := js "promote"; d_cmdToken := js "/"; d_target := js "bob, +";
            d_fullCmd := js "promote"; d_handler := VHandler (Sample.replies (js "promoted")) |} /\
  parseCommand Sample.lowerAscii Sample.promoteTable Sample.groups0 (js "!unvoice bob") false =
    Some {| d_cmd := js "demote"; d_cmdToken := js "/"; d_target := js "bob";
            d_fullCmd := js "demote"; d_handler := VHandler (Sample.replies (js "demoted")) |} /\
  parseCommand Sample.lowerAscii Sample.promoteTable Sample.groups0 (js "/roomdriver  bob ") false =
    Some {| d_cmd := js "roompromote"; d_cmdToken := js "/"; d_target := js "bob, %";
            d_fullCmd := js "roompromote";
            d_handler := VHandler (Sample.replies (js "promoted in the room")) |}.
Proof. repeat split; vm_compute; reflexivity. Qed.

(** X22: a command that does not exist is reported to the user and to
    nobody else. When the verb of a message names no command, and no
    [default] command and no group shorthand steps in, [Chat.parse]
    returns [false] after one error reply on the connection: that the
    command does not exist, and for [/] how to send the text as a
    message; nothing is added to the room and nothing is logged as a
    crash. *)
Theorem unknown_command_is_reported (srv : Server) (fuel : nat) (now : Z) (tok : N)
    (V rest target rid uid : jsstring) (w : World) :
  tok = 47 \/ tok = 33 -> isVerb V = true -> toLowerCase srv V = V -> Tail rest target ->
  commands srv !! V = None -> commands srv !! js "default" = None ->
  shorthand (groups srv) V target = None ->
  uid ∈ r_users (rooms w rid) -> u_idle (users w uid) = false ->
  let name := DQ ++ [tok] ++ V ++ DQ in
  let text :=
    js "The command " ++ name ++ js " does not exist." ++
    (if tok =? 33 then []
     else js " To send a message starting with " ++ name ++ js ", type " ++
          DQ ++ [tok; tok] ++ V ++ DQ ++ js ".") in
  match Chat_parse srv (S fuel) now (tok :: V ++ rest) (Some rid) uid w with
  | Returned result _ w' =>
      result = JBool false /\
      w' = emit (ConnSendTo rid (js "|error|" ++ replaceNewlines text (NL ++ js "|error|"))) w
  | _ => False
  end.
Proof.
  intros Htok HV Hlow Hrest Hnone Hdefault Hshort Hin Hidle. cbv zeta.
  unfold Chat_parse. cbn [parseN]. set (c := CommandContext_new _ w).
  assert (Hc : c_message c = tok :: V ++ rest /\ c_room c = Some rid /\ c_user c = uid /\
               isQuiet c = false /\ broadcasting c = false) by done.
  destruct Hc as (Hmsg & Hroom & Huser & Hquiet & Hbroad). clearbody c.
  set (d := {| d_cmd := V; d_cmdToken := [tok]; d_target := target; d_fullCmd := V;
               d_handler := VUndefined |}).
  assert (Hpre : prelude srv c w = inr (withCommand c d, w)).
  { unfold prelude. rewrite Hmsg.
    rewrite (parseCommand_unknown (toLowerCase srv) (commands srv) (groups srv) tok V rest target)
      by done.
    fold d. cbn [withCommand c_room c_user c_cmd]. rewrite Hroom, Huser.
    rewrite bool_decide_eq_true_2 by done. cbn [negb andb withCommand c_user].
    by rewrite Huser, Hidle. }
  unfold parseWith. rewrite Hpre, Hmsg.
  unfold dispatch. cbn [withCommand c_handler d_handler d isTruthy cmdToken d_cmdToken c_cmd d_cmd].
  destruct (isVerb_chars V HV) as [Hne Hall].
  assert (Hfirst : testClass (fun ch => isLower ch || isDigit ch) (charAt V 0) = true).
  { destruct V as [|v0 V']; [done|]. apply Forall_cons in Hall as [H0 _]. cbn. by rewrite H0. }
  rewrite Hfirst. cbn [negb]. rewrite andb_false_r. cbn [negb].
  replace (jseq [tok] []) with false by (symmetry; by apply jseq_false).
  cbn [negb andb]. unfold conclude, commandDoesNotExist.
  assert (Htokc : cmdToken (withCommand c d) = [tok]) by reflexivity.
  assert (Hfull : fullCmd (withCommand c d) = V) by reflexivity.
  rewrite Htokc, Hfull.
  assert (Hname : forall m, endsWith (err_name (ErrorMessage m)) (js "ErrorMessage") = true)
    by reflexivity.
  assert (Hreply : forall m,
            errorReply (withCommand c d) m w =
            emit (ConnSendTo rid (js "|error|" ++ replaceNewlines m (NL ++ js "|error|"))) w).
  { intros m. by apply errorReply_plain. }
  clearbody d. destruct Htok as [-> | ->].
  - replace (jseq [47] (js "!")) with false by reflexivity. rewrite Hname. split; [done|].
    rewrite Hreply. cbn [err_message ErrorMessage].
    replace (47 =? 33) with false by reflexivity. by rewrite <- !app_assoc.
  - replace (jseq [33] (js "!")) with true by reflexivity. rewrite Hname. split; [done|].
    rewrite Hreply. cbn [err_message ErrorMessage].
    replace (33 =? 33) with true by reflexivity. by rewrite <- !app_assoc, app_nil_r.
Qed.

Lemma unknown_command_is_reported_witness :
  let w := Sample.world Sample.voiced (Sample.plainRoom (js "bob") false) in
  match Chat_parse (Sample.server Sample.dataTable []) 1 0%Z (js "/dtaa pikachu") (Some (js "tech"))
          (js "bob") w with
  | Returned result _ w' =>
      result = JBool false /\
      w' = emit (ConnSendTo (js "tech")
                   (js "|error|The command " ++ DQ ++ js "/dtaa" ++ DQ ++
                    js " does not exist. To send a message starting with " ++ DQ ++ js "/dtaa" ++
                    DQ ++ js ", type " ++ DQ ++ js "//dtaa" ++ DQ ++ js ".")) w
  | _ => False
  end.
Proof.
  cbv zeta.
  assert (Hin : js "bob" ∈ r_users (rooms (Sample.world Sample.voiced
                                             (Sample.plainRoom (js "bob") false)) (js "tech")))
    by (vm_compute; reflexivity).
  exact (unknown_command_is_reported (Sample.server Sample.dataTable []) 0 0%Z 47
           (js "dtaa") (js " pikachu") (js "pikachu") (js "tech") (js "bob")
           (Sample.world Sample.voiced (Sample.plainRoom (js "bob") false))
           (or_introl eq_refl) eq_refl eq_refl (TailArgs (js "pikachu")) eq_refl eq_refl
           eq_refl Hin eq_refl).
Defined.


(** * Further properties: [PatternTester] *)

Section PatternFacts.

Import PatternTester.

Lemma forallb_Forall_true (p : N -> bool) (s : jsstring) :
  forallb p s = true <-> Forall (fun c => p c = true) s.
Proof.
  induction s as [|c s IH]; simpl.
  - split; [constructor|done].
  - rewrite andb_true_iff, IH. split.
    + intros [Hc Hs]. by constructor.
    + intros H. by inversion H.
Qed.

Lemma fastNormalize_word (w : jsstring) : fastNormalize (w ++ [SPACE]) = w.
Proof.
  unfold fastNormalize, sliceEnd. rewrite length_app. simpl.
  replace (length w + 1 - 1)%nat with (length w) by lia. by rewrite take_app_length.
Qed.

Lemma isFast_word (elem : jsstring) :
  isFast elem = true ->
  exists w, elem = w ++ [SPACE] /\ w <> [] /\ Forall (fun c => isLiteral c = true) w.
Proof.
  unfold isFast. destruct (reverse elem) as [|c word] eqn:Hrev; [done|].
  intros H. apply andb_true_iff in H as [H Hlit]. apply andb_true_iff in H as [Hc Hne].
  apply N.eqb_eq in Hc. subst c.
  exists (reverse word). split; [|split].
  - apply (f_equal reverse) in Hrev. rewrite reverse_involutive in Hrev.
    by rewrite Hrev, reverse_cons.
  - intros Hnil. apply (f_equal reverse) in Hnil. rewrite reverse_involutive in Hnil.
    subst word. done.
  - apply Forall_reverse. by apply forallb_Forall_true.
Qed.

Lemma word_isFast (w : jsstring) :
  w <> [] -> Forall (fun c => isLiteral c = true) w -> isFast (w ++ [SPACE]) = true.
Proof.
  intros Hne Hlit. unfold isFast. rewrite reverse_app. simpl.
  replace (SPACE =? SPACE) with true by reflexivity. simpl.
  apply andb_true_iff. split.
  - apply negb_true_iff, jseq_false. intros Hnil.
    apply (f_equal reverse) in Hnil. rewrite reverse_involutive in Hnil. done.
  - apply forallb_Forall_true, Forall_reverse. done.
Qed.

Lemma literal_not_space (w : jsstring) :
  Forall (fun c => isLiteral c = true) w -> Forall (fun c => c <> SPACE) w.
Proof.
  intros Hw. eapply Forall_impl; [exact Hw|]. intros c Hc ->. done.
Qed.

(** The first word of a command line and of a bare word. *)
Lemma firstWord_line (w rest : jsstring) :
  Forall (fun c => c <> SPACE) w -> firstWord (w ++ SPACE :: rest) = w.
Proof.
  intros Hw. unfold firstWord. rewrite indexOf_absent by done.
  destruct (Z.leb_spec 0 (Z.of_nat (length w))) as [_|Hneg]; [|lia].
  rewrite Nat2Z.id. unfold slice. rewrite drop_0, Nat.sub_0_r. by rewrite take_app_length.
Qed.

Lemma firstWord_bare (w : jsstring) :
  Forall (fun c => c <> SPACE) w -> firstWord w = w.
Proof. intros Hw. unfold firstWord. by rewrite indexOf_none. Qed.

Lemma firstWord_no_space (text : jsstring) : Forall (fun c => c <> SPACE) (firstWord text).
Proof.
  unfold firstWord. induction text as [|d text IH]; simpl; [constructor|].
  destruct (N.eqb_spec d SPACE) as [->|Hd]; simpl.
  - unfold slice. simpl. constructor.
  - destruct (Z.ltb_spec (indexOf text SPACE) 0) as [Hneg|Hpos]; simpl.
    + destruct (Z.leb_spec 0 (indexOf text SPACE)) as [Hle|_]; [lia|].
      constructor; [done|]. done.
    + destruct (Z.leb_spec 0 (indexOf text SPACE)) as [_|Hlt]; [|lia].
      destruct (Z.leb_spec 0 (indexOf text SPACE + 1)) as [_|Hlt]; [|lia].
      unfold slice in *. rewrite drop_0, Nat.sub_0_r in *.
      rewrite Z2Nat.inj_add by lia. rewrite Nat.add_1_r. simpl.
      constructor; done.
Qed.

(** What [push], [update] and [register] keep. *)
Lemma update_elements (p : t) : elements (update p) = elements p.
Proof. unfold update. by destruct (filter _ _). Qed.

Lemma update_fastElements (p : t) : fastElements (update p) = fastElements p.
Proof. unfold update. by destruct (filter _ _). Qed.

Lemma foldl_push_elements (elems : list jsstring) (p : t) :
  elements (foldl push p elems) = elements p ++ elems.
Proof.
  revert p. induction elems as [|e elems IH]; intros p; simpl.
  - by rewrite app_nil_r.
  - rewrite IH. simpl. by rewrite <- app_assoc.
Qed.

Lemma foldl_push_fast (elems : list jsstring) (p : t) (w : jsstring) :
  w ∈ fastElements (foldl push p elems) <->
  w ∈ fastElements p \/ exists e, e ∈ elems /\ isFast e = true /\ w = fastNormalize e.
Proof.
  revert p. induction elems as [|e elems IH]; intros p; simpl.
  - split; [by left|]. intros [H|(e & He & _)]; [done|]. by apply elem_of_nil in He.
  - rewrite IH. simpl. split.
    + intros [H|(e' & He' & Hf & ->)].
      * destruct (isFast e) eqn:He.
        -- apply elem_of_union in H as [H|H]; [|by left].
           apply elem_of_singleton in H. right. exists e. split; [left|done].
        -- by left.
      * right. exists e'. split; [by right|done].
    + intros [H|(e' & He' & Hf & ->)].
      * left. destruct (isFast e); [|done]. apply elem_of_union. by right.
      * apply elem_of_cons in He' as [->|He'].
        -- left. rewrite Hf. apply elem_of_union. left. by apply elem_of_singleton.
        -- right. by exists e'.
Qed.

Lemma register_elements (p : t) (elems : list jsstring) :
  elements (register p elems) = elements p ++ elems.
Proof. unfold register. by rewrite update_elements, foldl_push_elements. Qed.

Lemma register_fast (p : t) (elems : list jsstring) (w : jsstring) :
  w ∈ fastElements (register p elems) <->
  w ∈ fastElements p \/ exists e, e ∈ elems /\ isFast e = true /\ w = fastNormalize e.
Proof. unfold register. rewrite update_fastElements. apply foldl_push_fast. Qed.

Lemma foldl_register_elements (batches : list (list jsstring)) (p : t) :
  elements (foldl register p batches) = elements p ++ concat batches.
Proof.
  revert p. induction batches as [|b batches IH]; intros p; simpl.
  - by rewrite app_nil_r.
  - rewrite IH, register_elements. by rewrite <- app_assoc.
Qed.

Lemma foldl_register_fast (batches : list (list jsstring)) (p : t) (w : jsstring) :
  w ∈ fastElements (foldl register p batches) <->
  w ∈ fastElements p \/ exists e, e ∈ concat batches /\ isFast e = true /\ w = fastNormalize e.
Proof.
  revert p. induction batches as [|b batches IH]; intros p; simpl.
  - split; [by left|]. intros [H|(e & He & _)]; [done|]. by apply elem_of_nil in He.
  - rewrite IH, register_fast. split.
    + intros [[H|(e & He & Hf & ->)]|(e & He & Hf & ->)].
      * by left.
      * right. exists e. split; [|done]. apply elem_of_app. by left.
      * right. exists e. split; [|done]. apply elem_of_app. by right.
    + intros [H|(e & He & Hf & ->)]; [by left; left|].
      apply elem_of_app in He as [He|He].
      * left. right. by exists e.
      * right. by exists e.
Qed.

(** The fast words of a tester are those of its fast patterns. *)
Lemma registered_fast (batches : list (list jsstring)) (w : jsstring) :
  w ∈ fastElements (registered batches) <->
  exists e, e ∈ concat batches /\ isFast e = true /\ w = fastNormalize e.
Proof.
  unfold registered. rewrite foldl_register_fast. split.
  - intros [H|H]; [|done]. by apply elem_of_empty in H.
  - intros H. by right.
Qed.

(** Patterns that are all fast leave no regular expression. *)
Lemma foldl_push_regexp (elems : list jsstring) (p : t) :
  regexp (foldl push p elems) = regexp p.
Proof. revert p. induction elems as [|e elems IH]; intros p; simpl; [done|]. by rewrite IH. Qed.

Lemma update_all_fast (p : t) :
  Forall (fun e => fastNormalize e ∈ fastElements p) (elements p) -> update p = p.
Proof.
  intros Hall. unfold update.
  assert (filter (fun elem => fastNormalize elem ∉ fastElements p) (elements p) = []) as ->; [|done].
  induction Hall as [|e es He _ IH]; [done|].
  rewrite filter_cons. destruct (decide _) as [Hn|_]; [by destruct Hn|]. exact IH.
Qed.

Lemma registered_all_fast (batches : list (list jsstring)) :
  Forall (fun e => isFast e = true) (concat batches) -> regexp (registered batches) = None.
Proof.
  unfold registered.
  assert (forall p, regexp p = None ->
            Forall (fun e => fastNormalize e ∈ fastElements p) (elements p) ->
            Forall (fun e => isFast e = true) (concat batches) ->
            regexp (foldl register p batches) = None) as Hgen.
  { induction batches as [|b batches IH]; intros p Hp Hinv Hall; simpl; [done|].
    simpl in Hall. apply Forall_app in Hall as [Hb Hrest].
    assert (Forall (fun e => fastNormalize e ∈ fastElements (foldl push p b))
              (elements (foldl push p b))) as Hinv'.
    { rewrite foldl_push_elements. apply Forall_app. split.
      - eapply Forall_impl; [exact Hinv|]. intros e He. apply foldl_push_fast. by left.
      - apply Forall_forall. intros e He. apply foldl_push_fast. right.
        exists e. split; [done|]. split; [|done]. by eapply Forall_forall in Hb. }
    apply IH; [| |done].
    - unfold register. rewrite update_all_fast by done. by rewrite foldl_push_regexp.
    - unfold register. by rewrite update_all_fast. }
  intros Hall. apply Hgen; [done|constructor|done].
Qed.

End PatternFacts.

(** X23: a fast pattern, once registered, always matches. When a pattern
    [word + ' '], whose word is not empty and holds no space and none of
    [^ $ ? | ( ) [ ]], is among the patterns registered, in any batch and
    whatever else is registered, [testCommand] accepts the bare word and
    every text that starts with the word and a space, whatever the
    regular expression of the other patterns says. *)
Theorem registered_fast_pattern_matches
    (regexpTest : jsstring -> jsstring -> bool) (batches : list (list jsstring))
    (word rest : jsstring) :
  word <> [] ->
  Forall (fun c => PatternTester.isLiteral c = true) word ->
  word ++ [SPACE] ∈ concat batches ->
  PatternTester.testCommand regexpTest (PatternTester.registered batches) (word ++ SPACE :: rest) = true /\
  PatternTester.testCommand regexpTest (PatternTester.registered batches) word = true.
Proof.
  intros Hne Hlit Hin.
  assert (word ∈ PatternTester.fastElements (PatternTester.registered batches)) as Hfast.
  { apply registered_fast. exists (word ++ [SPACE]).
    split; [done|]. split; [by apply word_isFast|]. by rewrite fastNormalize_word. }
  pose proof (literal_not_space _ Hlit) as Hsp.
  unfold PatternTester.testCommand.
  rewrite firstWord_line, firstWord_bare by done.
  by rewrite bool_decide_eq_true_2.
Qed.

Lemma registered_fast_pattern_matches_witness :
  PatternTester.testCommand (fun _ _ => false)
    (PatternTester.registered [[js ">>>? "]; [js "/htmlbox "; js "/(?:room|staff)intro "]])
    (js "/htmlbox" ++ SPACE :: js "<b>hi</b>") = true /\
  PatternTester.testCommand (fun _ _ => false)
    (PatternTester.registered [[js ">>>? "]; [js "/htmlbox "; js "/(?:room|staff)intro "]])
    (js "/htmlbox") = true.
Proof.
  apply (registered_fast_pattern_matches (fun _ _ => false)
           [[js ">>>? "]; [js "/htmlbox "; js "/(?:room|staff)intro "]] (js "/htmlbox") (js "<b>hi</b>")).
  - discriminate.
  - vm_compute. repeat constructor.
  - apply list_elem_of_In. vm_compute. tauto.
Defined.

(** X24: with fast patterns only, a text matches exactly when its first
    word is a registered word, letter for letter. When every registered
    pattern is a word followed by a space, no regular expression is
    compiled, and [testCommand(text)] is true if and only if the text up
    to its first space (the whole text when it has none), followed by a
    space, is one of the patterns. *)
Theorem fast_patterns_match_exactly
    (regexpTest : jsstring -> jsstring -> bool) (batches : list (list jsstring))
    (text : jsstring) :
  Forall (fun e => PatternTester.isFast e = true) (concat batches) ->
  PatternTester.regexp (PatternTester.registered batches) = None /\
  (PatternTester.testCommand regexpTest (PatternTester.registered batches) text = true <->
   PatternTester.firstWord text ++ [SPACE] ∈ concat batches).
Proof.
  intros Hall. pose proof (registered_all_fast _ Hall) as Hre. split; [done|].
  unfold PatternTester.testCommand. rewrite Hre.
  destruct (bool_decide _) eqn:Hdec.
  - apply bool_decide_eq_true in Hdec. split; [intros _|done].
    apply registered_fast in Hdec as (e & He & Hfast & Hw).
    apply isFast_word in Hfast as (w & -> & _ & _).
    rewrite fastNormalize_word in Hw. by rewrite Hw.
  - apply bool_decide_eq_false in Hdec. split; [done|]. intros Hin. destruct Hdec.
    apply registered_fast. exists (PatternTester.firstWord text ++ [SPACE]).
    split; [done|]. split; [by eapply Forall_forall in Hall|]. by rewrite fastNormalize_word.
Qed.

Lemma fast_patterns_match_exactly_witness :
  PatternTester.regexp (PatternTester.registered [[js "/htmlbox "]; [js "/adduhtml "]]) = None /\
  (PatternTester.testCommand (fun _ _ => true)
     (PatternTester.registered [[js "/htmlbox "]; [js "/adduhtml "]]) (js "/HTMLBOX hi") = true <->
   PatternTester.firstWord (js "/HTMLBOX hi") ++ [SPACE] ∈ concat [[js "/htmlbox "]; [js "/adduhtml "]]).
Proof.
  apply (fast_patterns_match_exactly (fun _ _ => true) [[js "/htmlbox "]; [js "/adduhtml "]] (js "/HTMLBOX hi")).
  vm_compute. repeat constructor.
Defined.


(** * Further properties: [PageContext] *)

Lemma startsWith_app_literal (a x p : jsstring) :
  (length p <= length a)%nat -> startsWith (a ++ x) p = startsWith a p.
Proof.
  revert a. induction p as [|c p IH]; intros a Hlen; [done|].
  destruct a as [|d a]; simpl in Hlen; [lia|].
  simpl. rewrite IH by lia. done.
Qed.

Section PageFacts.

Import PageContext.

Variable escapeHTML : jsstring -> jsstring.
Variable users : jsstring -> User.
Variable Rooms_get : jsstring -> option jsstring.

Lemma addressed_to (p content : jsstring) :
  addressed p (js ">" ++ p ++ NL ++ content) = Some content.
Proof.
  unfold addressed.
  replace (js ">" ++ p ++ NL ++ content) with ((js ">" ++ p ++ NL) ++ content)
    by (by rewrite <- !app_assoc).
  by rewrite startsWith_prefix, drop_app_length.
Qed.

Lemma opened_send (p content : jsstring) (s : State) : opened p s -> opened p (send content s).
Proof.
  intros [Hp Hs]. unfold opened, send, emit, withThis.
  destruct (startsWith content (js "|deinit")) eqn:Hdeinit; cbn [negb].
  - cbn [this out pageid initialized]. split; [done|].
    intros later Hlater. rewrite <- app_assoc. apply Hs. cbn [app wellOpened].
    rewrite Hp, addressed_to, Hdeinit. exact Hlater.
  - destruct (initialized (this s)) eqn:Hinit; cbn [negb this out pageid initialized].
    + split; [done|]. rewrite Hinit.
      intros later Hlater. rewrite <- app_assoc. apply Hs. cbn [app wellOpened].
      rewrite Hp, addressed_to.
      rewrite !(startsWith_app_literal (js "|title|")) by (vm_compute; lia).
      replace (startsWith (js "|title|") (js "|deinit")) with false by (vm_compute; reflexivity).
      replace (startsWith (js "|title|") (js "|init|html" ++ NL ++ js "|title|")) with false
        by (vm_compute; reflexivity).
      exact Hlater.
    + split; [done|].
      intros later Hlater. rewrite <- app_assoc. apply Hs. cbn [app wellOpened].
      rewrite Hp, addressed_to.
      set (rest := match room (this s) with
                   | Some rid => js "[" ++ rid ++ js "] "
                   | None => []
                   end ++ title (this s) ++ NL ++ js "|pagehtml|" ++ content).
      replace (js "|init|html" ++ NL ++ js "|title|" ++ rest) with
        ((js "|init|html" ++ NL ++ js "|title|") ++ rest) by (by rewrite <- !app_assoc).
      rewrite (startsWith_app_literal (js "|init|html" ++ NL ++ js "|title|")) by (vm_compute; lia).
      replace (startsWith (js "|init|html" ++ NL ++ js "|title|") (js "|deinit")) with false
        by (vm_compute; reflexivity).
      rewrite startsWith_prefix. exact Hlater.
Qed.

Lemma opened_errorReply (p message : jsstring) (s : State) :
  opened p s -> opened p (errorReply escapeHTML message s).
Proof. apply opened_send. Qed.

Lemma opened_setRoom (p : jsstring) (r : option jsstring) (s : State) :
  opened p s -> opened p (setRoom r s).
Proof. intros [Hp Hs]. split; [done|]. exact Hs. Qed.

Lemma opened_setTitle (p title : jsstring) (s : State) : opened p s -> opened p (setTitle title s).
Proof. intros [Hp Hs]. split; [done|]. exact Hs. Qed.

Lemma opened_setArgs (p : jsstring) (parts : list jsstring) (s : State) :
  opened p s -> opened p (setArgs parts s).
Proof. intros [Hp Hs]. split; [done|]. exact Hs. Qed.

Lemma opened_crashed (p : jsstring) (err : Error) (source name pid : jsstring)
    (r : option jsstring) (s : State) :
  opened p s -> opened p (emit (Crashed err source name r pid) s).
Proof.
  intros [Hp Hs]. split; [done|]. intros later Hlater. simpl.
  rewrite <- app_assoc. apply Hs. exact Hlater.
Qed.

Lemma opened_exec (p : jsstring) (prog : PageProg) (s : State) :
  opened p s -> opened p (exec escapeHTML users Rooms_get prog s).2.
Proof.
  revert s. induction prog as [v|e|content k IH|message k IH|k IH|permission r k IH|pid k IH|pid k IH|title k IH];
    intros s Hs; simpl.
  - done.
  - done.
  - by apply IH, opened_send.
  - by apply IH, opened_errorReply.
  - by apply IH, opened_send.
  - unfold can. destruct (negb _); apply IH; [by apply opened_send|done].
  - apply IH. by apply opened_setRoom.
  - unfold requireRoom. simpl. destruct (_ ≫= Rooms_get) as [rid|] eqn:Hroom; simpl.
    + apply IH. by do 2 apply opened_setRoom.
    + by apply opened_setRoom.
  - by apply IH, opened_setTitle.
Qed.

Lemma opened_new (p user : jsstring) (lang : option jsstring) :
  opened p {| this := new p user lang; out := [] |}.
Proof. split; [done|]. intros later Hlater. exact Hlater. Qed.

Lemma opened_resolve (pages : PageEntry) (p : jsstring) (s : State) :
  opened p s -> opened p (resolve escapeHTML users Rooms_get pages None s).2.
Proof.
  intros Hs. unfold resolve.
  destruct (walk pages _) as [[handler|] parts]; [|by apply opened_errorReply].
  pose proof (opened_exec p (handler parts) (setArgs parts s) (opened_setArgs p parts s Hs)) as Hrun.
  destruct (exec _ _ _ _ _) as [[err|res] s']; simpl in Hrun.
  - destruct (endsWith _ _); simpl.
    + by apply opened_errorReply.
    + by apply opened_send, opened_crashed.
  - destruct res; simpl; try done. by apply opened_send.
Qed.

End PageFacts.

(** X25: a page is opened once. Whatever the tables of [Chat.pages] hold
    and whatever the handler does with its context, every message that
    [Chat.resolvePage] sends is addressed to the page; the first one that
    is not [|deinit] starts with [|init|html] and the title, and every
    later one starts with the title only. *)
Theorem page_is_opened_once
    (escapeHTML : jsstring -> jsstring) (users : jsstring -> User)
    (Rooms_get : jsstring -> option jsstring) (pages : PageContext.PageEntry)
    (pageid user : jsstring) :
  PageContext.wellOpened pageid false
    (PageContext.out (PageContext.resolvePage escapeHTML users Rooms_get pages pageid user).2) = true.
Proof.
  unfold PageContext.resolvePage.
  destruct (opened_resolve escapeHTML users Rooms_get pages pageid _
              (opened_new pageid user (u_language (users user)))) as [_ Hout].
  specialize (Hout [] eq_refl). by rewrite app_nil_r in Hout.
Qed.

(** X26: a page that requires a room, opened under an id that names
    none, is an invalid link. When the handler found for the page id
    starts with [this.requireRoom()] and the third part of the page id is
    no room, [Chat.resolvePage] returns undefined after one message: the
    page opened with the title [Page] and the escaped text [Invalid link:
    This page requires a room ID.] as its error; nothing reaches the crash
    log and the rest of the handler does not run. *)
Theorem page_without_room_is_an_invalid_link
    (escapeHTML : jsstring -> jsstring) (users : jsstring -> User)
    (Rooms_get : jsstring -> option jsstring) (pages : PageContext.PageEntry)
    (pageid user : jsstring) (handler : PageContext.PageHandler) (parts : list jsstring)
    (k : jsstring -> PageContext.PageProg) :
  PageContext.walk pages (tail (splitOn PageContext.DASH pageid)) = (Some handler, parts) ->
  handler parts = PageContext.PRequireRoom None k ->
  splitOn PageContext.DASH pageid !! 2%nat ≫= Rooms_get = None ->
  (PageContext.resolvePage escapeHTML users Rooms_get pages pageid user).1 = JUndefined /\
  PageContext.out (PageContext.resolvePage escapeHTML users Rooms_get pages pageid user).2 =
    [PageContext.Sent
       (js ">" ++ pageid ++ NL ++ js "|init|html" ++ NL ++ js "|title|Page" ++ NL ++
        js "|pagehtml|<div class=" ++ DQ ++ js "pad" ++ DQ ++ js "><p class=" ++ DQ ++
        js "message-error" ++ DQ ++ js ">" ++
        escapeHTML (js "Invalid link: This page requires a room ID.") ++ js "</p></div>")].
Proof.
  intros Hwalk Hhandler Hroom.
  unfold PageContext.resolvePage, PageContext.resolve, PageContext.new, MessageContext_new.
  cbn [PageContext.this PageContext.pageid].
  rewrite Hwalk.
  unfold PageContext.setArgs, PageContext.withThis.
  cbn [PageContext.this PageContext.out PageContext.user PageContext.language
       PageContext.recursionDepth PageContext.room PageContext.pageid
       PageContext.initialized PageContext.title PageContext.args].
  rewrite Hhandler.
  cbn [PageContext.exec].
  unfold PageContext.requireRoom, PageContext.extractRoom, PageContext.setRoom, PageContext.withThis.
  cbn [PageContext.this PageContext.out PageContext.user PageContext.language
       PageContext.recursionDepth PageContext.room PageContext.pageid
       PageContext.initialized PageContext.title PageContext.args].
  rewrite Hroom.
  replace (endsWith (err_name (ErrorMessage (js "Invalid link: This page requires a room ID.")))
             (js "ErrorMessage")) with true by (vm_compute; reflexivity).
  cbn [fst snd]. split; [done|].
  unfold PageContext.errorReply, PageContext.send, PageContext.emit, PageContext.withThis.
  replace (startsWith _ (js "|deinit")) with false by (vm_compute; reflexivity).
  cbn [negb PageContext.this PageContext.out PageContext.user PageContext.language
       PageContext.recursionDepth PageContext.room PageContext.pageid
       PageContext.initialized PageContext.title PageContext.args app err_message ErrorMessage].
  reflexivity.
Qed.

Lemma page_without_room_is_an_invalid_link_witness :
  (PageContext.resolvePage (fun s => s) (fun _ => Sample.regular) (fun _ => None)
     (PageContext.PageTab {[ js "chatlog" := PageContext.PageFn
                               (fun _ => PageContext.PRequireRoom None (fun _ => PageContext.PReturn JUndefined)) ]})
     (js "view-chatlog-nowhere") (js "bob")).1 = JUndefined /\
  PageContext.out
    (PageContext.resolvePage (fun s => s) (fun _ => Sample.regular) (fun _ => None)
       (PageContext.PageTab {[ js "chatlog" := PageContext.PageFn
                                 (fun _ => PageContext.PRequireRoom None (fun _ => PageContext.PReturn JUndefined)) ]})
       (js "view-chatlog-nowhere") (js "bob")).2 =
    [PageContext.Sent
       (js ">" ++ js "view-chatlog-nowhere" ++ NL ++ js "|init|html" ++ NL ++ js "|title|Page" ++ NL ++
        js "|pagehtml|<div class=" ++ DQ ++ js "pad" ++ DQ ++ js "><p class=" ++ DQ ++
        js "message-error" ++ DQ ++ js ">" ++
        js "Invalid link: This page requires a room ID." ++ js "</p></div>")].
Proof.
  apply (page_without_room_is_an_invalid_link (fun s => s) (fun _ => Sample.regular) (fun _ => None)
           _ (js "view-chatlog-nowhere") (js "bob")
           (fun _ => PageContext.PRequireRoom None (fun _ => PageContext.PReturn JUndefined))
           [js "nowhere"] (fun _ => PageContext.PReturn JUndefined)).
  - vm_compute. reflexivity.
  - reflexivity.
  - vm_compute. reflexivity.
Defined.


(** * Further properties: the chat log viewer *)

Section LogFacts.

Variable user : User.
Variable userid : jsstring.
Variable inRooms : gset jsstring.
Variable Rooms_get : jsstring -> option LogReader.Room.

Abbreviation categorize := (LogReader.categorize user userid inRooms Rooms_get).
Abbreviation visit := (LogReader.visit user userid inRooms Rooms_get).
Abbreviation passedOver := (LogReader.passedOver user userid inRooms).
Abbreviation forceShow := (LogReader.forceShow user userid inRooms).

(** A turn of the loop lists the room once, or not at all. *)
Lemma categorize_listed (opts : option jsstring) (cats : LogReader.Categories) (rid : jsstring) :
  LogReader.listed (categorize opts cats rid) ≡ₚ LogReader.listed cats \/
  LogReader.listed (categorize opts cats rid) ≡ₚ rid :: LogReader.listed cats.
Proof.
  unfold LogReader.categorize, LogReader.listed.
  repeat case_match; simpl; try (by left); right;
    rewrite <- ?app_assoc; simpl;
    rewrite <- ?Permutation_middle, ?app_nil_r; done.
Qed.

Lemma categorize_member (opts : option jsstring) (cats : LogReader.Categories) (rid x : jsstring) :
  x ∈ LogReader.listed (categorize opts cats rid) -> x ∈ LogReader.listed cats \/ x = rid.
Proof.
  intros Hx. destruct (categorize_listed opts cats rid) as [Hsame|Hone].
  - left. by rewrite <- Hsame.
  - rewrite Hone in Hx. apply elem_of_cons in Hx as [->|Hx]; [by right|by left].
Qed.

(** With [opts] set to ['all'], every room that is not passed over is
    listed. *)
Lemma categorize_all (cats : LogReader.Categories) (rid : jsstring) :
  LogReader.listed (categorize (Some (js "all")) cats rid) ≡ₚ rid :: LogReader.listed cats.
Proof.
  unfold LogReader.categorize, LogReader.listed, LogReader.optsIs.
  rewrite jseq_refl. rewrite orb_true_r. cbn [orb].
  repeat case_match; simpl;
    rewrite <- ?app_assoc; simpl;
    rewrite <- ?Permutation_middle, ?app_nil_r; done.
Qed.

(** A room that exists is never listed as deleted. *)
Lemma categorize_existing (opts : option jsstring) (cats : LogReader.Categories) (rid : jsstring) :
  is_Some (Rooms_get rid) ->
  LogReader.deleted (categorize opts cats rid) = LogReader.deleted cats /\
  LogReader.deletedPersonal (categorize opts cats rid) = LogReader.deletedPersonal cats.
Proof.
  intros [room Hroom]. unfold LogReader.categorize. rewrite Hroom.
  repeat case_match; simpl; done.
Qed.

(** Who is not upper staff is let in by [forceShow], or as staff into a
    room that they may join and that is not secret. *)
Lemma passedOver_let_in (room : option LogReader.Room) :
  LogReader.isUpperStaff user = false -> passedOver room = false ->
  exists r, room = Some r /\
    (forceShow (Some r) = true \/
     (LogReader.isStaff user = true /\ LogReader.checkModjoin r userid = true /\
      LogReader.isPrivate r <> JBool true)).
Proof.
  intros Hupper. unfold LogReader.passedOver. rewrite Hupper. cbn [negb andb].
  destruct (forceShow room) eqn:Hforce; cbn [negb].
  - intros _. destruct room as [r|]; [|done]. exists r. split; [done|]. by left.
  - destruct (LogReader.isStaff user) eqn:Hstaff; cbn [negb]; [|done].
    destruct room as [r|]; [|done].
    destruct (LogReader.checkModjoin r userid) eqn:Hjoin; cbn [negb]; [|done].
    intros Hprivate. exists r. split; [done|]. right. repeat split; [done|].
    intros Heq. rewrite Heq in Hprivate. done.
Qed.

Lemma visit_upper_staff (opts : option jsstring) (acc : LogReader.Categories * bool) (rid : jsstring) :
  LogReader.isUpperStaff user = true -> visit opts acc rid = (categorize opts acc.1 rid, true).
Proof.
  intros Hupper. unfold LogReader.visit, LogReader.passedOver. by rewrite Hupper.
Qed.

End LogFacts.

(** X27: the logs of deleted rids are for upper staff, and so are the
    logs of the rids one has no access to. For a user who cannot
    'rangeban', [listCategorized] lists no deleted room and no deleted
    personal room, and every room id it lists, in whatever category, is a
    directory of [logs/chat] whose room exists and either is forced to
    show (the user is in its auth list and can 'mute' in it, or can 'lock'
    and is in the room), or is listed to a user who can 'lock', passes
    its [checkModjoin] and whose [isPrivate] is not [true]. *)
Theorem logs_are_listed_to_those_with_access
    (user : User) (userid : jsstring) (inRooms : gset jsstring)
    (Rooms_get : jsstring -> option LogReader.Room) (opts : option jsstring)
    (listing : list jsstring) (cats : LogReader.Categories) :
  LogReader.isUpperStaff user = false ->
  LogReader.listCategorized user userid inRooms Rooms_get opts listing = Some cats ->
  LogReader.deleted cats = [] /\ LogReader.deletedPersonal cats = [] /\
  forall rid, rid ∈ LogReader.listed cats ->
    rid ∈ LogReader.list listing /\
    exists room, Rooms_get rid = Some room /\
      (LogReader.forceShow user userid inRooms (Some room) = true \/
       (LogReader.isStaff user = true /\ LogReader.checkModjoin room userid = true /\
        LogReader.isPrivate room <> JBool true)).
Proof.
  intros Hupper. unfold LogReader.listCategorized.
  set (good := fun cats : LogReader.Categories =>
         LogReader.deleted cats = [] /\ LogReader.deletedPersonal cats = [] /\
         forall rid, rid ∈ LogReader.listed cats ->
           rid ∈ LogReader.list listing /\
           exists room, Rooms_get rid = Some room /\
             (LogReader.forceShow user userid inRooms (Some room) = true \/
              (LogReader.isStaff user = true /\ LogReader.checkModjoin room userid = true /\
               LogReader.isPrivate room <> JBool true))).
  assert (forall rids acc,
            Forall (fun rid => rid ∈ LogReader.list listing) rids -> good acc.1 ->
            good (foldl (LogReader.visit user userid inRooms Rooms_get opts) acc rids).1) as Hloop.
  { induction rids as [|rid rids IH]; intros acc Hrooms Hacc; [done|].
    apply Forall_cons_1 in Hrooms as [Hrid Hrooms]. simpl. apply IH; [done|].
    unfold LogReader.visit.
    destruct (LogReader.passedOver user userid inRooms (Rooms_get rid)) eqn:Hpass; [done|].
    destruct (passedOver_let_in user userid inRooms _ Hupper Hpass) as (room & Hroom & Haccess).
    destruct Hacc as (Hdel & Hdelp & Hlisted). cbn [fst].
    destruct (categorize_existing user userid inRooms Rooms_get opts acc.1 rid) as [Hd Hdp];
      [by rewrite Hroom|].
    split; [by rewrite Hd|]. split; [by rewrite Hdp|].
    intros x Hx. apply categorize_member in Hx as [Hx| ->]; [by apply Hlisted|].
    split; [done|]. by exists room. }
  specialize (Hloop (LogReader.list listing) (LogReader.noRooms, false)).
  destruct (foldl _ _ _) as [cats' atLeastOne]. destruct atLeastOne; [|done].
  intros [= <-]. apply Hloop.
  - by apply Forall_forall.
  - unfold good. cbn [fst]. split; [done|]. split; [done|].
    intros x Hx. by apply elem_of_nil in Hx.
Qed.

Lemma logs_are_listed_to_those_with_access_witness :
  LogReader.deleted LogSample.shownToDriver = [] /\
  LogReader.deletedPersonal LogSample.shownToDriver = [] /\
  forall rid, rid ∈ LogReader.listed LogSample.shownToDriver ->
    rid ∈ LogReader.list LogSample.listing /\
    exists room, LogSample.Rooms_get rid = Some room /\
      (LogReader.forceShow LogSample.driver (js "bob") ∅ (Some room) = true \/
       (LogReader.isStaff LogSample.driver = true /\ LogReader.checkModjoin room (js "bob") = true /\
        LogReader.isPrivate room <> JBool true)).
Proof.
  apply (logs_are_listed_to_those_with_access LogSample.driver (js "bob") ∅ LogSample.Rooms_get
           None LogSample.listing LogSample.shownToDriver).
  - vm_compute. reflexivity.
  - vm_compute. reflexivity.
Defined.

(** X28: with ['all'], upper staff are shown every log. For a user who
    can 'rangeban' and [opts] set to ['all'], [listCategorized] lists
    every directory of [logs/chat] whose name is made of lower-case
    letters, digits and dashes, each as often as the listing has it,
    whether its room exists or not; it returns [null] only when there is
    none. *)
Theorem upper_staff_are_shown_every_log
    (user : User) (userid : jsstring) (inRooms : gset jsstring)
    (Rooms_get : jsstring -> option LogReader.Room) (listing : list jsstring) :
  LogReader.isUpperStaff user = true ->
  match LogReader.listCategorized user userid inRooms Rooms_get (Some (js "all")) listing with
  | Some cats => LogReader.listed cats ≡ₚ LogReader.list listing
  | None => LogReader.list listing = []
  end.
Proof.
  intros Hupper. unfold LogReader.listCategorized.
  assert (forall rids acc,
            let after := foldl (LogReader.visit user userid inRooms Rooms_get (Some (js "all"))) acc rids in
            LogReader.listed after.1 ≡ₚ LogReader.listed acc.1 ++ rids /\
            after.2 = acc.2 || negb (bool_decide (rids = []))) as Hloop.
  { induction rids as [|rid rids IH]; intros acc; simpl.
    - rewrite app_nil_r, orb_false_r. done.
    - destruct (IH (LogReader.visit user userid inRooms Rooms_get (Some (js "all")) acc rid))
        as [Hlisted Hone].
      rewrite visit_upper_staff in Hlisted, Hone by done. cbn [fst snd] in Hlisted, Hone.
      rewrite visit_upper_staff by done. split.
      + rewrite Hlisted, categorize_all. rewrite <- app_comm_cons. apply Permutation_middle.
      + rewrite Hone. by rewrite orb_true_r. }
  specialize (Hloop (LogReader.list listing) (LogReader.noRooms, false)).
  destruct Hloop as [Hlisted Hone].
  destruct (foldl _ _ _) as [cats atLeastOne]. cbn [fst snd] in Hlisted, Hone.
  destruct atLeastOne; cbn [negb].
  - exact Hlisted.
  - symmetry in Hone. cbn [orb] in Hone. apply negb_false_iff, bool_decide_eq_true in Hone. done.
Qed.

Lemma upper_staff_are_shown_every_log_witness :
  match LogReader.listCategorized LogSample.leader (js "amy") ∅ LogSample.Rooms_get
          (Some (js "all")) LogSample.listing with
  | Some cats => LogReader.listed cats ≡ₚ LogReader.list LogSample.listing
  | None => LogReader.list LogSample.listing = []
  end.
Proof.
  apply (upper_staff_are_shown_every_log LogSample.leader (js "amy") ∅ LogSample.Rooms_get
           LogSample.listing).
  vm_compute. reflexivity.
Defined.


(** * Further properties: translations *)

Section TranslationFacts.

Import Translations.

(** [split] undoes [join], and [join] undoes [split]. *)
Lemma splitGap_no_gap (part cur : jsstring) :
  includes part GAP = false -> splitGap cur part = [cur ++ part].
Proof.
  revert cur. induction part as [|c p IH]; intros cur Hp.
  - simpl. by rewrite app_nil_r.
  - assert (includes p GAP = false) as Hp'.
    { cbn [includes] in Hp. by apply orb_false_iff in Hp as [_ Hp]. }
    assert (startsWith (c :: p) GAP = false) as Hstart.
    { cbn [includes] in Hp. by apply orb_false_iff in Hp as [Hp _]. }
    cbn [splitGap]. destruct p as [|d [|e rest]].
    + rewrite IH by done. by rewrite <- app_assoc.
    + rewrite IH by done. by rewrite <- app_assoc.
    + assert ((c =? 36) && (d =? 123) && (e =? 125) = false) as ->.
      { destruct (N.eqb_spec c 36) as [->|]; [|done].
        destruct (N.eqb_spec d 123) as [->|]; [|done].
        destruct (N.eqb_spec e 125) as [->|]; [|done].
        exfalso. change GAP with [36; 123; 125] in Hstart. cbn [startsWith] in Hstart.
        rewrite !N.eqb_refl in Hstart. done. }
      rewrite IH by done. by rewrite <- app_assoc.
Qed.

Lemma splitGap_step (c d e : N) (rest cur : jsstring) :
  splitGap cur (c :: d :: e :: rest) =
  if (c =? 36) && (d =? 123) && (e =? 125) then cur :: splitGap [] rest
  else splitGap (cur ++ [c]) (d :: e :: rest).
Proof. reflexivity. Qed.

Lemma splitGap_at_gap (part rest cur : jsstring) :
  includes part GAP = false ->
  splitGap cur (part ++ GAP ++ rest) = (cur ++ part) :: splitGap [] rest.
Proof.
  revert cur. induction part as [|c p IH]; intros cur Hp.
  - rewrite app_nil_r. reflexivity.
  - assert (includes p GAP = false) as Hp'.
    { cbn [includes] in Hp. by apply orb_false_iff in Hp as [_ Hp]. }
    assert (startsWith (c :: p) GAP = false) as Hstart.
    { cbn [includes] in Hp. by apply orb_false_iff in Hp as [Hp _]. }
    specialize (IH (cur ++ [c]) Hp'). rewrite <- app_assoc in IH.
    change GAP with [36; 123; 125] in *.
    destruct p as [|d [|e p]]; cbn [app] in *; rewrite splitGap_step.
    + replace (36 =? 123) with false by reflexivity. rewrite andb_false_r. cbn [andb].
      exact IH.
    + replace (36 =? 125) with false by reflexivity. rewrite andb_false_r.
      exact IH.
    + assert ((c =? 36) && (d =? 123) && (e =? 125) = false) as ->.
      { destruct (N.eqb_spec c 36) as [->|]; [|done].
        destruct (N.eqb_spec d 123) as [->|]; [|done].
        destruct (N.eqb_spec e 125) as [->|]; [|done].
        exfalso. cbn [startsWith] in Hstart. rewrite !N.eqb_refl in Hstart. done. }
      exact IH.
Qed.

Lemma join_more (sep l next : jsstring) (ls : list jsstring) :
  join sep (l :: next :: ls) = l ++ sep ++ join sep (next :: ls).
Proof. reflexivity. Qed.

Lemma splitGap_join (parts : list jsstring) :
  parts <> [] -> Forall (fun part => includes part GAP = false) parts ->
  splitGap [] (join GAP parts) = parts.
Proof.
  intros Hne Hparts. induction Hparts as [|part parts Hpart Hparts IH]; [done|].
  destruct parts as [|next parts].
  - simpl. by rewrite splitGap_no_gap.
  - rewrite join_more, splitGap_at_gap by done. rewrite IH by done. done.
Qed.

Lemma splitGap_pieces (n : nat) (s cur : jsstring) :
  (length s <= n)%nat ->
  (exists piece pieces, splitGap cur s = piece :: pieces) /\
  join GAP (splitGap cur s) = cur ++ s.
Proof.
  revert s cur. induction n as [|n IH]; intros s cur Hlen.
  - destruct s; [|simpl in Hlen; lia]. cbn [splitGap join]. rewrite app_nil_r. eauto.
  - destruct s as [|c [|d [|e rest]]].
    + cbn [splitGap join]. rewrite app_nil_r. eauto.
    + cbn [splitGap join]. eauto.
    + cbn [splitGap join]. rewrite <- app_assoc. eauto.
    + rewrite splitGap_step. destruct ((c =? 36) && (d =? 123) && (e =? 125)) eqn:Hgap.
      * split; [by eauto|].
        apply andb_true_iff in Hgap as [Hgap He]. apply andb_true_iff in Hgap as [Hc Hd].
        apply N.eqb_eq in Hc, Hd, He. subst c d e.
        destruct (IH rest []) as [(piece & pieces & Hsplit) Hjoin]; [simpl in Hlen; lia|].
        rewrite Hsplit in *. rewrite join_more, Hjoin. reflexivity.
      * destruct (IH (d :: e :: rest) (cur ++ [c])) as [Hpieces Hjoin]; [simpl in *; lia|].
        split; [done|]. rewrite Hjoin. by rewrite <- app_assoc.
Qed.

Lemma join_splitGap (s : jsstring) : join GAP (splitGap [] s) = s.
Proof. by destruct (splitGap_pieces (length s) s []) as [_ ->]. Qed.

(** Without labels, gap [i] takes key [i]. *)
Lemma indexOfLabel_none (left : list (option jsstring)) (label : option jsstring) :
  Forall (fun val => val = None) left -> indexOfLabel left label = None.
Proof.
  induction 1 as [|val left -> _ IH]; destruct label as [l|]; simpl; try done.
  by rewrite IH.
Qed.

Lemma findTruthy_none (left : list (option jsstring)) :
  Forall (fun val => val = None) left -> findTruthy left = None.
Proof. induction 1 as [|val left -> _ IH]; simpl; [done|]. by rewrite IH. Qed.

Lemma setNull_none (index : nat) (left : list (option jsstring)) :
  Forall (fun val => val = None) left -> Forall (fun val => val = None) (setNull index left).
Proof.
  intros Hleft. unfold setNull. destruct (_ <? _)%nat.
  - by apply Forall_insert.
  - apply Forall_app. split; [done|]. apply Forall_app. split; [|by constructor].
    by apply Forall_replicate.
Qed.

Lemma fill_plain (keys : list Key) (pieces : list jsstring) (i : nat)
    (left : list (option jsstring)) (reconstructed : jsstring) :
  Forall (fun val => val = None) left ->
  length pieces = S (length (drop i keys)) ->
  fill pieces i left [] keys reconstructed =
  reconstructed ++
  concat (zip_with (fun part k => part ++ if keyTruthy k then keyText k else []) pieces (drop i keys)) ++
  default [] (last pieces).
Proof.
  revert i left reconstructed. induction pieces as [|str pieces IH]; intros i left rec Hleft Hlen;
    [done|].
  cbn [fill]. destruct (drop i keys) as [|k ks] eqn:Hdrop.
  - destruct pieces; [|done]. 
    assert (keys !! i = None) as ->.
    { apply lookup_ge_None. apply (f_equal length) in Hdrop. rewrite length_drop in Hdrop.
      simpl in Hdrop. lia. }
    simpl. done.
  - assert (keys !! i = Some k) as Hk.
    { pose proof (lookup_drop keys i 0) as H. rewrite Hdrop, Nat.add_0_r in H. done. }
    assert (drop (S i) keys = ks) as Hks.
    { pose proof (drop_drop keys 1 i) as H. rewrite Hdrop, Nat.add_1_r in H. by rewrite <- H. }
    rewrite Hk. change (default false (keyTruthy <$> Some k)) with (keyTruthy k).
    simpl in Hlen. injection Hlen as Hlen.
    assert (default [] (last (str :: pieces)) = default [] (last pieces)) as ->.
    { destruct pieces; [done|]. done. }
    cbn [zip_with concat].
    destruct (keyTruthy k).
    + rewrite lookup_nil, indexOfLabel_none, findTruthy_none by done. cbn [default].
      rewrite Hk. rewrite IH; [|by apply setNull_none|by rewrite Hks].
      rewrite Hks. by rewrite <- !app_assoc.
    + rewrite IH; [|done|by rewrite Hks]. rewrite Hks. rewrite app_nil_r. by rewrite <- !app_assoc.
Qed.

(** With labels: the gaps take the keys that their labels name. The
    array [left] after the gaps before [i] is [keyLabels] with the labels
    of these gaps struck out. *)
Abbreviation struck valLabels i :=
  (fun label : jsstring => if bool_decide (label ∈ take i valLabels) then None else Some label).

Lemma indexOfLabel_struck (keyLabels valLabels : list jsstring) (i j : nat) (label : jsstring) :
  NoDup keyLabels -> NoDup valLabels ->
  valLabels !! i = Some label -> keyLabels !! j = Some label ->
  indexOfLabel (struck valLabels i <$> keyLabels) (Some label) = Some j.
Proof.
  intros Hkeys Hvals Hi. assert (label ∉ take i valLabels) as Hfresh.
  { intros Hin. apply list_elem_of_lookup in Hin as [i' Hi'].
    apply lookup_take_Some in Hi' as [Hi' Hlt].
    pose proof (NoDup_lookup _ _ _ _ Hvals Hi Hi'). lia. }
  clear Hi. revert j. induction Hkeys as [|x xs Hx Hxs IH]; intros j Hj; [done|].
  destruct j as [|j]; simpl in Hj.
  - injection Hj as ->. cbn [fmap list_fmap indexOfLabel].
    rewrite (bool_decide_eq_false_2 (label ∈ _)) by done.
    by rewrite bool_decide_eq_true_2.
  - cbn [fmap list_fmap indexOfLabel].
    assert (x <> label) as Hne.
    { intros ->. apply Hx. by eapply list_elem_of_lookup_2. }
    rewrite bool_decide_eq_false_2.
    + change (list_fmap _ _ ?f xs) with (f <$> xs). by rewrite (IH j).
    + destruct (bool_decide _); [done|]. by intros [= ->].
Qed.

Lemma setNull_struck (keyLabels valLabels : list jsstring) (i j : nat) (label : jsstring) :
  NoDup keyLabels ->
  valLabels !! i = Some label -> keyLabels !! j = Some label ->
  setNull j (struck valLabels i <$> keyLabels) = struck valLabels (S i) <$> keyLabels.
Proof.
  intros Hkeys Hi Hj. unfold setNull. rewrite length_fmap.
  pose proof (lookup_lt_Some _ _ _ Hj) as Hlt.
  destruct (Nat.ltb_spec j (length keyLabels)) as [_|Hge]; [|lia].
  rewrite (take_S_r _ _ _ Hi).
  apply list_eq. intros n. destruct (decide (n = j)) as [->|Hn].
  - rewrite list_lookup_insert_eq by (by rewrite length_fmap).
    rewrite list_lookup_fmap, Hj. cbn [fmap option_fmap option_map].
    rewrite bool_decide_eq_true_2; [done|]. apply elem_of_app. right. by apply list_elem_of_singleton.
  - rewrite list_lookup_insert_ne by done. rewrite !list_lookup_fmap.
    destruct (keyLabels !! n) as [x|] eqn:Hx; [|done]. cbn [fmap option_fmap option_map]. f_equal.
    assert (x <> label) as Hne.
    { intros ->. by pose proof (NoDup_lookup _ _ _ _ Hkeys Hx Hj). }
    destruct (bool_decide (x ∈ take i valLabels)) eqn:Hold.
    + apply bool_decide_eq_true in Hold. rewrite bool_decide_eq_true_2; [done|].
      apply elem_of_app. by left.
    + apply bool_decide_eq_false in Hold. rewrite bool_decide_eq_false_2; [done|].
      intros Hin. apply elem_of_app in Hin as [Hin|Hin]; [done|].
      by apply list_elem_of_singleton in Hin.
Qed.

Lemma fill_labelled (keyLabels valLabels : list jsstring) (keys : list Key)
    (pieces : list jsstring) (i : nat) (reconstructed : jsstring) (texts : list jsstring) :
  NoDup keyLabels -> NoDup valLabels ->
  length keys = length valLabels ->
  Forall (fun k => keyTruthy k = true) keys ->
  length pieces = S (length (drop i valLabels)) ->
  Forall2 (fun label text => exists j k, keyLabels !! j = Some label /\ keys !! j = Some k /\
                                         text = keyText k) (drop i valLabels) texts ->
  fill pieces i (struck valLabels i <$> keyLabels) valLabels keys reconstructed =
  reconstructed ++ concat (zip_with app pieces texts) ++ default [] (last pieces).
Proof.
  intros Hdk Hdv Hkeys Htruthy.
  revert i reconstructed texts. induction pieces as [|str pieces IH]; intros i rec texts Hlen Htexts;
    [done|].
  cbn [fill]. destruct (drop i valLabels) as [|label labels] eqn:Hdrop.
  - destruct pieces; [|done]. apply Forall2_nil_inv_l in Htexts as ->.
    assert (keys !! i = None) as ->.
    { apply lookup_ge_None. apply (f_equal length) in Hdrop. rewrite length_drop in Hdrop.
      simpl in Hdrop. lia. }
    simpl. done.
  - assert (valLabels !! i = Some label) as Hi.
    { pose proof (lookup_drop valLabels i 0) as H. rewrite Hdrop, Nat.add_0_r in H. done. }
    assert (drop (S i) valLabels = labels) as Hlabels.
    { pose proof (drop_drop valLabels 1 i) as H. rewrite Hdrop, Nat.add_1_r in H. by rewrite <- H. }
    apply Forall2_cons_inv_l in Htexts as (text & texts' & (j & k & Hj & Hk & ->) & Htexts & ->).
    destruct (keys !! i) as [ki|] eqn:Hki.
    2: { apply lookup_ge_None in Hki. apply lookup_lt_Some in Hi. lia. }
    change (default false (keyTruthy <$> Some ki)) with (keyTruthy ki).
    assert (keyTruthy ki = true) as ->.
    { eapply Forall_lookup_1 in Htruthy; [exact Htruthy|exact Hki]. }
    rewrite Hi, (indexOfLabel_struck keyLabels valLabels i j label) by done.
    rewrite Hk, (setNull_struck keyLabels valLabels i j label) by done.
    simpl in Hlen. injection Hlen as Hlen.
    assert (default [] (last (str :: pieces)) = default [] (last pieces)) as ->.
    { destruct pieces; [done|]. done. }
    rewrite (IH (S i) _ texts'); [|by rewrite Hlabels|by rewrite Hlabels].
    cbn [zip_with concat]. by rewrite <- !app_assoc.
Qed.

Lemma fill_from_labels (keyLabels valLabels : list jsstring) (keys : list Key)
    (pieces texts : list jsstring) :
  NoDup keyLabels -> NoDup valLabels ->
  length keys = length valLabels ->
  Forall (fun k => keyTruthy k = true) keys ->
  length pieces = S (length valLabels) ->
  Forall2 (fun label text => exists j k, keyLabels !! j = Some label /\ keys !! j = Some k /\
                                         text = keyText k) valLabels texts ->
  fill pieces 0 (Some <$> keyLabels) valLabels keys [] =
  concat (zip_with app pieces texts) ++ default [] (last pieces).
Proof.
  intros Hdk Hdv Hkeys Htruthy Hlen Htexts.
  replace (Some <$> keyLabels) with (struck valLabels 0 <$> keyLabels).
  - by rewrite (fill_labelled keyLabels valLabels keys pieces 0 [] texts).
  - apply list_fmap_ext. intros n label _. rewrite bool_decide_eq_false_2; [done|].
    apply not_elem_of_nil.
Qed.

End TranslationFacts.

(** X29: a text without translation keeps its keys in place. In a
    language that is loaded but has no entry for the text, [tr] of a
    template (one string more than keys, none holding [${}]) returns the
    strings with each key after its string, in the order given; a key
    that is falsy, such as the count 0 or the empty string, is left
    out. *)
Theorem untranslated_text_keeps_its_keys
    (toID : jsstring -> jsstring)
    (translations : gmap jsstring (gmap jsstring Translations.Entry)) (translationsLoaded : bool)
    (language : option jsstring) (table : gmap jsstring Translations.Entry)
    (parts : list jsstring) (keys : list Translations.Key) :
  translations !! toID (match language with
                        | Some l => if jseq l [] then js "english" else l
                        | None => js "english"
                        end) = Some table ->
  table !! join Translations.GAP parts = None ->
  length parts = S (length keys) ->
  Forall (fun part => includes part Translations.GAP = false) parts ->
  Translations.tr toID translations translationsLoaded language (Translations.Template parts) keys =
  inr (Translations.Translated
         (concat (zip_with (fun part k => part ++ if Translations.keyTruthy k
                                                  then Translations.keyText k else [])
                    parts keys) ++
          default [] (last parts))).
Proof.
  intros Hlanguage Hentry Hlen Hparts. unfold Translations.tr.
  rewrite Hlanguage. cbv beta iota zeta. unfold Translations.Entry in *.
  rewrite Hentry, Hlen. cbn [Nat.eqb default from_option id].
  rewrite jseq_refl. destruct keys as [|k keys].
  - destruct parts as [|part [|next parts]]; try done.
  - rewrite splitGap_join; [|by destruct parts|done].
    rewrite fill_plain; [done|constructor|by rewrite drop_0].
Qed.

Lemma untranslated_text_keeps_its_keys_witness :
  Translations.tr (fun s => s) {[ js "english" := ∅ ]} true None
    (Translations.Template [js "You have "; js " new messages from "; js "."])
    [Translations.KNumber 3; Translations.KString (js "bob")] =
  inr (Translations.Translated
         (concat (zip_with (fun part k => part ++ if Translations.keyTruthy k
                                                  then Translations.keyText k else [])
                    [js "You have "; js " new messages from "; js "."]
                    [Translations.KNumber 3; Translations.KString (js "bob")]) ++
          default [] (last [js "You have "; js " new messages from "; js "."]))).
Proof.
  apply (untranslated_text_keeps_its_keys (fun s => s) {[ js "english" := ∅ ]} true None ∅).
  - vm_compute. reflexivity.
  - vm_compute. reflexivity.
  - reflexivity.
  - vm_compute. repeat constructor.
Defined.

(** X30: in a translation the keys follow their labels. When the entry
    found for a template is a translation [pieces[0] ${} pieces[1] ...]
    whose gaps carry the labels [valLabels], all different and each of
    them the label of one gap of the key, the gaps of the key carrying
    the labels [keyLabels], all different, and every key is truthy, then
    [tr] fills gap [i] of the translation with the key that stands in
    the gap of the key labelled [valLabels[i]], whatever the order of the
    gaps in the translation. *)
Theorem translated_keys_follow_their_labels
    (toID : jsstring -> jsstring)
    (translations : gmap jsstring (gmap jsstring Translations.Entry)) (translationsLoaded : bool)
    (language : option jsstring) (table : gmap jsstring Translations.Entry)
    (parts pieces keyLabels valLabels texts : list jsstring) (keys : list Translations.Key) :
  translations !! toID (match language with
                        | Some l => if jseq l [] then js "english" else l
                        | None => js "english"
                        end) = Some table ->
  table !! join Translations.GAP parts = Some (join Translations.GAP pieces, keyLabels, valLabels) ->
  parts <> [] ->
  join Translations.GAP pieces <> [] ->
  Forall (fun piece => includes piece Translations.GAP = false) pieces ->
  length pieces = S (length valLabels) ->
  NoDup keyLabels -> NoDup valLabels ->
  length keys = length valLabels ->
  Forall (fun k => Translations.keyTruthy k = true) keys ->
  Forall2 (fun label text => exists j k, keyLabels !! j = Some label /\ keys !! j = Some k /\
                                         text = Translations.keyText k) valLabels texts ->
  Translations.tr toID translations translationsLoaded language (Translations.Template parts) keys =
  inr (Translations.Translated (concat (zip_with app pieces texts) ++ default [] (last pieces))).
Proof.
  intros Hlanguage Hentry Hparts Htranslated Hpieces Hlen Hdk Hdv Hkeys Htruthy Htexts.
  unfold Translations.tr. rewrite Hlanguage. cbv beta iota zeta. unfold Translations.Entry in *.
  rewrite Hentry.
  destruct parts as [|part parts]; [done|]. cbn [length Nat.eqb default from_option id].
  apply jseq_false in Htranslated. rewrite Htranslated.
  destruct keys as [|k keys].
  - destruct valLabels; [|done]. apply Forall2_nil_inv_l in Htexts as ->.
    destruct pieces as [|piece [|next pieces]]; try done.
  - rewrite splitGap_join; [|by destruct pieces|done].
    do 2 f_equal. by apply fill_from_labels.
Qed.

Lemma translated_keys_follow_their_labels_witness :
  Translations.tr (fun s => s)
    {[ js "spanish" := {[ js "${} beat ${}!" :=
         (js "${} fue vencido por ${}.", [js "${winner}"; js "${loser}"],
          [js "${loser}"; js "${winner}"]) ]} ]}
    true (Some (js "spanish")) (Translations.Template [[]; js " beat "; js "!"])
    [Translations.KString (js "amy"); Translations.KString (js "bob")] =
  inr (Translations.Translated
         (concat (zip_with app [[]; js " fue vencido por "; js "."] [js "bob"; js "amy"]) ++
          default [] (last [[]; js " fue vencido por "; js "."]))).
Proof.
  apply (translated_keys_follow_their_labels (fun s => s) _ true (Some (js "spanish"))
           {[ js "${} beat ${}!" :=
                (js "${} fue vencido por ${}.", [js "${winner}"; js "${loser}"],
                 [js "${loser}"; js "${winner}"]) ]}
           [[]; js " beat "; js "!"] [[]; js " fue vencido por "; js "."]
           [js "${winner}"; js "${loser}"] [js "${loser}"; js "${winner}"]
           [js "bob"; js "amy"]
           [Translations.KString (js "amy"); Translations.KString (js "bob")]).
  - vm_compute. reflexivity.
  - vm_compute. reflexivity.
  - discriminate.
  - vm_compute. discriminate.
  - vm_compute. repeat constructor.
  - reflexivity.
  - apply (bool_decide_unpack (NoDup [js "${winner}"; js "${loser}"])). vm_compute. exact I.
  - apply (bool_decide_unpack (NoDup [js "${loser}"; js "${winner}"])). vm_compute. exact I.
  - reflexivity.
  - vm_compute. repeat constructor.
  - constructor; [exists 1%nat, (Translations.KString (js "bob")); done|].
    constructor; [exists 0%nat, (Translations.KString (js "amy")); done|]. constructor.
Defined.
